(** * VQE benchmark (vqe_benchmark.py): a shallow embedding and its properties

    The Python program builds Qiskit circuit objects, keeps a few of them in
    module-level globals and reads three kinds of JSON files.  The embedding
    keeps that shape:

    - Python [int]s are [Z], Python [float]s are binary64 [float]s;
    - circuit objects live in a heap and are handled through references, so
      that aliasing ([QC_ = qc]) and copying ([qc.copy()]) are visible;
    - exceptions are values of a result type threaded by a small monad;
    - dictionaries read from JSON keep their file order where the program
      iterates over them, and are finite maps where it only looks keys up. *)

From Stdlib Require Import ZArith String Ascii List Bool Lia.
From Stdlib Require Import Floats.PrimFloat Floats.SpecFloat Floats.FloatOps.
From Stdlib Require Import Numbers.Cyclic.Int63.Uint63.
From Stdlib Require Import DecimalString DecimalPos.
From stdpp Require Import gmap strings list fin_maps.

Set Warnings "-inexact-float".
Local Open Scope string_scope.
Local Open Scope Z_scope.

(** ** Python built-ins used by the program *)

Module Py.

(** [range(start, stop)] with the default step 1. *)
Definition range2 (start stop : Z) : list Z :=
  map (fun k => start + Z.of_nat k) (seq 0 (Z.to_nat (stop - start))).

(** [range(stop)]. *)
Definition range (stop : Z) : list Z := range2 0 stop.

(** [range(start, stop, step)] for a positive step (the program only uses
    step 2); Python raises [ValueError] for step 0, which is not reachable
    from the program. *)
Definition range3 (start stop step : Z) : list Z :=
  map (fun k => start + Z.of_nat k * step)
      (seq 0 (Z.to_nat ((stop - start + step - 1) / step))).

(** [int(n / 2)] and [int(n / 4)]: true division followed by truncation
    toward zero.  The float quotient is exact for every [n] below 2^53 in
    magnitude, which covers any qubit count; the model is the truncating
    integer quotient. *)
Definition int_div (n d : Z) : Z := Z.quot n d.

(** [str(n)] for an [int]. *)
Definition str (n : Z) : string := NilZero.string_of_int (Z.to_int n).

(** [", ".join(l)] and friends. *)
Fixpoint join (sep : string) (l : list string) : string :=
  match l with
  | [] => ""
  | [s] => s
  | s :: rest => s ++ sep ++ join sep rest
  end.

(** [str(t)] for a tuple of ints with at least two components. *)
Definition str_tuple (t : list Z) : string :=
  "(" ++ join ", " (map str t) ++ ")".

(** [enumerate(l)]. *)
Definition enumerate {A} (l : list A) : list (Z * A) :=
  combine (map Z.of_nat (seq 0 (length l))) l.

(** Whitespace as [str.split] and [str.strip] see it (ASCII). *)
Definition is_space (c : ascii) : bool :=
  let n := nat_of_ascii c in
  ((9 <=? n) && (n <=? 13) || (28 <=? n) && (n <=? 32))%nat.

(** [s.split()]: the maximal runs of non-whitespace characters.  [cur] is
    the run being read. *)
Fixpoint split_from (cur : string) (s : string) : list string :=
  match s with
  | EmptyString => if String.eqb cur "" then [] else [cur]
  | String c rest =>
      if is_space c
      then if String.eqb cur "" then split_from "" rest
           else cur :: split_from "" rest
      else split_from (cur ++ String c "") rest
  end.

Definition split (s : string) : list string := split_from "" s.

Fixpoint lstrip (s : string) : string :=
  match s with
  | String c rest => if is_space c then lstrip rest else s
  | EmptyString => s
  end.

Definition strip (s : string) : string :=
  String.rev (lstrip (String.rev (lstrip s))).

Definition digit (c : ascii) : option Z :=
  let n := nat_of_ascii c in
  if ((48 <=? n) && (n <=? 57))%nat then Some (Z.of_nat (n - 48)) else None.

(** Decimal digits, single underscores allowed between two digits. *)
Fixpoint digits (acc : Z) (after_digit : bool) (s : string) : option Z :=
  match s with
  | EmptyString => if after_digit then Some acc else None
  | String c rest =>
      match digit c with
      | Some d => digits (10 * acc + d) true rest
      | None =>
          if Ascii.eqb c "_" && after_digit then digits acc false rest else None
      end
  end.

(** [int(s)] for a string: [None] stands for [ValueError].  Strings of the
    model are ASCII; Python also accepts decimal digits of other scripts. *)
Definition int (s : string) : option Z :=
  match strip s with
  | String "+" rest => digits 0 false rest
  | String "-" rest => Z.opp <$> digits 0 false rest
  | t => digits 0 false t
  end.

(** The conversion of an [int] to a [float], as in [x / n] and in
    [np.sqrt(n)]: the nearest binary64 number, ties to even, for every
    integer in the range of binary64.  Beyond that range Python raises
    [OverflowError], and [np.sqrt] raises [TypeError] on an integer that
    fits neither [int64] nor [uint64]; neither is modelled.  The lengths
    converted here are far below; [num_shots] is the caller's, and this
    is the code's conversion for [-2^63 <= num_shots < 2^64]. *)
Definition float_of_int (n : Z) : float :=
  FloatOps.SF2Prim (SpecFloat.binary_normalize FloatOps.prec FloatOps.emax n 0 false).

End Py.

(** ** Data model *)

(** Exceptions the program can raise, by Python class. *)
Inductive Exception :=
| RuntimeError (msg : string)
| IndexError
| KeyError (key : string)
| ValueError
| ZeroDivisionError
| AxisError
| TypeError
| AttributeError
| QiskitError
| FileNotFoundError (path : string)
| SystemError.

Inductive Result (A : Type) :=
| Ok (a : A)
| Raise (e : Exception).
Arguments Ok {A} a.
Arguments Raise {A} e.

(** One term of a Pauli operator: the label and its coefficient.  The
    coefficients come from JSON numbers and are real. *)
Definition Term : Type := string * float.

(** [qiskit.quantum_info.SparsePauliOp]: a list of terms. *)
Record SparsePauliOp := SparsePauliOp_of { to_list : list Term }.

(** [op.size]. *)
Definition size (op : SparsePauliOp) : Z := Z.of_nat (length (to_list op)).

(** [op.num_qubits]: the length of the labels, read off the first one. *)
Definition op_num_qubits (op : SparsePauliOp) : Z :=
  match to_list op with
  | [] => 0
  | (label, _) :: _ => Z.of_nat (String.length label)
  end.

(** [SparsePauliOp.from_list(l)]: Qiskit refuses an empty list, because it
    cannot tell the number of qubits.  It also refuses labels that are not
    Pauli labels of one width; the model does not follow it there, and the
    theorems about files are stated for well-formed dictionaries. *)
Definition from_list (l : list Term) : Result SparsePauliOp :=
  match l with
  | [] => Raise QiskitError
  | _ => Ok (SparsePauliOp_of l)
  end.

(** [op[i]] for an integer index: a one-term operator. *)
Definition op_getitem (op : SparsePauliOp) (i : nat) : Result SparsePauliOp :=
  match to_list op !! i with
  | Some t => Ok (SparsePauliOp_of [t])
  | None => Raise IndexError
  end.

(** [op[1:]]. *)
Definition op_slice_from (op : SparsePauliOp) (i : nat) : SparsePauliOp :=
  SparsePauliOp_of (drop i (to_list op)).

(** Iterating an operator ([list(op)], [for p in op]) yields one-term
    operators. *)
Definition op_iter (op : SparsePauliOp) : list SparsePauliOp :=
  map (fun t => SparsePauliOp_of [t]) (to_list op).

(** Product-formula synthesis; the program only uses [LieTrotter()], whose
    default is one repetition. *)
Inductive Synthesis :=
| LieTrotter (reps : Z).

(** Gates and instructions.  A circuit appended to another one becomes an
    instruction that carries the appended circuit's name and gate list. *)
Inductive Operation :=
| XGate
| HGate
| SdgGate
| Barrier
| Measure
| PauliEvolutionGate (operator : SparsePauliOp) (time : float) (synthesis : Synthesis)
| SubCircuit (name : string) (width : Z) (definition : list Applied)
with Applied :=
| Apply (op : Operation) (qargs : list Z) (cargs : list Z).

(** Values stored in [qc.metadata]. *)
Inductive MetaValue :=
| MetaStr (s : string)
| MetaOp (op : SparsePauliOp).

(** [qiskit.QuantumCircuit]. *)
Record QuantumCircuit := {
  qc_name : string;
  qc_num_qubits : Z;
  qc_num_clbits : Z;
  qc_data : list Applied;
  qc_metadata : gmap string MetaValue
}.

Definition set_name (n : string) (c : QuantumCircuit) : QuantumCircuit :=
  {| qc_name := n; qc_num_qubits := qc_num_qubits c; qc_num_clbits := qc_num_clbits c;
     qc_data := qc_data c; qc_metadata := qc_metadata c |}.

Definition set_data (d : list Applied) (c : QuantumCircuit) : QuantumCircuit :=
  {| qc_name := qc_name c; qc_num_qubits := qc_num_qubits c; qc_num_clbits := qc_num_clbits c;
     qc_data := d; qc_metadata := qc_metadata c |}.

Definition set_metadata (m : gmap string MetaValue) (c : QuantumCircuit) : QuantumCircuit :=
  {| qc_name := qc_name c; qc_num_qubits := qc_num_qubits c; qc_num_clbits := qc_num_clbits c;
     qc_data := qc_data c; qc_metadata := m |}.

(** [QuantumCircuit(n, name=...)]. *)
Definition empty_circuit (n : Z) (name : string) : QuantumCircuit :=
  {| qc_name := name; qc_num_qubits := n; qc_num_clbits := 0;
     qc_data := []; qc_metadata := ∅ |}.

(** The effect of one gate call or [append] on a circuit: the instruction is
    recorded with the qubit indices the program passes.  Qiskit accepts an
    index [q] of a circuit on [n] qubits only for [-n <= q < n], raising
    [CircuitError] otherwise, and counts a negative index from the end; the
    model does not follow it there.  The theorems about gate calls are
    stated for indices in [0 .. n-1], where recording the index is what
    Qiskit does. *)
Definition push (a : Applied) (c : QuantumCircuit) : QuantumCircuit :=
  set_data (qc_data c ++ [a]) c.

(** What [qc.append(sub, qargs)] adds: [sub] turned into an instruction. *)
Definition to_instruction (sub : QuantumCircuit) : Operation :=
  SubCircuit (qc_name sub) (qc_num_qubits sub) (qc_data sub).

(** [qc.measure_all()]: a new classical register of [num_qubits] bits, a
    barrier over all qubits, then one measurement per qubit. *)
Definition measure_all (c : QuantumCircuit) : QuantumCircuit :=
  let qs := Py.range (qc_num_qubits c) in
  {| qc_name := qc_name c;
     qc_num_qubits := qc_num_qubits c;
     qc_num_clbits := qc_num_clbits c + Z.max 0 (qc_num_qubits c);
     qc_data := qc_data c ++ Apply Barrier qs []
                  :: map (fun q => Apply Measure [q] [qc_num_clbits c + q]) qs;
     qc_metadata := qc_metadata c |}.

(** A reference to a circuit object. *)
Definition ref := nat.

(** One recorded call [metrics.store_metric(group, circuit_id, name, value)];
    the metrics module is an external collaborator. *)
Record MetricCall := {
  mc_group : Z;
  mc_circuit_id : string;
  mc_metric : string;
  mc_value : gmap string float
}.

(** The second component of a pub: one operator (method 1) or a list of
    one-term operators (method 2). *)
Inductive Observables :=
| ObsOp (op : SparsePauliOp)
| ObsList (ops : list SparsePauliOp).

(** One recorded call [ex.submit_pub(pub, group, circuit_id, precision)]; the
    execution module is an external collaborator. *)
Record Submission := {
  sub_circuit : ref;
  sub_observables : Observables;
  sub_group : Z;
  sub_circuit_id : string;
  sub_precision : float
}.

(** The interpreter state: the heap of circuit objects, the module globals,
    and the calls made so far to the metrics and execution modules. *)
Record State := {
  heap : list QuantumCircuit;
  QC_ : option ref;
  Hf_ : option ref;
  CO_ : option ref;
  normalization : option float;
  stored_metrics : list MetricCall;
  submitted : list Submission
}.

Definition initial_state : State :=
  {| heap := []; QC_ := None; Hf_ := None; CO_ := None;
     normalization := None; stored_metrics := []; submitted := [] |}.

Definition with_heap (h : list QuantumCircuit) (s : State) : State :=
  {| heap := h; QC_ := QC_ s; Hf_ := Hf_ s; CO_ := CO_ s;
     normalization := normalization s; stored_metrics := stored_metrics s;
     submitted := submitted s |}.

Definition with_QC_ (r : option ref) (s : State) : State :=
  {| heap := heap s; QC_ := r; Hf_ := Hf_ s; CO_ := CO_ s;
     normalization := normalization s; stored_metrics := stored_metrics s;
     submitted := submitted s |}.

Definition with_Hf_ (r : option ref) (s : State) : State :=
  {| heap := heap s; QC_ := QC_ s; Hf_ := r; CO_ := CO_ s;
     normalization := normalization s; stored_metrics := stored_metrics s;
     submitted := submitted s |}.

Definition with_CO_ (r : option ref) (s : State) : State :=
  {| heap := heap s; QC_ := QC_ s; Hf_ := Hf_ s; CO_ := r;
     normalization := normalization s; stored_metrics := stored_metrics s;
     submitted := submitted s |}.

Definition with_normalization (x : option float) (s : State) : State :=
  {| heap := heap s; QC_ := QC_ s; Hf_ := Hf_ s; CO_ := CO_ s;
     normalization := x; stored_metrics := stored_metrics s;
     submitted := submitted s |}.

Definition with_submitted (l : list Submission) (s : State) : State :=
  {| heap := heap s; QC_ := QC_ s; Hf_ := Hf_ s; CO_ := CO_ s;
     normalization := normalization s; stored_metrics := stored_metrics s;
     submitted := l |}.

Definition with_stored_metrics (l : list MetricCall) (s : State) : State :=
  {| heap := heap s; QC_ := QC_ s; Hf_ := Hf_ s; CO_ := CO_ s;
     normalization := normalization s; stored_metrics := l;
     submitted := submitted s |}.

(** ** The monad of Python statements: state and exceptions *)

Definition M (A : Type) : Type := State -> Result A * State.

Definition ret {A} (a : A) : M A := fun s => (Ok a, s).

(** An exception ends the computation and leaves the state as it was when
    the exception was raised. *)
Definition bind {A B} (m : M A) (k : A -> M B) : M B :=
  fun s => match m s with
           | (Ok a, s') => k a s'
           | (Raise e, s') => (Raise e, s')
           end.

Definition raise {A} (e : Exception) : M A := fun s => (Raise e, s).

Definition lift {A} (r : Result A) : M A := fun s => (r, s).

Definition get {A} (f : State -> A) : M A := fun s => (Ok (f s), s).

Definition update (f : State -> State) : M unit := fun s => (Ok tt, f s).

Declare Scope py_scope.
Delimit Scope py_scope with py.
Notation "x <- m ;; k" := (bind m (fun x => k))
  (at level 100, m at next level, right associativity) : py_scope.
Notation "m ;; k" := (bind m (fun _ => k))
  (at level 100, right associativity) : py_scope.
Local Open Scope py_scope.

(** Allocation of a new circuit object. *)
Definition new (c : QuantumCircuit) : M ref :=
  fun s => (Ok (length (heap s)), with_heap (heap s ++ [c]) s).

(** Reading an object through a reference. *)
Definition deref (r : ref) : M QuantumCircuit :=
  fun s => match heap s !! r with
           | Some c => (Ok c, s)
           | None => (Raise SystemError, s)
           end.

(** In-place mutation of an object. *)
Definition mutate (r : ref) (f : QuantumCircuit -> QuantumCircuit) : M unit :=
  fun s => match heap s !! r with
           | Some c => (Ok tt, with_heap (<[r := f c]> (heap s)) s)
           | None => (Raise SystemError, s)
           end.

(** [for x in l: body x]. *)
Fixpoint for_each {A} (l : list A) (body : A -> M unit) : M unit :=
  match l with
  | [] => ret tt
  | x :: rest => body x ;; for_each rest body
  end.

(** ** Circuit construction *)

(** [HartreeFock(norb, na, nb)] (lines 164-183). *)
Definition HartreeFock (norb na nb : Z) : M ref :=
  qc <- new (empty_circuit norb "Hf") ;;
  for_each (Py.range na) (fun ia => mutate qc (push (Apply XGate [ia] []))) ;;
  for_each (Py.range nb) (fun ib =>
    mutate qc (push (Apply XGate [ib + Py.int_div norb 2] []))) ;;
  Hf <- get Hf_ ;;
  (if bool_decide (Hf = None) || (norb <=? 4)
   then if norb <? 7 then update (with_Hf_ (Some qc)) else ret tt
   else ret tt) ;;
  ret qc.

(** [for x in l: acc = body acc x], for loops that update local variables. *)
Fixpoint for_fold {A B} (l : list A) (acc : B) (body : B -> A -> M B) : M B :=
  match l with
  | [] => ret acc
  | x :: rest => acc' <- body acc x ;; for_fold rest acc' body
  end.

(** The same loop when the body has no effect on the interpreter state. *)
Fixpoint fold_result {A B} (body : B -> A -> Result B) (l : list A) (acc : B) : Result B :=
  match l with
  | [] => Ok acc
  | x :: rest =>
      match body acc x with
      | Ok acc' => fold_result body rest acc'
      | Raise e => Raise e
      end
  end.

(** [l[i]] on a Python list. *)
Definition getitem {A} (l : list A) (i : Z) : Result A :=
  match (if i <? 0 then None else l !! Z.to_nat i) with
  | Some x => Ok x
  | None => Raise IndexError
  end.

(** [d[k]] on a Python dict. *)
Definition dict_get {A} (d : gmap string A) (k : string) : Result A :=
  match d !! k with
  | Some x => Ok x
  | None => Raise (KeyError k)
  end.

(** [open(path)] followed by [json.loads]. *)
Definition load {A} (files : gmap string A) (path : string) : Result A :=
  match files !! path with
  | Some x => Ok x
  | None => Raise (FileNotFoundError path)
  end.

(** [qc.append(sub, qargs)]. *)
Definition append (qc sub : ref) (qargs : list Z) : M unit :=
  s <- deref sub ;;
  mutate qc (push (Apply (to_instruction s) qargs [])).

(** [ClusterOperatorCircuit(pauli_op, excitationIndex)] (lines 105-120).
    [PauliEvolutionGate] is called with its default time 1.0 and with
    [LieTrotter()], one repetition.  The circuit's default name is replaced
    before anything reads it. *)
Definition ClusterOperatorCircuit (pauli_op : SparsePauliOp) (excitationIndex : list Z) : M ref :=
  let num_qubits := op_num_qubits pauli_op in
  let qc_op := PauliEvolutionGate pauli_op 1.0 (LieTrotter 1) in
  qc <- new (empty_circuit num_qubits "") ;;
  mutate qc (push (Apply qc_op (Py.range num_qubits) [])) ;;
  mutate qc (set_name ("Cluster Op " ++ Py.str_tuple excitationIndex)) ;;
  CO <- get CO_ ;;
  c <- deref qc ;;
  (if bool_decide (CO = None) || (qc_num_qubits c <=? 4)
   then if qc_num_qubits c <? 7 then update (with_CO_ (Some qc)) else ret tt
   else ret tt) ;;
  ret qc.

(** The three kinds of JSON files. *)

(** An ansatz or Hamiltonian file: a JSON object from Pauli labels to
    numbers, as the list of its items in file order. *)
Definition PauliDict : Type := list (string * float).

(** One entry of a reference file. *)
Record Reference := { ref_exact : float; ref_min : float; ref_max : float }.

(** The value [result.get_expectation_values(qc)] returns: a number or an
    array of numbers. *)
Inductive ExpVal :=
| Scalar (x : float)
| Array (xs : list float).

(** [iter(expval)], as [zip] calls it. *)
Definition iterate (v : ExpVal) : Result (list ExpVal) :=
  match v with
  | Scalar _ => Raise TypeError
  | Array xs => Ok (map Scalar xs)
  end.

(** The result object handed to the execution handler. *)
Record ExecutionResult := { get_expectation_values : ref -> ExpVal }.

(** The local variables of the grouping loop of [readPauliExcitation]. *)
Record Grouping := {
  pauli_list : list SparsePauliOp;
  cur_coeff : float;
  cur_list : list Term
}.

(** One iteration of the loop over the excitations (lines 209-218). *)
Definition group_step (g : Grouping) (item : string * float) : Result Grouping :=
  let '(ext, coeff) := item in
  if PrimFloat.ltb 1e4 (cur_coeff g) then
    Ok {| pauli_list := pauli_list g; cur_coeff := coeff; cur_list := [(ext, coeff)] |}
  else if PrimFloat.ltb 1e-4
            (PrimFloat.abs (PrimFloat.sub (PrimFloat.abs coeff) (PrimFloat.abs (cur_coeff g))))
  then
    match from_list (cur_list g) with
    | Ok op =>
        Ok {| pauli_list := pauli_list g ++ [op]; cur_coeff := coeff;
              cur_list := [(ext, coeff)] |}
    | Raise e => Raise e
    end
  else
    Ok {| pauli_list := pauli_list g; cur_coeff := cur_coeff g;
          cur_list := cur_list g ++ [(ext, coeff)] |}.

(** The loop and the final append (lines 199-224), on the dictionary read. *)
Definition group_excitations (ansatz_dict : PauliDict) : Result (list SparsePauliOp) :=
  match fold_result group_step ansatz_dict
          {| pauli_list := []; cur_coeff := 1e5; cur_list := [] |} with
  | Ok g =>
      match from_list (cur_list g) with
      | Ok op => Ok (pauli_list g ++ [op])%list
      | Raise e => Raise e
      end
  | Raise e => Raise e
  end.

(** [sum(abs(p.coeffs[0]) for p in qubit_op)]. *)
Definition sum_abs_coeffs (op : SparsePauliOp) : float :=
  fold_left (fun acc t => PrimFloat.add acc (PrimFloat.abs (snd t))) (to_list op) 0%float.

(** The list of single and double excitations (lines 56-69). *)
Definition excitations (n_spin_orbs na nb : Z) : list (list Z) :=
  let norb_a := Py.int_div n_spin_orbs 2 in
  (flat_map (fun occ_a =>
    map (fun vir_a => [occ_a; vir_a]) (Py.range2 na norb_a)) (Py.range na)
  ++ flat_map (fun occ_b =>
    map (fun vir_b => [occ_b; vir_b]) (Py.range2 (norb_a + nb) n_spin_orbs))
       (Py.range2 norb_a (norb_a + nb))
  ++ flat_map (fun occ_a =>
       flat_map (fun vir_a =>
         flat_map (fun occ_b =>
           map (fun vir_b => [occ_a; vir_a; occ_b; vir_b])
               (Py.range2 (norb_a + nb) n_spin_orbs))
           (Py.range2 norb_a (norb_a + nb)))
         (Py.range2 na norb_a))
       (Py.range na))%list.

(** Max qubits must be 12 since the referenced files only go to 12 qubits. *)
Definition MAX_QUBITS : Z := 12.

(** The parameter validation at the head of [run] (lines 319-326): the new
    values of [min_qubits], [max_qubits] and [skip_qubits]. *)
Definition validate (min_qubits max_qubits skip_qubits : Z) : Z * Z * Z :=
  let max_qubits := Z.max max_qubits min_qubits in
  let max_qubits := Z.min max_qubits MAX_QUBITS in
  let min_qubits := Z.min (Z.max 4 min_qubits) max_qubits in
  let min_qubits := if min_qubits mod 2 =? 1 then min_qubits + 1 else min_qubits in
  let skip_qubits := Z.max 1 skip_qubits in
  (min_qubits, max_qubits, skip_qubits).

(** The qubit counts the benchmark loop of [run] goes through (line 397), or
    [None] when [run] returns early (lines 331-335). *)
Definition input_sizes (min_qubits max_qubits skip_qubits : Z) : option (list Z) :=
  let '(min_qubits, max_qubits, skip_qubits) := validate min_qubits max_qubits skip_qubits in
  if max_qubits <? 4 then None
  else Some (Py.range3 min_qubits (max_qubits + 1) 2).

(** ** The program proper

    The files on disk and the functions of the quantum SDK and of the metrics
    module that the program calls without defining them are parameters. *)

Section Program.

(** The files under [./ansatzes/], [./Hamiltonians/] and [../_common/], by
    path relative to the program's directory. *)
Variable ansatzes : gmap string PauliDict.
Variable Hamiltonians : gmap string PauliDict.
Variable precalculated_data : gmap string (gmap string Reference).

(** [str(x)] for the real part of a coefficient. *)
Variable str_float : float -> string.

(** [op.group_commuting(qubit_wise=True)], on an operator with at least one
    term; on an operator without terms Qiskit raises numpy's [AxisError],
    which [VQEEnergy] below accounts for. *)
Variable group_commuting : SparsePauliOp -> list SparsePauliOp.

(** [metrics.accuracy_ratio_fidelity(value, exact, min, max)]; it returns a
    dictionary. *)
Variable accuracy_ratio_fidelity : ExpVal -> float -> float -> float -> gmap string float.

(** [readPauliExcitation(norb, circuit_id)] (lines 190-224). *)
Definition readPauliExcitation (norb circuit_id : Z) : M (list SparsePauliOp) :=
  let filename := "./ansatzes/" ++ Py.str norb ++ "_qubit_" ++ Py.str circuit_id ++ ".txt" in
  ansatz_dict <- lift (load ansatzes filename) ;;
  lift (group_excitations ansatz_dict).

(** [ReadHamiltonian(nqubit)] (lines 228-246). *)
Definition ReadHamiltonian (nqubit : Z) : M SparsePauliOp :=
  let filename := "./Hamiltonians/" ++ Py.str nqubit ++ "_qubit.txt" in
  ham_dict <- lift (load Hamiltonians filename) ;;
  let pauli_list := fold_left (fun acc p => (acc ++ [p])%list) ham_dict [] in
  lift (from_list pauli_list).

(** [VQEEnergy(n_spin_orbs, na, nb, circuit_id, method)] (lines 38-101).
    [qr] is the whole register, [range(num_qubits)].  In the method-2 branch
    line 98 assigns the sum to [normalization] before line 99 divides it
    (the sum of an operator without terms is the integer 0, kept here as
    0.0); on an operator without terms [group_commuting] raises numpy's
    [AxisError], so line 99 is a float division whenever it divides. *)
Definition VQEEnergy (n_spin_orbs na nb circuit_id method : Z) : M (ref * Observables) :=
  qubit_op <- ReadHamiltonian n_spin_orbs ;;
  let num_qubits := n_spin_orbs in
  qc <- new (empty_circuit num_qubits
               ("vqe-ansatz(" ++ Py.str method ++ ") " ++ Py.str num_qubits
                  ++ " " ++ Py.str circuit_id)) ;;
  Hf <- HartreeFock num_qubits na nb ;;
  append qc Hf (Py.range num_qubits) ;;
  let excitationList := excitations n_spin_orbs na nb in
  pauli_list <- readPauliExcitation n_spin_orbs circuit_id ;;
  for_each (Py.enumerate pauli_list) (fun '(index, PauliOp) =>
    excitation <- lift (getitem excitationList index) ;;
    cluster_qc <- ClusterOperatorCircuit PauliOp excitation ;;
    cluster <- deref cluster_qc ;;
    append qc cluster_qc (Py.range (qc_num_qubits cluster))) ;;
  saved <- get QC_ ;;
  c <- deref qc ;;
  (if bool_decide (saved = None)
   then if qc_num_qubits c <? 7 then update (with_QC_ (Some qc)) else ret tt
   else ret tt) ;;
  if method =? 1 then
    op <- lift (op_getitem qubit_op 1) ;;
    term <- lift (getitem (to_list op) 0) ;;
    mutate qc (fun c =>
      set_metadata (<["method1" := MetaStr (fst term ++ " " ++ str_float (snd term))]>
                      (qc_metadata c)) c) ;;
    observable <- lift (op_getitem qubit_op 1) ;;
    ret (qc, ObsOp observable)
  else
    let qubit_op := op_slice_from qubit_op 1 in
    let total := sum_abs_coeffs qubit_op in
    update (with_normalization (Some total)) ;;
    groups <- (if bool_decide (to_list qubit_op = []) then raise AxisError
               else ret (group_commuting qubit_op)) ;;
    update (with_normalization
              (Some (PrimFloat.div total
                       (Py.float_of_int (Z.of_nat (length groups)))))) ;;
    mutate qc (fun c =>
      set_metadata (<["method2" := MetaOp qubit_op]> (qc_metadata c)) c) ;;
    ret (qc, ObsList (op_iter qubit_op)).

(** [ExpectationCircuit(qc, pauli, nqubit)] (lines 124-160). *)
Definition ExpectationCircuit (qc : ref) (pauli : SparsePauliOp) (nqubit : Z) : M (ref * bool) :=
  original <- deref qc ;;
  raw_qc <- new original ;;
  let is_diag := true in
  term <- lift (getitem (to_list pauli) 0) ;;
  let PauliString := fst term in
  let coeff := snd term in
  is_diag <- for_fold (Py.enumerate (list_ascii_of_string PauliString)) is_diag
    (fun is_diag '(i, p) =>
       let target_qubit := nqubit - i - 1 in
       if Ascii.eqb p "X" then
         mutate raw_qc (push (Apply HGate [target_qubit] [])) ;;
         ret false
       else if Ascii.eqb p "Y" then
         mutate raw_qc (push (Apply SdgGate [target_qubit] [])) ;;
         mutate raw_qc (push (Apply HGate [target_qubit] [])) ;;
         ret false
       else ret is_diag) ;;
  mutate raw_qc measure_all ;;
  mutate raw_qc (set_name (PauliString ++ " " ++ str_float coeff)) ;;
  saved <- get QC_ ;;
  (if bool_decide (saved = None) || (nqubit <=? 4)
   then if nqubit <? 7 then update (with_QC_ (Some raw_qc)) else ret tt
   else ret tt) ;;
  ret (raw_qc, is_diag).

(** [v.split()] on a metadata value; only strings have the method. *)
Definition meta_split (v : MetaValue) : Result (list string) :=
  match v with
  | MetaStr s => Ok (Py.split s)
  | MetaOp _ => Raise AttributeError
  end.

(** [v.to_list()] on a metadata value; only operators have the method. *)
Definition meta_to_list (v : MetaValue) : Result (list Term) :=
  match v with
  | MetaOp op => Ok (to_list op)
  | MetaStr _ => Raise AttributeError
  end.

(** [v.size] on a metadata value. *)
Definition meta_size (v : MetaValue) : Result Z :=
  match v with
  | MetaOp op => Ok (size op)
  | MetaStr _ => Raise AttributeError
  end.

Definition py_int (s : string) : Result Z :=
  match Py.int s with
  | Some n => Ok n
  | None => Raise ValueError
  end.

(** What the first [if] of [analyze_and_print_result] leaves in the local
    variables [method], [ref] and [qubit_op]. *)
Inductive Chosen :=
| Method1 (reference : Reference)
| Method2 (qubit_op : MetaValue).

(** One iteration of the method-2 loop (lines 279-286): the running total
    [total_fidelity["fidelity"]]. *)
Definition add_term_fidelity (references : gmap string Reference)
    (total : float) (item : ExpVal * Term) : Result float :=
  let '(val, (pauli, _)) := item in
  match dict_get references pauli with
  | Ok reference =>
      let fidelity :=
        accuracy_ratio_fidelity val (ref_exact reference) (ref_min reference) (ref_max reference) in
      match dict_get fidelity "fidelity" with
      | Ok f => Ok (PrimFloat.add total f)
      | Raise e => Raise e
      end
  | Raise e => Raise e
  end.

(** [analyze_and_print_result(qc, result, num_qubits, references, _num_shots)]
    (lines 254-292); [verbose] is [False]. *)
Definition analyze_and_print_result (qc : ref) (result : ExecutionResult)
    (num_qubits : Z) (references : gmap string Reference) (_num_shots : Z)
  : M (gmap string float) :=
  c <- deref qc ;;
  chosen <-
    match qc_metadata c !! "method1" with
    | Some total_name =>
        tokens <- lift (meta_split total_name) ;;
        token <- lift (getitem tokens 2) ;;
        circuit_id <- lift (py_int token) ;;
        reference <- lift (dict_get references
                             ("Qubits - " ++ Py.str num_qubits ++ " - " ++ Py.str circuit_id)) ;;
        ret (Method1 reference)
    | None =>
        match qc_metadata c !! "method2" with
        | Some qubit_op => ret (Method2 qubit_op)
        | None => raise (RuntimeError "Either method 1 or 2 should be chosen")
        end
    end ;;
  let expval := get_expectation_values result qc in
  match chosen with
  | Method1 reference =>
      ret (accuracy_ratio_fidelity expval
             (ref_exact reference) (ref_min reference) (ref_max reference))
  | Method2 qubit_op =>
      terms <- lift (meta_to_list qubit_op) ;;
      vals <- lift (iterate expval) ;;
      total <- lift (fold_result (add_term_fidelity references)
                       (combine vals terms) 0%float) ;;
      n <- lift (meta_size qubit_op) ;;
      if n =? 0 then raise ZeroDivisionError
      else ret {[ "fidelity" := PrimFloat.div total (Py.float_of_int n) ]}
  end.

(** [metrics.store_metric(group, circuit_id, metric, value)]. *)
Definition store_metric (group : Z) (circuit_id metric : string)
    (value : gmap string float) : M unit :=
  update (fun s =>
    with_stored_metrics
      (stored_metrics s ++ [{| mc_group := group; mc_circuit_id := circuit_id;
                               mc_metric := metric; mc_value := value |}]) s).

(** [execution_handler(qc, result, num_qubits, type, num_shots)], the
    closure defined inside [run] (lines 352-379). *)
Definition execution_handler (qc : ref) (result : ExecutionResult)
    (num_qubits : Z) (num_shots : Z) : M unit :=
  c <- deref qc ;;
  references <-
    (if bool_decide (is_Some (qc_metadata c !! "method1")) then
       lift (load precalculated_data
               ("../_common/precalculated_data_" ++ Py.str num_qubits
                  ++ "_qubit_method1.json"))
     else if bool_decide (is_Some (qc_metadata c !! "method2")) then
       lift (load precalculated_data
               ("../_common/precalculated_data_" ++ Py.str num_qubits
                  ++ "_qubit_method2.json"))
     else raise (RuntimeError "Either method 1 or 2 should be chosen")) ;;
  fidelity <- analyze_and_print_result qc result num_qubits references num_shots ;;
  c <- deref qc ;;
  match qc_metadata c !! "method1" with
  | Some total_name =>
      tokens <- lift (meta_split total_name) ;;
      circuit_id <- lift (getitem tokens 2) ;;
      store_metric num_qubits circuit_id "fidelity" fidelity
  | None =>
      if bool_decide (is_Some (qc_metadata c !! "method2"))
      then store_metric num_qubits "method2" "fidelity" fidelity
      else ret tt
  end.

(** [ex.submit_pub(pub, group, circuit_id, precision)]. *)
Definition submit_pub (pub : ref * Observables) (group : Z) (circuit_id : string)
    (precision : float) : M unit :=
  update (fun s =>
    with_submitted
      (submitted s ++ [{| sub_circuit := fst pub; sub_observables := snd pub;
                          sub_group := group; sub_circuit_id := circuit_id;
                          sub_precision := precision |}]) s).

(** [run(...)] (lines 302-476), as far as the program's own logic goes:
    the parameter validation, the construction of the pubs and their
    submission.  Printing, wall-clock metrics and plotting are left out,
    and so is the [TypeError] of [np.sqrt(num_shots)] (line 340) for a
    [num_shots] that does not fit 64 bits: the precision is the code's for
    [-2^63 <= num_shots < 2^64]. *)
Definition run (min_qubits max_qubits skip_qubits max_circuits num_shots method : Z)
    (backend_id : option string) : M unit :=
  let max_circuits := if method =? 2 then 1 else max_circuits in
  match input_sizes min_qubits max_qubits skip_qubits with
  | None => ret tt
  | Some sizes =>
      let precision :=
        if bool_decide (backend_id = Some "statevector_estimator") then 0%float
        else PrimFloat.div 1 (PrimFloat.sqrt (Py.float_of_int num_shots)) in
      for_each sizes (fun input_size =>
        let num_circuits := Z.min 3 max_circuits in
        let num_qubits := input_size in
        let na := Py.int_div num_qubits 4 in
        let nb := Py.int_div num_qubits 4 in
        pub_list <-
          (if method =? 1 then
             for_fold (Py.range num_circuits) [] (fun pub_list circuit_id =>
               pub <- VQEEnergy num_qubits na nb circuit_id method ;;
               c <- deref (fst pub) ;;
               old <- lift (dict_get (qc_metadata c) "method1") ;;
               match old with
               | MetaStr s =>
                   mutate (fst pub) (fun c =>
                     set_metadata
                       (<["method1" := MetaStr (s ++ " " ++ Py.str circuit_id)]>
                          (qc_metadata c)) c) ;;
                   ret (pub_list ++ [pub])%list
               | MetaOp _ => raise TypeError
               end)
           else if method =? 2 then
             pub <- VQEEnergy num_qubits na nb 0 method ;;
             ret [pub]
           else ret []) ;;
        for_each pub_list (fun pub =>
          let qc := fst pub in
          c <- deref qc ;;
          circuit_id <-
            match qc_metadata c !! "method1" with
            | Some total_name =>
                tokens <- lift (meta_split total_name) ;;
                lift (getitem tokens 2)
            | None => ret "method2"
            end ;;
          submit_pub pub input_size circuit_id precision))
  end.

End Program.

(** ** The grouping the specification describes

    The second reading of [readPauliExcitation], after the specification's
    words: the entries are walked in file order, and an entry opens a new
    group exactly when the magnitude of its coefficient differs by more than
    1e-4 from the magnitude of the first coefficient of the current group. *)

Definition far_apart (coeff first : float) : bool :=
  PrimFloat.ltb 1e-4
    (PrimFloat.abs (PrimFloat.sub (PrimFloat.abs coeff) (PrimFloat.abs first))).

Fixpoint groups_from (first : float) (cur : list Term) (rest : PauliDict)
  : list (list Term) :=
  match rest with
  | [] => [cur]
  | (ext, coeff) :: rest' =>
      if far_apart coeff first
      then cur :: groups_from coeff [(ext, coeff)] rest'
      else groups_from first (cur ++ [(ext, coeff)]) rest'
  end.

Definition groups_by_magnitude (ansatz_dict : PauliDict) : list (list Term) :=
  match ansatz_dict with
  | [] => []
  | (ext, coeff) :: rest => groups_from coeff [(ext, coeff)] rest
  end.

(** The sentinel test of the loop, [cur_coeff > 1e4]. *)
Definition above_sentinel (coeff : float) : bool := PrimFloat.ltb 1e4 coeff.

(** ** The Hartree-Fock reference state the specification describes

    One X gate on each of the qubits 0 .. na-1 (alpha electrons) and one on
    each of the qubits norb/2 .. norb/2 + nb - 1 (beta electrons). *)

Definition hartree_fock_gates (norb na nb : Z) : list Applied :=
  (map (fun q => Apply XGate [q] []) (Py.range2 0 na)
   ++ map (fun q => Apply XGate [q] [])
        (Py.range2 (Py.int_div norb 2) (Py.int_div norb 2 + nb)))%list.

(** The number of X gates of a gate list that act on qubit [q]. *)
Definition x_gates_on (q : Z) (gates : list Applied) : nat :=
  length (List.filter (fun a => match a with
                                | Apply XGate qargs _ => bool_decide (q ∈ qargs)
                                | _ => false
                                end) gates).

(** ** The measurement basis the specification describes

    Per character of the Pauli string, at position [i]: H on qubit
    [nqubit - i - 1] for an X, Sdg then H on that qubit for a Y, nothing for
    any other character. *)

Definition rotation_for (nqubit : Z) (position : Z * ascii) : list Applied :=
  let '(i, p) := position in
  if Ascii.eqb p "X" then [Apply HGate [nqubit - i - 1] []]
  else if Ascii.eqb p "Y" then
    [Apply SdgGate [nqubit - i - 1] []; Apply HGate [nqubit - i - 1] []]
  else [].

Definition basis_rotation (nqubit : Z) (PauliString : string) : list Applied :=
  flat_map (rotation_for nqubit) (Py.enumerate (list_ascii_of_string PauliString)).

(** A character that needs no rotation. *)
Definition is_diagonal (p : ascii) : bool :=
  negb (Ascii.eqb p "X") && negb (Ascii.eqb p "Y").

(** The gates [measure_all] adds to a circuit of [n] qubits that already has
    [m] classical bits. *)
Definition measurements (n m : Z) : list Applied :=
  Apply Barrier (Py.range n) [] :: map (fun q => Apply Measure [q] [m + q]) (Py.range n).

(** ** The two scoring paths the specification describes *)

Definition and_then {A B} (r : Result A) (k : A -> Result B) : Result B :=
  match r with
  | Ok a => k a
  | Raise e => Raise e
  end.

(** Method 1: the circuit id is the third word of [metadata["method1"]]; the
    score is the fidelity of the whole expectation value against the
    reference entry of that qubit count and circuit id. *)
Definition score_method1
    (accuracy_ratio_fidelity : ExpVal -> float -> float -> float -> gmap string float)
    (total_name : MetaValue) (expval : ExpVal) (num_qubits : Z)
    (references : gmap string Reference) : Result (gmap string float) :=
  and_then (meta_split total_name) (fun tokens =>
  and_then (getitem tokens 2) (fun token =>
  and_then (py_int token) (fun circuit_id =>
  and_then (dict_get references
              ("Qubits - " ++ Py.str num_qubits ++ " - " ++ Py.str circuit_id))
    (fun reference =>
       Ok (accuracy_ratio_fidelity expval
             (ref_exact reference) (ref_min reference) (ref_max reference)))))).

(** Method 2: the fidelities of the terms, each against the reference entry
    of its Pauli label, are added up from 0 in term order and the total is
    divided by the number of terms of the stored operator. *)
Definition score_method2
    (accuracy_ratio_fidelity : ExpVal -> float -> float -> float -> gmap string float)
    (qubit_op : MetaValue) (expval : ExpVal)
    (references : gmap string Reference) : Result (gmap string float) :=
  and_then (meta_to_list qubit_op) (fun terms =>
  and_then (iterate expval) (fun vals =>
  and_then (fold_result (add_term_fidelity accuracy_ratio_fidelity references)
              (combine vals terms) 0%float) (fun total =>
  and_then (meta_size qubit_op) (fun n =>
    if n =? 0 then Raise ZeroDivisionError
    else Ok {[ "fidelity" := PrimFloat.div total (Py.float_of_int n) ]})))).

(** The method a circuit's metadata selects: "method1" wins over "method2". *)
Definition metadata_method (c : QuantumCircuit) : option Z :=
  match qc_metadata c !! "method1" with
  | Some _ => Some 1
  | None =>
      match qc_metadata c !! "method2" with
      | Some _ => Some 2
      | None => None
      end
  end.

(** The reference file of a qubit count and a method. *)
Definition reference_path (num_qubits method : Z) : string :=
  "../_common/precalculated_data_" ++ Py.str num_qubits
    ++ "_qubit_method" ++ Py.str method ++ ".json".

(** The circuit id a fidelity is stored under: the third word of
    [metadata["method1"]] for method 1, "method2" for method 2. *)
Definition metric_key (c : QuantumCircuit) : option string :=
  match qc_metadata c !! "method1" with
  | Some (MetaStr total_name) => Py.split total_name !! 2%nat
  | Some (MetaOp _) => None
  | None =>
      match qc_metadata c !! "method2" with
      | Some _ => Some "method2"
      | None => None
      end
  end.

(** ** The ansatz circuit the specification describes *)

(** The circuit of one cluster operator: a single [PauliEvolutionGate] of the
    grouped operator, time 1, first-order Lie-Trotter synthesis, on all the
    qubits of the operator. *)
Definition cluster_circuit (pauli_op : SparsePauliOp) (excitationIndex : list Z)
  : QuantumCircuit :=
  {| qc_name := "Cluster Op " ++ Py.str_tuple excitationIndex;
     qc_num_qubits := op_num_qubits pauli_op;
     qc_num_clbits := 0;
     qc_data := [Apply (PauliEvolutionGate pauli_op 1.0 (LieTrotter 1))
                   (Py.range (op_num_qubits pauli_op)) []];
     qc_metadata := ∅ |}.

(** A cluster-operator circuit as an instruction of the ansatz. *)
Definition cluster_instruction (pauli_op : SparsePauliOp) (excitationIndex : list Z)
  : Applied :=
  Apply (to_instruction (cluster_circuit pauli_op excitationIndex))
        (Py.range (op_num_qubits pauli_op)) [].

(** The Hartree-Fock circuit as an instruction of the ansatz. *)
Definition hartree_fock_instruction (n_spin_orbs na nb : Z) : Applied :=
  Apply (SubCircuit "Hf" n_spin_orbs (hartree_fock_gates n_spin_orbs na nb))
        (Py.range n_spin_orbs) [].

(** The ansatz: the Hartree-Fock initialization, then one cluster-operator
    circuit per grouped operator, in order. *)
Definition ansatz_gates (n_spin_orbs na nb : Z) (pauli_list : list SparsePauliOp)
  : list Applied :=
  hartree_fock_instruction n_spin_orbs na nb
    :: zip_with cluster_instruction pauli_list (excitations n_spin_orbs na nb).

(** The paths of the Hamiltonian and ansatz files. *)
Definition hamiltonian_path (nqubit : Z) : string :=
  "./Hamiltonians/" ++ Py.str nqubit ++ "_qubit.txt".

Definition ansatz_path (norb circuit_id : Z) : string :=
  "./ansatzes/" ++ Py.str norb ++ "_qubit_" ++ Py.str circuit_id ++ ".txt".

(** ** A small instance: files and results for four qubits *)

Module Sample.

Definition ansatz : PauliDict :=
  [("XXXY", 0.5%float); ("XXYX", (-0.5)%float); ("YXXX", 0.25%float)].

Definition hamiltonian : PauliDict :=
  [("IIII", (-0.5)%float); ("ZIII", 0.25%float); ("IZII", 0.125%float)].

Definition ansatzes : gmap string PauliDict :=
  {[ "./ansatzes/4_qubit_0.txt" := ansatz ]}.

Definition Hamiltonians : gmap string PauliDict :=
  {[ "./Hamiltonians/4_qubit.txt" := hamiltonian ]}.

(** A stand-in for [str] on the two coefficients that get printed. *)
Definition str_float (x : float) : string :=
  if PrimFloat.eqb x 0.25 then "0.25" else "0.125".

(** A stand-in for the grouping of commuting terms: one group. *)
Definition group_commuting (op : SparsePauliOp) : list SparsePauliOp := [op].

(** A stand-in for the fidelity computation: the ratio of the (first)
    value to the exact value. *)
Definition accuracy_ratio_fidelity (v : ExpVal) (exact lo hi : float)
  : gmap string float :=
  {[ "fidelity" := match v with
                   | Scalar x => PrimFloat.div x exact
                   | Array (x :: _) => PrimFloat.div x exact
                   | Array [] => 0%float
                   end ]}.

Definition references1 : gmap string Reference :=
  {[ "Qubits - 4 - 0" :=
       {| ref_exact := 0.25; ref_min := (-1)%float; ref_max := 1%float |} ]}.

Definition references2 : gmap string Reference :=
  {[ "ZIII" := {| ref_exact := 0.25; ref_min := (-1)%float; ref_max := 1%float |};
     "IZII" := {| ref_exact := 0.125; ref_min := (-1)%float; ref_max := 1%float |} ]}.

Definition precalculated_data : gmap string (gmap string Reference) :=
  {[ "../_common/precalculated_data_4_qubit_method1.json" := references1;
     "../_common/precalculated_data_4_qubit_method2.json" := references2 ]}.

Definition result : ExecutionResult :=
  {| get_expectation_values := fun _ => Array [0.25%float; 0.0625%float] |}.

Definition qubit_op : SparsePauliOp :=
  SparsePauliOp_of [("ZIII", 0.25%float); ("IZII", 0.125%float)].

Definition circuit1 : QuantumCircuit :=
  set_metadata {[ "method1" := MetaStr "ZIII 0.25 0" ]}
    (empty_circuit 4 "vqe-ansatz(1) 4 0").

Definition circuit2 : QuantumCircuit :=
  set_metadata {[ "method2" := MetaOp qubit_op ]}
    (empty_circuit 4 "vqe-ansatz(2) 4 0").

Definition state1 : State := with_heap [circuit1] initial_state.
Definition state2 : State := with_heap [circuit2] initial_state.

End Sample.

(** ** The command line

    The values [get_args()] hands to the main block (lines 485-548); parsing
    them is [argparse]'s work.  [--nonoise] and [--verbose] only reach the
    execution options and the printing. *)
Record Args := {
  arg_backend_id : option string;
  arg_num_qubits : Z;
  arg_min_qubits : Z;
  arg_max_qubits : Z;
  arg_skip_qubits : Z;
  arg_max_circuits : Z;
  arg_num_shots : Z;
  arg_method : Z
}.

(** The defaults of the argument parser. *)
Definition default_args : Args :=
  {| arg_backend_id := None; arg_num_qubits := 0; arg_min_qubits := 4;
     arg_max_qubits := 8; arg_skip_qubits := 1; arg_max_circuits := 3;
     arg_num_shots := 4092; arg_method := 1 |}.


(** ** Properties of a grouping *)

(** A group is homogeneous when every later entry is within 1e-4, in
    magnitude, of the group's first coefficient; a group with later entries
    has its first coefficient at or below the sentinel. *)
Definition homogeneous (group : list Term) : Prop :=
  match group with
  | [] => True
  | (_, first) :: others =>
      Forall (fun t => far_apart (snd t) first = false) others /\
      (others <> [] -> above_sentinel first = false)
  end.

(** The first coefficients of any two consecutive groups are more than 1e-4
    apart in magnitude. *)
Definition boundaries_far (groups : list (list Term)) : Prop :=
  forall (i : nat) (g1 g2 : list Term),
    groups !! i = Some g1 -> groups !! S i = Some g2 ->
    exists t1 r1 t2 r2,
      g1 = t1 :: r1 /\ g2 = t2 :: r2 /\ far_apart (snd t2) (snd t1) = true.

(** What the grouping loop keeps true of its local variables after it has
    read the entries [seen]. *)
Definition grouping_invariant (g : Grouping) (seen : PauliDict) : Prop :=
  sublist (concat (map to_list (pauli_list g)) ++ cur_list g)%list seen /\
  Forall (fun op => to_list op <> [] /\ homogeneous (to_list op)) (pauli_list g) /\
  homogeneous (cur_list g) /\
  match cur_list g with
  | [] => above_sentinel (cur_coeff g) = true /\ seen = []
  | (_, first) :: _ => first = cur_coeff g /\ last (cur_list g) = last seen
  end.

(** ** Words and decimal numerals *)

(** A string without whitespace characters. *)
Fixpoint no_space (s : string) : bool :=
  match s with
  | EmptyString => true
  | String c rest => negb (Py.is_space c) && no_space rest
  end.

(** The value of a decimal numeral read from the left, starting from
    [acc]. *)
Fixpoint uint_value (acc : Z) (d : Decimal.uint) : Z :=
  match d with
  | Decimal.Nil => acc
  | Decimal.D0 d => uint_value (10 * acc + 0) d
  | Decimal.D1 d => uint_value (10 * acc + 1) d
  | Decimal.D2 d => uint_value (10 * acc + 2) d
  | Decimal.D3 d => uint_value (10 * acc + 3) d
  | Decimal.D4 d => uint_value (10 * acc + 4) d
  | Decimal.D5 d => uint_value (10 * acc + 5) d
  | Decimal.D6 d => uint_value (10 * acc + 6) d
  | Decimal.D7 d => uint_value (10 * acc + 7) d
  | Decimal.D8 d => uint_value (10 * acc + 8) d
  | Decimal.D9 d => uint_value (10 * acc + 9) d
  end.

(** The metadata string of a method-1 circuit after [run] has added the
    circuit id (lines 92 and 425). *)
Definition method1_metadata (label coeff_str : string) (circuit_id : Z) : string :=
  (label ++ " " ++ coeff_str) ++ " " ++ Py.str circuit_id.

(** ** Invariants of the interpreter state *)

(** The circuits saved for display, [QC_], [Hf_] and [CO_], are allocated
    and have fewer than 7 qubits. *)
Definition small_saved (s : State) : Prop :=
  forall r, QC_ s = Some r \/ Hf_ s = Some r \/ CO_ s = Some r ->
            exists c, heap s !! r = Some c /\ qc_num_qubits c < 7.

(** The circuits [old] are still there, unchanged, the metrics stored are
    [metrics], and the submitted pubs satisfy [R]. *)
Definition framed (old : list QuantumCircuit) (metrics : list MetricCall)
    (R : list Submission -> Prop) (s : State) : Prop :=
  old `prefix_of` heap s /\ stored_metrics s = metrics /\ R (submitted s).

(** An invariant is closed when the effects the circuit builders use keep
    it: allocation, mutation of an object at or beyond [n0] that keeps the
    number of qubits, saving a circuit of fewer than 7 qubits in a global,
    and setting [normalization]. *)
Record Closed (I : State -> Prop) (n0 : nat) : Prop := {
  closed_length : forall s, I s -> (n0 <= length (heap s))%nat;
  closed_new : forall s c, I s -> I (with_heap (heap s ++ [c])%list s);
  closed_mutate : forall s r c c',
      I s -> (n0 <= r)%nat -> heap s !! r = Some c ->
      qc_num_qubits c' = qc_num_qubits c ->
      I (with_heap (<[r := c']> (heap s)) s);
  closed_QC_ : forall s r c,
      I s -> heap s !! r = Some c -> qc_num_qubits c < 7 -> I (with_QC_ (Some r) s);
  closed_Hf_ : forall s r c,
      I s -> heap s !! r = Some c -> qc_num_qubits c < 7 -> I (with_Hf_ (Some r) s);
  closed_CO_ : forall s r c,
      I s -> heap s !! r = Some c -> qc_num_qubits c < 7 -> I (with_CO_ (Some r) s);
  closed_normalization : forall s x, I s -> I (with_normalization x s)
}.

(** The outcome of [m] from [s] satisfies the invariant, and the value
    returned satisfies [post]. *)
Definition ok {A} (I : State -> Prop) (post : A -> Prop) (m : M A) (s : State) : Prop :=
  match m s with
  | (Ok a, s') => I s' /\ post a
  | (Raise _, s') => I s'
  end.

(** [m] keeps the invariant, whether it returns or raises. *)
Definition keeps {A} (I : State -> Prop) (m : M A) (post : A -> Prop) : Prop :=
  forall s, I s -> ok I post m s.

(** The exception [VQEEnergy] ends in, if any, by order of precedence: the
    Hamiltonian file is read first, then the ansatz file is read and
    grouped; then the loop over the grouped operators indexes the
    excitation list; last, on a Hamiltonian of a single term, method 1
    indexes the operator at 1 and any other method asks for the commuting
    groups of an operator without terms. *)
Definition VQEEnergy_error (ansatzes Hamiltonians : gmap string PauliDict)
    (n_spin_orbs na nb circuit_id method : Z) : option Exception :=
  match Hamiltonians !! hamiltonian_path n_spin_orbs with
  | None => Some (FileNotFoundError (hamiltonian_path n_spin_orbs))
  | Some [] => Some QiskitError
  | Some (_ :: terms) =>
      match ansatzes !! ansatz_path n_spin_orbs circuit_id with
      | None => Some (FileNotFoundError (ansatz_path n_spin_orbs circuit_id))
      | Some ansatz_dict =>
          match group_excitations ansatz_dict with
          | Raise e => Some e
          | Ok groups =>
              if (length (excitations n_spin_orbs na nb) <? length groups)%nat
              then Some IndexError
              else match terms with
                   | _ :: _ => None
                   | [] => if method =? 1 then Some IndexError else Some AxisError
                   end
          end
      end
  end.

(** ** Well-formed inputs *)

(** A Pauli label on [n] qubits: [n] characters among I, X, Y and Z. *)
Definition pauli_label (n : Z) (label : string) : bool :=
  (Z.of_nat (String.length label) =? n)
  && forallb (fun a => existsb (Ascii.eqb a) ["I"; "X"; "Y"; "Z"]%char)
       (list_ascii_of_string label).

(** A dictionary read from a file is well formed for [n] qubits when its
    keys are Pauli labels on [n] qubits: what Qiskit requires of them when
    the operators and the circuits are built. *)
Definition well_formed (n : Z) (d : PauliDict) : Prop :=
  Forall (fun t => pauli_label n (fst t) = true) d.

(** ** What [run] submits *)

(** What the execution sees of a submitted pub besides the circuit: the
    group, the circuit id and the precision. *)
Definition submission_summary (p : Submission) : Z * string * float :=
  (sub_group p, sub_circuit_id p, sub_precision p).

(** The precision [run] asks for. *)
Definition run_precision (backend_id : option string) (num_shots : Z) : float :=
  if bool_decide (backend_id = Some "statevector_estimator") then 0%float
  else PrimFloat.div 1 (PrimFloat.sqrt (Py.float_of_int num_shots)).

(** The circuit ids [run] builds an ansatz for, at every size. *)
Definition built_circuit_ids (method max_circuits : Z) : list Z :=
  if method =? 1 then Py.range (Z.min 3 max_circuits)
  else if method =? 2 then [0]
  else [].

(** The circuit ids [run] submits them under. *)
Definition submitted_ids (method max_circuits : Z) : list string :=
  if method =? 1 then map Py.str (Py.range (Z.min 3 max_circuits))
  else if method =? 2 then ["method2"]
  else [].

(** The files of size [n] and circuit id [circuit_id] are fit for [run]: the
    Hamiltonian has at least two terms, the ansatz file is grouped into no
    more operators than there are excitations, for method 1 the label of
    the second term and its printed coefficient are non-empty words, and
    both files are well formed. *)
Definition valid_input (ansatzes Hamiltonians : gmap string PauliDict)
    (str_float : float -> string) (method n circuit_id : Z) : Prop :=
  exists (t0 t1 : Term) (rest : list Term) (ansatz_dict : PauliDict)
         (groups : list SparsePauliOp),
    Hamiltonians !! hamiltonian_path n = Some (t0 :: t1 :: rest) /\
    ansatzes !! ansatz_path n circuit_id = Some ansatz_dict /\
    group_excitations ansatz_dict = Ok groups /\
    (length groups
     <= length (excitations n (Py.int_div n 4) (Py.int_div n 4)))%nat /\
    (method = 1 ->
     no_space (fst t1) = true /\ fst t1 <> "" /\
     no_space (str_float (snd t1)) = true /\ str_float (snd t1) <> "") /\
    well_formed n (t0 :: t1 :: rest) /\
    well_formed n ansatz_dict.

(** The pub [pub] is a circuit of the heap whose [method1] metadata is the
    one [run] writes for [circuit_id]. *)
Definition tagged (label coeff_str : string) (s : State)
    (pub : ref * Observables) (circuit_id : Z) : Prop :=
  exists c, heap s !! fst pub = Some c /\
            qc_metadata c !! "method1"
            = Some (MetaStr (method1_metadata label coeff_str circuit_id)).

(** The pub [run] submits for [pub] under [circuit_id]. *)
Definition submission_of (group : Z) (precision : float)
    (pub : ref * Observables) (circuit_id : string) : Submission :=
  {| sub_circuit := fst pub; sub_observables := snd pub; sub_group := group;
     sub_circuit_id := circuit_id; sub_precision := precision |}.


(** ** Sanity checks of the built-ins and of the pure helpers *)

Example range_3 : Py.range 3 = [0; 1; 2].
Proof. reflexivity. Qed.

Example range_empty : Py.range (-2) = [].
Proof. reflexivity. Qed.

Example range3_4_9 : Py.range3 4 9 2 = [4; 6; 8].
Proof. reflexivity. Qed.

Example range3_6_6 : Py.range3 6 6 2 = [].
Proof. reflexivity. Qed.

Example str_12 : Py.str 12 = "12".
Proof. reflexivity. Qed.

Example split_meta : Py.split "ZZII 0.25  3" = ["ZZII"; "0.25"; "3"].
Proof. reflexivity. Qed.

Example int_7 : Py.int "007" = Some 7 /\ Py.int "-1_0" = Some (-10) /\ Py.int "1__0" = None.
Proof. repeat split; reflexivity. Qed.

Example str_tuple_4 : Py.str_tuple [0; 1; 2; 3] = "(0, 1, 2, 3)".
Proof. reflexivity. Qed.

Example excitations_4 :
  excitations 4 1 1 = [[0; 1]; [2; 3]; [0; 1; 2; 3]].
Proof. reflexivity. Qed.

Local Open Scope list_scope.

(** ** Parameter validation and the benchmark loop of [run] *)

Lemma range3_step2_elem (a b x : Z) :
  a mod 2 = 0 ->
  x ∈ Py.range3 a (b + 1) 2 <-> a <= x <= b /\ x mod 2 = 0.
Proof.
  intros Ha. unfold Py.range3. rewrite list_elem_of_fmap.
  replace (b + 1 - a + 2 - 1) with (b - a + 2) by lia.
  split.
  - intros (k & -> & Hk). apply elem_of_seq in Hk.
    assert (Hq : Z.of_nat k < (b - a + 2) / 2) by lia.
    assert (Hd := Z.mul_div_le (b - a + 2) 2 ltac:(lia)).
    split; [lia|]. rewrite Z.add_mod, Ha, Z.mod_mul by lia. reflexivity.
  - intros [Hx Hx2]. exists (Z.to_nat ((x - a) / 2)). split.
    + rewrite Z2Nat.id by (apply Z.div_pos; lia).
      assert (Hxa : (x - a) mod 2 = 0).
      { rewrite Zminus_mod, Hx2, Ha. reflexivity. }
      pose proof (Z.div_mod (x - a) 2 ltac:(lia)). lia.
    + apply elem_of_seq. split; [lia|]. simpl.
      assert (0 <= (x - a) / 2) by (apply Z.div_pos; lia).
      assert ((x - a) / 2 < (b - a + 2) / 2); [|lia].
      assert (Hxa : (x - a) mod 2 = 0).
      { rewrite Zminus_mod, Hx2, Ha. reflexivity. }
      pose proof (Z.div_mod (x - a) 2 ltac:(lia)).
      apply Z.div_lt_upper_bound; [lia|].
      pose proof (Z.mul_succ_div_gt (b - a + 2) 2 ltac:(lia)). lia.
Qed.

(** Whenever [run] is not aborted early, the validated parameters satisfy
    4 <= min_qubits <= max_qubits + 1, max_qubits <= 12 and min_qubits is
    even; the minimum exceeds the maximum exactly when the maximum is odd
    and the requested minimum reaches it, and then by one.  The benchmark
    loop goes through [range(min_qubits, max_qubits + 1, 2)], that is
    exactly the even qubit counts between the two bounds, whatever
    [skip_qubits] is. *)
Lemma run_validation_invariant (min_qubits max_qubits skip_qubits : Z) :
  forall lo hi skip,
    validate min_qubits max_qubits skip_qubits = (lo, hi, skip) ->
    4 <= hi ->
    (4 <= lo <= hi + 1 /\ hi <= 12 /\ lo mod 2 = 0) /\
    (hi < lo <-> hi mod 2 = 1 /\ hi <= Z.max 4 min_qubits) /\
    input_sizes min_qubits max_qubits skip_qubits = Some (Py.range3 lo (hi + 1) 2) /\
    (forall x, x ∈ Py.range3 lo (hi + 1) 2 <-> lo <= x <= hi /\ x mod 2 = 0) /\
    (forall skip', input_sizes min_qubits max_qubits skip' =
                   input_sizes min_qubits max_qubits skip_qubits).
Proof.
  intros lo hi skip Hv Hhi.
  assert (Hsizes : forall sk, input_sizes min_qubits max_qubits sk
                              = Some (Py.range3 lo (hi + 1) 2)).
  { intros sk. unfold input_sizes. unfold validate in *.
    injection Hv as <- <- _.
    destruct (Z.ltb_spec (Z.min (Z.max max_qubits min_qubits) MAX_QUBITS) 4); [lia|].
    reflexivity. }
  unfold validate in Hv. injection Hv as Hlo Hhi' _.
  assert (Hbounds : (4 <= lo <= hi + 1 /\ hi <= 12 /\ lo mod 2 = 0) /\
                    (hi < lo <-> hi mod 2 = 1 /\ hi <= Z.max 4 min_qubits)).
  { subst lo hi. unfold MAX_QUBITS in *.
    set (hi := Z.min (Z.max max_qubits min_qubits) 12) in *.
    set (m := Z.min (Z.max 4 min_qubits) hi) in *.
    assert (Hm : 4 <= m <= hi) by lia.
    pose proof (Z.mod_pos_bound m 2 ltac:(lia)) as Hmod.
    pose proof (Z.mod_pos_bound hi 2 ltac:(lia)) as Hmod'.
    destruct (Z.eqb_spec (m mod 2) 1) as [H1|H1].
    - split.
      + repeat split; try lia. rewrite Z.add_mod, H1 by lia. reflexivity.
      + split.
        * intros Hgt. assert (m = hi) as Heq by lia. rewrite Heq in H1. lia.
        * intros [Hodd Hreach]. lia.
    - split; [repeat split; lia|]. split; [lia|].
      intros [Hodd Hreach]. assert (m = hi) as Heq by lia. rewrite Heq in H1. lia. }
  split; [apply Hbounds|]. split; [apply Hbounds|]. split; [apply Hsizes|]. split.
  - intros x. apply range3_step2_elem. apply Hbounds.
  - intros sk. rewrite !Hsizes. reflexivity.
Qed.

(** C8 (code defect): line 319 says "max must be >= min" and line 325
    "min_qubits must be even", but the parity bump of lines 324-325 comes
    after the clamp of line 323.  For [min_qubits = max_qubits = 5] the run
    is not aborted, the clamp gives 5 and the bump 6: [run] goes on with a
    minimum of 6 above a maximum of 5, [range(6, 6, 2)] is empty, and the
    benchmark builds and submits nothing, whatever [skip_qubits], the
    method and the backend are (shown with the default [num_shots]). *)
Theorem run_validation_min_exceeds_max :
  Z.min (Z.max 4 5) (Z.min (Z.max 5 5) MAX_QUBITS) = 5 /\
  validate 5 5 1 = (6, 5, 1) /\
  ~ (4 <= 6 <= 5) /\
  (forall skip_qubits, input_sizes 5 5 skip_qubits = Some []) /\
  Py.range3 6 (5 + 1) 2 = [] /\
  (forall ansatzes Hamiltonians str_float group_commuting
          skip_qubits max_circuits method backend_id s,
      run ansatzes Hamiltonians str_float group_commuting
        5 5 skip_qubits max_circuits 4092 method backend_id s
      = (Ok tt, s)).
Proof.
  split; [reflexivity|]. split; [reflexivity|]. split; [lia|].
  split; [intros; reflexivity|]. split; [reflexivity|]. intros. reflexivity.
Qed.

(** ** Grouping of the excitations by coefficient magnitude *)

Lemma concat_groups_from (first : float) (cur : list Term) (rest : PauliDict) :
  concat (groups_from first cur rest) = (cur ++ rest)%list.
Proof.
  revert first cur. induction rest as [|[ext coeff] rest IH]; intros first cur; simpl.
  - reflexivity.
  - destruct (far_apart coeff first); simpl.
    + rewrite IH. reflexivity.
    + rewrite IH, <- app_assoc. reflexivity.
Qed.

Lemma groups_from_nonempty (first : float) (cur : list Term) (rest : PauliDict) :
  cur <> [] -> Forall (fun g => g <> []) (groups_from first cur rest).
Proof.
  revert first cur. induction rest as [|[ext coeff] rest IH]; intros first cur Hcur; simpl.
  - constructor; [exact Hcur | constructor].
  - destruct (far_apart coeff first).
    + constructor; [exact Hcur|]. apply IH. discriminate.
    + apply IH. destruct cur; discriminate.
Qed.

(** The loop, started inside a group whose first coefficient is below the
    sentinel, computes the specification's groups as long as no later
    coefficient is above the sentinel either. *)
Lemma group_loop (rest : PauliDict) :
  forall (done : list SparsePauliOp) (first : float) (cur : list Term),
    above_sentinel first = false ->
    cur <> [] ->
    Forall (fun t => above_sentinel (snd t) = false) rest ->
    exists g,
      fold_result group_step rest
        {| pauli_list := done; cur_coeff := first; cur_list := cur |} = Ok g /\
      cur_list g <> [] /\
      (pauli_list g ++ [SparsePauliOp_of (cur_list g)])%list
      = (done ++ map SparsePauliOp_of (groups_from first cur rest))%list.
Proof.
  induction rest as [|[ext coeff] rest IH]; intros done first cur Hfirst Hcur Hall.
  - eexists. split; [reflexivity|]. split; [exact Hcur | reflexivity].
  - apply Forall_cons in Hall as [Hc Hall]. simpl in Hc.
    cbn [fold_result group_step cur_coeff cur_list pauli_list].
    unfold above_sentinel in Hfirst. rewrite Hfirst.
    change (PrimFloat.ltb _ (PrimFloat.abs (PrimFloat.sub (PrimFloat.abs coeff)
                                              (PrimFloat.abs first))))
      with (far_apart coeff first).
    cbn [groups_from]. destruct (far_apart coeff first).
    + destruct cur as [|t cur]; [congruence|]. cbn [from_list].
      destruct (IH (done ++ [SparsePauliOp_of (t :: cur)])%list coeff [(ext, coeff)])
        as (g & Hg & Hne & Heq); [exact Hc | discriminate | exact Hall |].
      exists g. split; [exact Hg|]. split; [exact Hne|].
      rewrite Heq, <- app_assoc. reflexivity.
    + destruct (IH done first (cur ++ [(ext, coeff)])%list)
        as (g & Hg & Hne & Heq); [exact Hfirst | | exact Hall |].
      { destruct cur; discriminate. }
      exists g. split; [exact Hg|]. split; [exact Hne | exact Heq].
Qed.

(** On a non-empty dictionary none of whose coefficients is above the
    sentinel 1e4, the code produces exactly the specification's groups, and
    they concatenate to the dictionary. *)
Lemma group_excitations_below_sentinel (ansatz_dict : PauliDict) :
  ansatz_dict <> [] ->
  Forall (fun t => above_sentinel (snd t) = false) ansatz_dict ->
  group_excitations ansatz_dict
    = Ok (map SparsePauliOp_of (groups_by_magnitude ansatz_dict)) /\
  concat (groups_by_magnitude ansatz_dict) = ansatz_dict /\
  Forall (fun g => g <> []) (groups_by_magnitude ansatz_dict).
Proof.
  intros Hne Hall. destruct ansatz_dict as [|[ext coeff] rest]; [congruence|].
  apply Forall_cons in Hall as [Hc Hall]. simpl in Hc.
  split; [|split].
  - unfold group_excitations. cbn [fold_result group_step cur_coeff cur_list pauli_list].
    change (PrimFloat.ltb 1e4 1e5) with true. cbv iota.
    destruct (group_loop rest [] coeff [(ext, coeff)]) as (g & Hg & Hcur & Heq);
      [exact Hc | discriminate | exact Hall |].
    rewrite Hg. destruct (cur_list g) as [|t l] eqn:El; [congruence|].
    cbn [from_list]. rewrite Heq. reflexivity.
  - simpl. apply concat_groups_from.
  - simpl. apply groups_from_nonempty. discriminate.
Qed.

(** C1 (code defect): the loop tells "no group yet" from "inside a group" by
    the sentinel test [cur_coeff > 1e4].  A group whose first coefficient is
    above 1e4 is dropped when the next entry arrives, where the sibling branch
    appends the finished group first.  For the dictionary
    [{"XXXX": 20000.0, "YYYY": 0.5}] the entry XXXX is in no group, while the
    specification's grouping has two groups. *)
Theorem readPauliExcitation_sentinel_drops_group :
  let ansatz_dict := [("XXXX", 20000.0%float); ("YYYY", 0.5%float)] in
  let ansatzes : gmap string PauliDict := {[ "./ansatzes/4_qubit_0.txt" := ansatz_dict ]} in
  let groups := [SparsePauliOp_of [("YYYY", 0.5%float)]] in
  readPauliExcitation ansatzes 4 0 initial_state = (Ok groups, initial_state) /\
  concat (map to_list groups) <> ansatz_dict /\
  groups_by_magnitude ansatz_dict
    = [[("XXXX", 20000.0%float)]; [("YYYY", 0.5%float)]].
Proof.
  cbv zeta. split; [vm_compute; reflexivity|]. split; [|vm_compute; reflexivity].
  cbn. intros Heq. discriminate Heq.
Qed.

(** ** Reasoning about the heap *)

Lemma set_data_same (c : QuantumCircuit) : set_data (qc_data c) c = c.
Proof. destruct c; reflexivity. Qed.

Lemma with_heap_same (s : State) : with_heap (heap s) s = s.
Proof. destruct s; reflexivity. Qed.

Lemma lookup_new (h : list QuantumCircuit) (c : QuantumCircuit) :
  (h ++ [c]) !! length h = Some c.
Proof. rewrite lookup_app_r by lia. rewrite Nat.sub_diag. reflexivity. Qed.

Lemma insert_new (h : list QuantumCircuit) (c c' : QuantumCircuit) :
  <[length h := c']> (h ++ [c]) = (h ++ [c'])%list.
Proof.
  rewrite (insert_app_r_alt h [c] (length h) c') by lia.
  rewrite Nat.sub_diag. reflexivity.
Qed.

Lemma insert_at_end (h : list QuantumCircuit) (c c' : QuantumCircuit)
    (tail : list QuantumCircuit) :
  <[length h := c']> (h ++ c :: tail) = h ++ c' :: tail.
Proof.
  rewrite (insert_app_r_alt h (c :: tail) (length h) c') by lia.
  rewrite Nat.sub_diag. reflexivity.
Qed.

(** A loop of gate calls on one circuit appends the gates in order and
    touches nothing else. *)
Lemma for_each_push {A} (l : list A) (r : ref) (gate : A -> Applied) :
  forall (s : State) (c : QuantumCircuit),
    heap s !! r = Some c ->
    for_each l (fun x => mutate r (push (gate x))) s
    = (Ok tt, with_heap (<[r := set_data (qc_data c ++ map gate l) c]> (heap s)) s).
Proof.
  induction l as [|x l IH]; intros s c Hr.
  - cbn [for_each map]. rewrite app_nil_r, set_data_same.
    rewrite list_insert_id by exact Hr. rewrite with_heap_same. reflexivity.
  - cbn [for_each]. unfold bind at 1. unfold mutate at 1. rewrite Hr.
    rewrite (IH _ (push (gate x) c)).
    + cbn [heap with_heap]. rewrite list_insert_insert_eq.
      unfold push, set_data. cbn [qc_data qc_name qc_num_qubits qc_num_clbits qc_metadata map].
      rewrite <- app_assoc. reflexivity.
    + cbn [heap with_heap]. apply list_lookup_insert_eq.
      apply lookup_lt_Some in Hr. exact Hr.
Qed.

(** What [HartreeFock] does to the state: one new object, filled with the X
    gates of the alpha and then of the beta electrons, and possibly saved in
    [Hf_]. *)
Lemma HartreeFock_run (norb na nb : Z) (s : State) :
  HartreeFock norb na nb s
  = (Ok (length (heap s)),
        with_Hf_ (if (bool_decide (Hf_ s = None) || (norb <=? 4)) && (norb <? 7)
                  then Some (length (heap s)) else Hf_ s)
          (with_heap (heap s ++ [set_data (hartree_fock_gates norb na nb)
                                   (empty_circuit norb "Hf")]) s)).
Proof.
  unfold HartreeFock. unfold bind at 1. unfold new at 1.
  set (r := length (heap s)).
  unfold bind at 1.
  rewrite (for_each_push _ r _ _ (empty_circuit norb "Hf"))
    by (cbn [heap with_heap]; apply lookup_new).
  unfold bind at 1.
  erewrite (for_each_push _ r (fun ib => Apply XGate [ib + Py.int_div norb 2] []))
    by (cbn [heap with_heap]; subst r; rewrite insert_new; apply lookup_new).
  cbn [heap with_heap]. subst r. rewrite !insert_new.
  unfold bind, get. cbn [Hf_ with_heap].
  assert (Hgates :
    set_data
      (qc_data (set_data (qc_data (empty_circuit norb "Hf")
                            ++ map (fun ia => Apply XGate [ia] []) (Py.range na))
                  (empty_circuit norb "Hf"))
       ++ map (fun ib => Apply XGate [ib + Py.int_div norb 2] []) (Py.range nb))
      (set_data (qc_data (empty_circuit norb "Hf")
                   ++ map (fun ia => Apply XGate [ia] []) (Py.range na))
         (empty_circuit norb "Hf"))
    = set_data (hartree_fock_gates norb na nb) (empty_circuit norb "Hf")).
  { unfold set_data, empty_circuit, hartree_fock_gates, Py.range. cbn.
    f_equal. f_equal. unfold Py.range2. rewrite !map_map.
    replace (Py.int_div norb 2 + nb - Py.int_div norb 2) with (nb - 0) by lia.
    apply map_ext. intros k. f_equal. f_equal. lia. }
  rewrite Hgates.
  destruct (bool_decide (Hf_ s = None) || (norb <=? 4)); cbn [andb].
  - destruct (norb <? 7); unfold update, ret; cbn.
    + reflexivity.
    + destruct s; reflexivity.
  - unfold ret. destruct s; reflexivity.
Qed.

(** ** The Hartree-Fock circuit *)

Lemma range2_nil (a b : Z) : b <= a -> Py.range2 a b = [].
Proof.
  intros H. unfold Py.range2. replace (Z.to_nat (b - a)) with 0%nat by lia. reflexivity.
Qed.

Lemma range2_cons (a b : Z) : a < b -> Py.range2 a b = a :: Py.range2 (a + 1) b.
Proof.
  intros H. unfold Py.range2.
  replace (Z.to_nat (b - a)) with (S (Z.to_nat (b - (a + 1)))) by lia.
  cbn [seq map]. f_equal; [lia|].
  rewrite <- seq_shift, map_map. apply map_ext. intros k. lia.
Qed.

Lemma elem_of_range2 (a b q : Z) : q ∈ Py.range2 a b <-> a <= q < b.
Proof.
  unfold Py.range2. rewrite list_elem_of_fmap. split.
  - intros (k & -> & Hk). apply elem_of_seq in Hk. lia.
  - intros Hq. exists (Z.to_nat (q - a)). split; [lia|]. apply elem_of_seq. lia.
Qed.

Lemma x_gates_on_app (q : Z) (l1 l2 : list Applied) :
  x_gates_on q (l1 ++ l2) = (x_gates_on q l1 + x_gates_on q l2)%nat.
Proof. unfold x_gates_on. rewrite List.filter_app, length_app. reflexivity. Qed.

Lemma x_gates_on_range2 (q a b : Z) :
  x_gates_on q (map (fun q' => Apply XGate [q'] []) (Py.range2 a b))
  = if (a <=? q) && (q <? b) then 1%nat else 0%nat.
Proof.
  remember (Z.to_nat (b - a)) as n eqn:Hn. revert a Hn.
  induction n as [|n IH]; intros a Hn.
  - rewrite range2_nil by lia.
    destruct (Z.leb_spec a q), (Z.ltb_spec q b); try reflexivity. lia.
  - rewrite range2_cons by lia. cbn [map].
    change (x_gates_on q (?x :: ?l)) with (x_gates_on q ([x] ++ l)).
    rewrite x_gates_on_app, (IH (a + 1)) by lia.
    unfold x_gates_on. cbn [List.filter].
    destruct (bool_decide_reflect (q ∈ [a])) as [Hin|Hin].
    + apply list_elem_of_singleton in Hin. subst a. cbn [length].
      destruct (Z.leb_spec (q + 1) q); [lia|].
      destruct (Z.leb_spec q q), (Z.ltb_spec q b); try lia. reflexivity.
    + rewrite list_elem_of_singleton in Hin. cbn [length].
      destruct (Z.leb_spec (a + 1) q), (Z.leb_spec a q), (Z.ltb_spec q b);
        try reflexivity; lia.
Qed.

(** C6: for [na <= norb/2] and [nb <= norb/2], [HartreeFock(norb, na, nb)]
    returns a new circuit on [norb] qubits whose gates are X gates only, each
    on one qubit of the circuit, with exactly one X gate on each of the
    qubits 0 .. na-1 and norb/2 .. norb/2+nb-1 and none on any other qubit. *)
Theorem HartreeFock_reference_state (norb na nb : Z) (s : State) :
  na <= Py.int_div norb 2 ->
  nb <= Py.int_div norb 2 ->
  exists s' c,
    HartreeFock norb na nb s = (Ok (length (heap s)), s') /\
    heap s' !! length (heap s) = Some c /\
    qc_num_qubits c = norb /\
    qc_data c = hartree_fock_gates norb na nb /\
    Forall (fun a => exists q, a = Apply XGate [q] [] /\ 0 <= q < norb) (qc_data c) /\
    forall q,
      x_gates_on q (qc_data c)
      = if (0 <=? q) && (q <? na)
           || (Py.int_div norb 2 <=? q) && (q <? Py.int_div norb 2 + nb)
        then 1%nat else 0%nat.
Proof.
  intros Hna Hnb. rewrite HartreeFock_run.
  eexists _, _. split; [reflexivity|].
  cbn [heap with_Hf_ with_heap]. split; [apply lookup_new|].
  cbn [set_data qc_num_qubits qc_data empty_circuit].
  split; [reflexivity|]. split; [reflexivity|].
  unfold hartree_fock_gates, Py.int_div in *.
  assert (Hquot : 0 < Z.quot norb 2 -> 2 * Z.quot norb 2 <= norb).
  { intros Hpos. destruct (Z.lt_ge_cases norb 0) as [Hneg|Hnn].
    - pose proof (Z.quot_opp_l norb 2 ltac:(lia)).
      pose proof (Z.quot_pos (- norb) 2 ltac:(lia) ltac:(lia)). lia.
    - rewrite Z.quot_div_nonneg in * by lia.
      apply Z.mul_div_le. lia. }
  split.
  - apply Forall_app. split; apply Forall_forall; intros a Ha;
      apply list_elem_of_fmap in Ha as (q & -> & Hq);
      apply elem_of_range2 in Hq; exists q; (split; [reflexivity | lia]).
  - intros q. rewrite x_gates_on_app, !x_gates_on_range2.
    destruct (Z.leb_spec 0 q), (Z.ltb_spec q na),
      (Z.leb_spec (Z.quot norb 2) q), (Z.ltb_spec q (Z.quot norb 2 + nb));
      cbn; try reflexivity; lia.
Qed.

Lemma HartreeFock_reference_state_witness :
  exists s' c,
    HartreeFock 4 1 1 initial_state = (Ok (length (heap initial_state)), s') /\
    heap s' !! length (heap initial_state) = Some c /\
    qc_num_qubits c = 4 /\
    qc_data c = hartree_fock_gates 4 1 1 /\
    Forall (fun a => exists q, a = Apply XGate [q] [] /\ 0 <= q < 4) (qc_data c) /\
    forall q,
      x_gates_on q (qc_data c)
      = if (0 <=? q) && (q <? 1)
           || (Py.int_div 4 2 <=? q) && (q <? Py.int_div 4 2 + 1)
        then 1%nat else 0%nat.
Proof.
  apply (HartreeFock_reference_state 4 1 1 initial_state); vm_compute; discriminate.
Defined.

(** ** The expectation circuit *)

Lemma mutate_run (r : ref) (f : QuantumCircuit -> QuantumCircuit) (s : State)
    (c : QuantumCircuit) :
  heap s !! r = Some c ->
  mutate r f s = (Ok tt, with_heap (<[r := f c]> (heap s)) s).
Proof. intros Hr. unfold mutate. rewrite Hr. reflexivity. Qed.

Lemma lookup_mutated (r : ref) (x c : QuantumCircuit) (s : State) :
  heap s !! r = Some c ->
  heap (with_heap (<[r := x]> (heap s)) s) !! r = Some x.
Proof.
  intros Hr. cbn [heap with_heap]. apply list_lookup_insert_eq.
  apply lookup_lt_Some in Hr. exact Hr.
Qed.

Lemma mutated_twice (r : ref) (x y : QuantumCircuit) (s : State) :
  with_heap (<[r := y]> (heap (with_heap (<[r := x]> (heap s)) s)))
    (with_heap (<[r := x]> (heap s)) s)
  = with_heap (<[r := y]> (heap s)) s.
Proof. cbn [heap with_heap]. rewrite list_insert_insert_eq. reflexivity. Qed.

Lemma set_data_push (a : Applied) (l : list Applied) (c : QuantumCircuit) :
  set_data (qc_data (push a c) ++ l) (push a c) = set_data (qc_data c ++ a :: l) c.
Proof. unfold push, set_data. cbn. rewrite <- app_assoc. reflexivity. Qed.

Lemma getitem_0 {A} (x : A) (l : list A) : getitem (x :: l) 0 = Ok x.
Proof. reflexivity. Qed.

Lemma enumerate_snd {A} (l : list A) : map snd (Py.enumerate l) = l.
Proof.
  unfold Py.enumerate. generalize 0%nat.
  induction l as [|x l IH]; intros n; cbn; [reflexivity|].
  f_equal. apply IH.
Qed.

Section ExpectationCircuit.

Variable str_float : float -> string.

(** The basis-rotation loop: it appends the rotations of every position,
    in order, to the circuit [r], and clears the flag at the first X or Y. *)
Lemma rotation_loop (nqubit : Z) (r : ref) (positions : list (Z * ascii)) :
  forall (s : State) (c : QuantumCircuit) (is_diag : bool),
    heap s !! r = Some c ->
    for_fold positions is_diag
      (fun is_diag '(i, p) =>
         if Ascii.eqb p "X" then
           (mutate r (push (Apply HGate [nqubit - i - 1] [])) ;;
            ret false)%py
         else if Ascii.eqb p "Y" then
           (mutate r (push (Apply SdgGate [nqubit - i - 1] [])) ;;
            mutate r (push (Apply HGate [nqubit - i - 1] [])) ;;
            ret false)%py
         else ret is_diag) s
    = (Ok (is_diag && forallb is_diagonal (map snd positions)),
       with_heap (<[r := set_data (qc_data c ++ flat_map (rotation_for nqubit) positions) c]>
                    (heap s)) s).
Proof.
  induction positions as [|[i p] positions IH]; intros s c is_diag Hr.
  - cbn [for_fold flat_map map forallb]. rewrite app_nil_r, set_data_same.
    rewrite list_insert_id by exact Hr. rewrite with_heap_same, andb_true_r.
    reflexivity.
  - cbn [for_fold flat_map map forallb snd]. unfold bind at 1.
    unfold rotation_for at 1, is_diagonal at 1. cbv zeta.
    destruct (Ascii.eqb p "X") eqn:EX.
    + unfold bind at 1. rewrite (mutate_run _ _ _ c Hr). unfold ret at 1.
      rewrite (IH _ (push (Apply HGate [nqubit - i - 1] []) c))
        by (eapply lookup_mutated; exact Hr).
      rewrite mutated_twice, set_data_push. cbn [app andb negb].
      rewrite andb_false_r. reflexivity.
    + destruct (Ascii.eqb p "Y") eqn:EY.
      * unfold bind at 1. rewrite (mutate_run _ _ _ c Hr).
        unfold bind at 1.
        rewrite (mutate_run _ _ _ (push (Apply SdgGate [nqubit - i - 1] []) c))
          by (eapply lookup_mutated; exact Hr).
        rewrite mutated_twice. unfold ret at 1.
        rewrite (IH _ (push (Apply HGate [nqubit - i - 1] [])
                         (push (Apply SdgGate [nqubit - i - 1] []) c)))
          by (eapply lookup_mutated; exact Hr).
        rewrite mutated_twice, !set_data_push. cbn [app andb negb].
        rewrite andb_false_r. reflexivity.
      * unfold ret at 1. rewrite (IH _ c) by exact Hr.
        cbn [app andb negb]. reflexivity.
Qed.

(** What [ExpectationCircuit] does to the state when the operator has a
    first term: one new object, a copy of [qc] extended by the rotations
    and the measurements and renamed; [QC_] may be rebound to it. *)
Lemma ExpectationCircuit_run (qc : ref) (pauli : SparsePauliOp) (nqubit : Z)
    (s : State) (c : QuantumCircuit) (PauliString : string) (coeff : float)
    (others : list Term) :
  heap s !! qc = Some c ->
  to_list pauli = (PauliString, coeff) :: others ->
  ExpectationCircuit str_float qc pauli nqubit s
  = (Ok (length (heap s),
         forallb is_diagonal (list_ascii_of_string PauliString)),
     with_QC_ (if (bool_decide (QC_ s = None) || (nqubit <=? 4)) && (nqubit <? 7)
               then Some (length (heap s)) else QC_ s)
       (with_heap
          (heap s ++
             [set_name (PauliString ++ " " ++ str_float coeff)
                (measure_all
                   (set_data (qc_data c ++ basis_rotation nqubit PauliString) c))])
          s)).
Proof.
  intros Hqc Hterms. unfold ExpectationCircuit.
  unfold bind at 1. unfold deref at 1. rewrite Hqc.
  unfold bind at 1. unfold new at 1.
  unfold bind at 1. rewrite Hterms, getitem_0. unfold lift at 1.
  cbn [fst snd].
  unfold bind at 1.
  rewrite (rotation_loop nqubit (length (heap s)) _ _ c)
    by (cbn [heap with_heap]; apply lookup_new).
  rewrite enumerate_snd. cbn [andb heap with_heap]. rewrite insert_new.
  unfold bind at 1. erewrite mutate_run by (cbn [heap with_heap]; apply lookup_new).
  cbn [heap with_heap]. rewrite insert_new.
  unfold bind at 1. erewrite mutate_run by (cbn [heap with_heap]; apply lookup_new).
  cbn [heap with_heap]. rewrite insert_new.
  unfold bind, get. cbn [QC_ with_heap].
  fold (basis_rotation nqubit PauliString).
  destruct (bool_decide (QC_ s = None) || (nqubit <=? 4)); cbn [andb].
  - destruct (nqubit <? 7); unfold update, ret; cbn.
    + reflexivity.
    + destruct s; reflexivity.
  - unfold ret. destruct s; reflexivity.
Qed.

End ExpectationCircuit.

Lemma all_diagonal_iff (chars : list ascii) :
  forallb is_diagonal chars = true <->
  ("X"%char ∉ chars) /\ ("Y"%char ∉ chars).
Proof.
  induction chars as [|p chars IH]; cbn [forallb].
  - split; [|reflexivity]. intros _. split; apply not_elem_of_nil.
  - rewrite andb_true_iff, IH, !not_elem_of_cons. unfold is_diagonal.
    rewrite andb_true_iff, !negb_true_iff.
    destruct (Ascii.eqb_spec p "X"), (Ascii.eqb_spec p "Y"); split;
      intros [[? ?] [? ?]]; repeat split; congruence.
Qed.

Lemma elem_of_enumerate_from {A} (l : list A) :
  forall (k : nat) (i : Z) (x : A),
    (i, x) ∈ combine (map Z.of_nat (seq k (length l))) l ->
    Z.of_nat k <= i < Z.of_nat k + Z.of_nat (length l).
Proof.
  induction l as [|y l IH]; intros k i x Hin; cbn [length seq map combine] in Hin.
  - inversion Hin.
  - apply elem_of_cons in Hin as [Heq|Hin].
    + injection Heq as -> _. cbn [length]. lia.
    + apply IH in Hin. cbn [length]. lia.
Qed.

Lemma elem_of_enumerate {A} (l : list A) (i : Z) (x : A) :
  (i, x) ∈ Py.enumerate l -> 0 <= i < Z.of_nat (length l).
Proof. intros Hin. apply elem_of_enumerate_from in Hin. lia. Qed.

Lemma length_list_ascii_of_string (s : string) :
  length (list_ascii_of_string s) = String.length s.
Proof. induction s as [|c s IH]; cbn; [reflexivity | f_equal; exact IH]. Qed.

(** When the Pauli string is no longer than [nqubit], every basis rotation
    is an H or an Sdg on one qubit in the range 0 .. nqubit-1. *)
Lemma basis_rotation_targets (nqubit : Z) (PauliString : string) :
  Z.of_nat (String.length PauliString) <= nqubit ->
  Forall (fun a => exists gate q,
              a = Apply gate [q] [] /\ (gate = HGate \/ gate = SdgGate) /\
              0 <= q < nqubit)
         (basis_rotation nqubit PauliString).
Proof.
  intros Hlen. unfold basis_rotation. apply Forall_forall. intros a Ha.
  apply list_elem_of_In, in_flat_map in Ha as ([i p] & Hpos & Ha).
  apply list_elem_of_In, elem_of_enumerate in Hpos.
  rewrite length_list_ascii_of_string in Hpos.
  unfold rotation_for in Ha.
  destruct (Ascii.eqb p "X").
  - apply list_elem_of_In, list_elem_of_singleton in Ha as ->.
    eexists _, _. split; [reflexivity|]. split; [left; reflexivity | lia].
  - destruct (Ascii.eqb p "Y"); [|destruct Ha].
    apply list_elem_of_In in Ha. rewrite !elem_of_cons in Ha.
    destruct Ha as [->|[->|Ha]]; [| |inversion Ha];
      eexists _, _; (split; [reflexivity|]); (split; [auto | lia]).
Qed.

(** C5: when the qubits addressed exist (the Pauli string is no longer than
    [nqubit], and [nqubit] is at most the number of qubits of [qc]),
    [ExpectationCircuit] works on a new circuit that starts as a copy of
    [qc]; reading the Pauli string of the term from left to right, position
    [i] adds H on qubit [nqubit - i - 1] for an X, Sdg followed by H on that
    qubit for a Y, and nothing for any other character (Z and I among them);
    then a barrier and one measurement of every qubit follow.  The returned
    flag is true exactly when the string has no X and no Y. *)
Theorem ExpectationCircuit_measurement_basis (str_float : float -> string)
    (qc : ref) (pauli : SparsePauliOp) (nqubit : Z) (s : State)
    (c : QuantumCircuit) (PauliString : string) (coeff : float) (others : list Term) :
  heap s !! qc = Some c ->
  to_list pauli = (PauliString, coeff) :: others ->
  Z.of_nat (String.length PauliString) <= nqubit ->
  nqubit <= qc_num_qubits c ->
  exists s' raw is_diag,
    ExpectationCircuit str_float qc pauli nqubit s = (Ok (length (heap s), is_diag), s') /\
    heap s' !! length (heap s) = Some raw /\
    qc_data raw
    = qc_data c
        ++ flat_map (rotation_for nqubit) (Py.enumerate (list_ascii_of_string PauliString))
        ++ Apply Barrier (Py.range (qc_num_qubits c)) []
           :: map (fun q => Apply Measure [q] [qc_num_clbits c + q])
                (Py.range (qc_num_qubits c)) /\
    (forall i p,
        rotation_for nqubit (i, p)
        = if bool_decide (p = "X"%char) then [Apply HGate [nqubit - i - 1] []]
          else if bool_decide (p = "Y"%char)
               then [Apply SdgGate [nqubit - i - 1] []; Apply HGate [nqubit - i - 1] []]
               else []) /\
    rotation_for nqubit (0, "Z"%char) = [] /\
    rotation_for nqubit (0, "I"%char) = [] /\
    (is_diag = true <->
     ("X"%char ∉ list_ascii_of_string PauliString) /\
     ("Y"%char ∉ list_ascii_of_string PauliString)) /\
    Forall (fun a => exists gate q,
                a = Apply gate [q] [] /\ 0 <= q < qc_num_qubits c)
           (flat_map (rotation_for nqubit)
              (Py.enumerate (list_ascii_of_string PauliString))).
Proof.
  intros Hqc Hterms Hlen Hwidth.
  rewrite (ExpectationCircuit_run str_float qc pauli nqubit s c PauliString coeff others Hqc Hterms).
  eexists _, _, _. split; [reflexivity|].
  cbn [heap with_QC_ with_heap]. split; [apply lookup_new|].
  split; [|split; [|split; [|split; [|split]]]].
  6: { eapply Forall_impl; [exact (basis_rotation_targets nqubit PauliString Hlen)|].
       intros a (gate & q & -> & _ & Hq). exists gate, q. split; [reflexivity | lia]. }
  - unfold set_name, measure_all, set_data, basis_rotation.
    cbn [qc_data qc_num_qubits qc_num_clbits]. rewrite <- app_assoc. reflexivity.
  - intros i p. unfold rotation_for.
    destruct (Ascii.eqb_spec p "X"), (Ascii.eqb_spec p "Y"); subst;
      repeat (rewrite bool_decide_eq_true_2 by congruence);
      repeat (rewrite bool_decide_eq_false_2 by congruence); reflexivity.
  - reflexivity.
  - reflexivity.
  - apply all_diagonal_iff.
Qed.

(** C9: [ExpectationCircuit] changes no circuit object that existed before
    the call, [qc] in particular: the rotations, the measurements and the new
    name go to a fresh object, which is the one returned. *)
Theorem ExpectationCircuit_leaves_qc (str_float : float -> string)
    (qc : ref) (pauli : SparsePauliOp) (nqubit : Z) (s : State) (c : QuantumCircuit) :
  heap s !! qc = Some c ->
  let outcome := ExpectationCircuit str_float qc pauli nqubit s in
  heap (snd outcome) !! qc = Some c /\
  (forall r, (r < length (heap s))%nat -> heap (snd outcome) !! r = heap s !! r) /\
  (forall raw is_diag, fst outcome = Ok (raw, is_diag) ->
     raw <> qc /\ raw = length (heap s)).
Proof.
  intros Hqc outcome.
  assert (Hlt : (qc < length (heap s))%nat) by (eapply lookup_lt_Some; exact Hqc).
  assert (Hold : forall r, (r < length (heap s))%nat ->
                           heap (snd outcome) !! r = heap s !! r).
  { intros r Hr. subst outcome.
    destruct (to_list pauli) as [|[PauliString coeff] others] eqn:Hterms.
    - unfold ExpectationCircuit, bind, deref, new, lift. rewrite Hqc, Hterms.
      cbn. apply lookup_app_l. exact Hr.
    - rewrite (ExpectationCircuit_run str_float qc pauli nqubit s c
                 PauliString coeff others Hqc Hterms).
      cbn [snd heap with_QC_ with_heap]. apply lookup_app_l. exact Hr. }
  split; [rewrite Hold by exact Hlt; exact Hqc|]. split; [exact Hold|].
  intros raw is_diag Hres. subst outcome.
  destruct (to_list pauli) as [|[PauliString coeff] others] eqn:Hterms.
  - unfold ExpectationCircuit, bind, deref, new, lift in Hres.
    rewrite Hqc, Hterms in Hres. cbn in Hres. discriminate.
  - rewrite (ExpectationCircuit_run str_float qc pauli nqubit s c
               PauliString coeff others Hqc Hterms) in Hres.
    cbn [fst] in Hres. injection Hres as <- _. split; lia.
Qed.

(** ** Result analysis *)

Section Analysis.

Variable accuracy_ratio_fidelity : ExpVal -> float -> float -> float -> gmap string float.

(** [analyze_and_print_result] reads the circuit and the references and
    leaves the state alone; its outcome is the method-1 score when the
    metadata has "method1", the method-2 score when it has "method2" only,
    and a [RuntimeError] when it has neither. *)
Lemma analyze_run (qc : ref) (result : ExecutionResult) (num_qubits : Z)
    (references : gmap string Reference) (shots : Z) (s : State) (c : QuantumCircuit) :
  heap s !! qc = Some c ->
  analyze_and_print_result accuracy_ratio_fidelity qc result num_qubits references shots s
  = (match qc_metadata c !! "method1" with
     | Some total_name =>
         score_method1 accuracy_ratio_fidelity total_name
           (get_expectation_values result qc) num_qubits references
     | None =>
         match qc_metadata c !! "method2" with
         | Some qubit_op =>
             score_method2 accuracy_ratio_fidelity qubit_op
               (get_expectation_values result qc) references
         | None => Raise (RuntimeError "Either method 1 or 2 should be chosen")
         end
     end, s).
Proof.
  intros Hqc. unfold analyze_and_print_result.
  unfold bind at 1. unfold deref at 1. rewrite Hqc.
  destruct (qc_metadata c !! "method1") as [total_name|].
  - unfold score_method1, bind, lift, ret, and_then.
    destruct (meta_split total_name) as [tokens|]; [|reflexivity].
    destruct (getitem tokens 2) as [token|]; [|reflexivity].
    destruct (py_int token) as [circuit_id|]; [|reflexivity].
    destruct (dict_get references _) as [reference|]; reflexivity.
  - destruct (qc_metadata c !! "method2") as [qubit_op|].
    + unfold score_method2, bind, lift, ret, raise, and_then.
      destruct (meta_to_list qubit_op) as [terms|]; [|reflexivity].
      destruct (iterate (get_expectation_values result qc)) as [vals|]; [|reflexivity].
      destruct (fold_result _ _ _) as [total|]; [|reflexivity].
      destruct (meta_size qubit_op) as [n|]; [|reflexivity].
      destruct (n =? 0); reflexivity.
    + reflexivity.
Qed.

Lemma add_term_fidelity_not_RuntimeError (references : gmap string Reference)
    (items : list (ExpVal * Term)) :
  forall (total : float) (msg : string),
    fold_result (add_term_fidelity accuracy_ratio_fidelity references) items total
    <> Raise (RuntimeError msg).
Proof.
  induction items as [|[val [pauli coeff]] items IH]; intros total msg; cbn [fold_result].
  - discriminate.
  - unfold add_term_fidelity, dict_get.
    destruct (references !! pauli) as [reference|]; [|discriminate].
    destruct (_ !! "fidelity") as [f|]; [apply IH | discriminate].
Qed.

Lemma score_method1_not_RuntimeError (total_name : MetaValue) (expval : ExpVal)
    (num_qubits : Z) (references : gmap string Reference) (msg : string) :
  score_method1 accuracy_ratio_fidelity total_name expval num_qubits references
  <> Raise (RuntimeError msg).
Proof.
  unfold score_method1, and_then, meta_split, getitem, py_int, dict_get.
  destruct total_name as [name|op]; [|discriminate].
  destruct (if 2 <? 0 then None else Py.split name !! Z.to_nat 2) as [token|];
    [|discriminate].
  destruct (Py.int token) as [circuit_id|]; [|discriminate].
  destruct (references !! _) as [reference|]; discriminate.
Qed.

Lemma score_method2_not_RuntimeError (qubit_op : MetaValue) (expval : ExpVal)
    (references : gmap string Reference) (msg : string) :
  score_method2 accuracy_ratio_fidelity qubit_op expval references
  <> Raise (RuntimeError msg).
Proof.
  unfold score_method2, and_then, meta_to_list, meta_size, iterate.
  destruct qubit_op as [name|op]; [discriminate|].
  destruct expval as [x|xs]; [discriminate|].
  destruct (fold_result _ _ _) as [total|e] eqn:Hfold.
  - destruct (size op =? 0); discriminate.
  - intros Heq. injection Heq as ->.
    exact (add_term_fidelity_not_RuntimeError _ _ _ _ Hfold).
Qed.

(** C10: [analyze_and_print_result] raises a [RuntimeError] exactly when
    the metadata has neither "method1" nor "method2"; with "method1" in the
    metadata the outcome is the method-1 score, and with "method2" but not
    "method1" it is the method-2 score. *)
Theorem analyze_RuntimeError_iff (qc : ref) (result : ExecutionResult) (num_qubits : Z)
    (references : gmap string Reference) (shots : Z) (s : State) (c : QuantumCircuit) :
  heap s !! qc = Some c ->
  let outcome :=
    fst (analyze_and_print_result accuracy_ratio_fidelity qc result num_qubits
           references shots s) in
  ((exists msg, outcome = Raise (RuntimeError msg)) <->
   qc_metadata c !! "method1" = None /\ qc_metadata c !! "method2" = None) /\
  (forall total_name,
      qc_metadata c !! "method1" = Some total_name ->
      outcome = score_method1 accuracy_ratio_fidelity total_name
                  (get_expectation_values result qc) num_qubits references) /\
  (forall qubit_op,
      qc_metadata c !! "method1" = None ->
      qc_metadata c !! "method2" = Some qubit_op ->
      outcome = score_method2 accuracy_ratio_fidelity qubit_op
                  (get_expectation_values result qc) references).
Proof.
  intros Hqc outcome. subst outcome.
  rewrite (analyze_run qc result num_qubits references shots s c Hqc). cbn [fst].
  split; [|split].
  - destruct (qc_metadata c !! "method1") as [total_name|].
    + split.
      * intros [msg Hmsg]. exfalso.
        exact (score_method1_not_RuntimeError _ _ _ _ _ Hmsg).
      * intros [Hnone _]. discriminate.
    + destruct (qc_metadata c !! "method2") as [qubit_op|].
      * split.
        -- intros [msg Hmsg]. exfalso.
           exact (score_method2_not_RuntimeError _ _ _ _ Hmsg).
        -- intros [_ Hnone]. discriminate.
      * split; [intros _; split; reflexivity|].
        intros _. eexists. reflexivity.
  - intros total_name ->. reflexivity.
  - intros qubit_op -> ->. reflexivity.
Qed.

End Analysis.

Section Scoring.

Variable precalculated_data : gmap string (gmap string Reference).
Variable accuracy_ratio_fidelity : ExpVal -> float -> float -> float -> gmap string float.

(** The method-2 loop adds the fidelities of the terms to the running
    total, in term order. *)
Lemma add_term_fidelity_sum (references : gmap string Reference)
    (vals : list float) (terms : list Term) (fids : list float) :
  Forall3 (fun val term f =>
             exists reference,
               references !! fst term = Some reference /\
               accuracy_ratio_fidelity (Scalar val) (ref_exact reference)
                 (ref_min reference) (ref_max reference) !! "fidelity" = Some f)
          vals terms fids ->
  forall total,
    fold_result (add_term_fidelity accuracy_ratio_fidelity references)
      (combine (map Scalar vals) terms) total
    = Ok (fold_left PrimFloat.add fids total).
Proof.
  induction 1 as [|val [pauli coeff] f vals terms fids (reference & Href & Hf) _ IH];
    intros total.
  - reflexivity.
  - cbn [map combine fold_result fold_left add_term_fidelity fst] in *.
    unfold dict_get. rewrite Href, Hf. apply IH.
Qed.

(** C3: for a method-2 result (the metadata has "method2" and not
    "method1") whose terms each have an expectation value, a reference entry
    and a fidelity, the score returned is the sum of the per-term
    fidelities, one per term of the stored operator, added in term order
    starting from 0, divided by the number of terms of the stored
    operator. *)
Theorem method2_normalized_fidelity (qc : ref) (result : ExecutionResult)
    (num_qubits : Z) (references : gmap string Reference) (shots : Z)
    (s : State) (c : QuantumCircuit) (qubit_op : SparsePauliOp)
    (vals fids : list float) :
  heap s !! qc = Some c ->
  qc_metadata c !! "method1" = None ->
  qc_metadata c !! "method2" = Some (MetaOp qubit_op) ->
  get_expectation_values result qc = Array vals ->
  to_list qubit_op <> [] ->
  Forall3 (fun val term f =>
             exists reference,
               references !! fst term = Some reference /\
               accuracy_ratio_fidelity (Scalar val) (ref_exact reference)
                 (ref_min reference) (ref_max reference) !! "fidelity" = Some f)
          vals (to_list qubit_op) fids ->
  analyze_and_print_result accuracy_ratio_fidelity qc result num_qubits references shots s
  = (Ok {[ "fidelity" := PrimFloat.div (fold_left PrimFloat.add fids 0%float)
                           (Py.float_of_int
                              (Z.of_nat (length (to_list qubit_op)))) ]}, s) /\
  length fids = length (to_list qubit_op).
Proof.
  intros Hqc Hm1 Hm2 Hvals Hne Hfids.
  split;
    [|rewrite <- (Forall3_length_lr _ _ _ _ Hfids);
      exact (Forall3_length_lm _ _ _ _ Hfids)].
  change (Z.of_nat (length (to_list qubit_op))) with (size qubit_op).
  rewrite (analyze_run accuracy_ratio_fidelity qc result num_qubits references shots s c Hqc).
  rewrite Hm1, Hm2, Hvals. unfold score_method2.
  cbn [meta_to_list iterate and_then meta_size].
  rewrite (add_term_fidelity_sum references vals (to_list qubit_op) fids Hfids).
  cbn [and_then].
  destruct (Z.eqb_spec (size qubit_op) 0) as [Hzero|_]; [|reflexivity].
  unfold size in Hzero. destruct (to_list qubit_op); [congruence | discriminate].
Qed.

(** [execution_handler] on a circuit whose metadata selects a method. *)
Lemma metadata_method_cases (c : QuantumCircuit) (m : Z) :
  metadata_method c = Some m ->
  (m = 1 /\ is_Some (qc_metadata c !! "method1")) \/
  (m = 2 /\ qc_metadata c !! "method1" = None /\ is_Some (qc_metadata c !! "method2")).
Proof.
  unfold metadata_method.
  destruct (qc_metadata c !! "method1") as [v|].
  - intros [= <-]. left. split; [reflexivity | eexists; reflexivity].
  - destruct (qc_metadata c !! "method2") as [v|]; [|discriminate].
    intros [= <-]. right. repeat split. eexists; reflexivity.
Qed.

(** C7: when the metadata selects method [m], the handler scores the result
    against the reference file of [num_qubits] and [m] and makes one call
    [store_metric(num_qubits, key, "fidelity", fidelity)], where [key] is
    the circuit id (the third word of [metadata["method1"]]) for method 1
    and "method2" for method 2: afterwards the stored metrics are those of
    before followed by that one call, and nothing else has changed. *)
Theorem execution_handler_stores_fidelity (qc : ref) (result : ExecutionResult)
    (num_qubits shots m : Z) (references : gmap string Reference)
    (s : State) (c : QuantumCircuit) (fidelity : gmap string float) :
  heap s !! qc = Some c ->
  metadata_method c = Some m ->
  precalculated_data !! reference_path num_qubits m = Some references ->
  fst (analyze_and_print_result accuracy_ratio_fidelity qc result num_qubits
         references shots s) = Ok fidelity ->
  exists key s',
    metric_key c = Some key /\
    (m = 1 ->
     exists total_name,
       qc_metadata c !! "method1" = Some (MetaStr total_name) /\
       Py.split total_name !! 2%nat = Some key) /\
    (m = 2 -> key = "method2") /\
    execution_handler precalculated_data accuracy_ratio_fidelity qc result num_qubits shots s
    = (Ok tt, s') /\
    stored_metrics s'
    = stored_metrics s
        ++ [{| mc_group := num_qubits; mc_circuit_id := key;
               mc_metric := "fidelity"; mc_value := fidelity |}] /\
    heap s' = heap s /\
    submitted s' = submitted s /\
    (QC_ s', Hf_ s', CO_ s', normalization s')
    = (QC_ s, Hf_ s, CO_ s, normalization s).
Proof.
  intros Hqc Hm Hfile Hscore.
  assert (Hrun' :
            exists key,
              metric_key c = Some key /\
              (m = 2 -> key = "method2") /\
              execution_handler precalculated_data accuracy_ratio_fidelity qc result
                num_qubits shots s
              = (Ok tt,
                 with_stored_metrics
                   (stored_metrics s ++
                      [{| mc_group := num_qubits; mc_circuit_id := key;
                          mc_metric := "fidelity"; mc_value := fidelity |}]) s));
    [|destruct Hrun' as (key & Hkey & Hkey2 & Hrun');
      exists key; eexists; split; [exact Hkey|]; split;
        [|split; [exact Hkey2|]; split; [exact Hrun'|];
          split; [reflexivity|]; split; [reflexivity|]; split; reflexivity];
      intros ->; destruct (metadata_method_cases c 1 Hm) as [[_ [v Hv]]|(Habs & _)];
        [|discriminate Habs];
      unfold metric_key in Hkey; rewrite Hv in Hkey;
      destruct v as [total_name|op]; [|discriminate Hkey];
      exists total_name; split; [exact Hv | exact Hkey]].
  pose proof (analyze_run accuracy_ratio_fidelity qc result num_qubits
                references shots s c Hqc) as Hrun.
  rewrite Hrun in Hscore. cbn [fst] in Hscore.
  unfold execution_handler. unfold bind at 1. unfold deref at 1. rewrite Hqc.
  destruct (metadata_method_cases c m Hm) as [[-> H1]|(-> & H1 & H2)].
  - rewrite (bool_decide_eq_true_2 _ H1). destruct H1 as [total_name H1].
    unfold bind at 1, lift at 1, load.
    change ("../_common/precalculated_data_" ++ Py.str num_qubits
              ++ "_qubit_method1.json")%string
      with (reference_path num_qubits 1).
    rewrite Hfile. unfold bind at 1. rewrite Hrun. rewrite Hscore.
    rewrite H1 in Hscore.
    unfold bind at 1, deref at 1. rewrite Hqc, H1.
    unfold score_method1, and_then in Hscore.
    unfold metric_key. rewrite H1.
    destruct total_name as [name|op]; cbn [meta_split] in *; [|discriminate].
    unfold getitem in *. cbn [Z.ltb Z.compare] in *.
    change (Z.to_nat 2) with 2%nat in *.
    destruct (Py.split name !! 2%nat) as [token|] eqn:Htoken; [|discriminate].
    exists token. split; [reflexivity|]. split; [intros Habs; discriminate Habs|].
    unfold bind, lift, store_metric, update. cbn [meta_split].
    unfold getitem. cbn [Z.ltb Z.compare]. change (Z.to_nat 2) with 2%nat.
    rewrite Htoken. reflexivity.
  - assert (Hno : ~ is_Some (qc_metadata c !! "method1")).
    { rewrite H1. intros [x Hx]. discriminate. }
    rewrite (bool_decide_eq_false_2 _ Hno), (bool_decide_eq_true_2 _ H2).
    unfold bind at 1, lift at 1, load.
    change ("../_common/precalculated_data_" ++ Py.str num_qubits
              ++ "_qubit_method2.json")%string
      with (reference_path num_qubits 2).
    rewrite Hfile. unfold bind at 1. rewrite Hrun. rewrite Hscore.
    unfold bind at 1, deref at 1. rewrite Hqc, H1.
    rewrite (bool_decide_eq_true_2 _ H2).
    unfold metric_key. rewrite H1. destruct H2 as [v ->].
    exists "method2"%string. split; [reflexivity|]. split; [reflexivity|].
    unfold store_metric, update. reflexivity.
Qed.

End Scoring.

(** ** The ansatz circuit *)

Lemma ClusterOperatorCircuit_run (pauli_op : SparsePauliOp) (excitationIndex : list Z)
    (s : State) :
  ClusterOperatorCircuit pauli_op excitationIndex s
  = (Ok (length (heap s)),
     with_CO_ (if (bool_decide (CO_ s = None) || (op_num_qubits pauli_op <=? 4))
                  && (op_num_qubits pauli_op <? 7)
               then Some (length (heap s)) else CO_ s)
       (with_heap (heap s ++ [cluster_circuit pauli_op excitationIndex]) s)).
Proof.
  unfold ClusterOperatorCircuit. unfold bind at 1. unfold new at 1.
  unfold bind at 1. erewrite mutate_run by (cbn [heap with_heap]; apply lookup_new).
  cbn [heap with_heap]. rewrite insert_new.
  unfold bind at 1. erewrite mutate_run by (cbn [heap with_heap]; apply lookup_new).
  cbn [heap with_heap]. rewrite insert_new.
  unfold bind at 1. unfold get at 1. cbn [CO_ with_heap].
  unfold bind at 1. unfold deref at 1. cbn [heap with_heap]. rewrite lookup_new.
  change (set_name _ (push _ (empty_circuit (op_num_qubits pauli_op) "")))
    with (cluster_circuit pauli_op excitationIndex).
  cbn [qc_num_qubits cluster_circuit].
  destruct (bool_decide (CO_ s = None) || (op_num_qubits pauli_op <=? 4)); cbn [andb].
  - destruct (op_num_qubits pauli_op <? 7); unfold bind, update, ret; cbn.
    + reflexivity.
    + destruct s; reflexivity.
  - unfold bind, ret. destruct s; reflexivity.
Qed.

Lemma getitem_of_nat {A} (l : list A) (k : nat) (x : A) :
  l !! k = Some x -> getitem l (Z.of_nat k) = Ok x.
Proof.
  intros Hk. unfold getitem.
  destruct (Z.ltb_spec (Z.of_nat k) 0); [lia|].
  rewrite Nat2Z.id, Hk. reflexivity.
Qed.

Lemma fold_left_snoc {A} (l acc : list A) :
  fold_left (fun acc p => acc ++ [p]) l acc = acc ++ l.
Proof.
  revert acc. induction l as [|x l IH]; intros acc; cbn [fold_left].
  - rewrite app_nil_r. reflexivity.
  - rewrite IH, <- app_assoc. reflexivity.
Qed.

Section Ansatz.

Variable ansatzes : gmap string PauliDict.
Variable Hamiltonians : gmap string PauliDict.
Variable str_float : float -> string.
Variable group_commuting : SparsePauliOp -> list SparsePauliOp.

Lemma ReadHamiltonian_run (nqubit : Z) (s : State) (ham_dict : PauliDict) :
  Hamiltonians !! hamiltonian_path nqubit = Some ham_dict ->
  ham_dict <> [] ->
  ReadHamiltonian Hamiltonians nqubit s = (Ok (SparsePauliOp_of ham_dict), s).
Proof.
  intros Hfile Hne. unfold ReadHamiltonian, bind, lift, load.
  fold (hamiltonian_path nqubit). rewrite Hfile.
  rewrite (fold_left_snoc ham_dict []). cbn [app].
  destruct ham_dict; [congruence | reflexivity].
Qed.

Lemma readPauliExcitation_run (norb circuit_id : Z) (s : State) (ansatz_dict : PauliDict) :
  ansatzes !! ansatz_path norb circuit_id = Some ansatz_dict ->
  readPauliExcitation ansatzes norb circuit_id s = (group_excitations ansatz_dict, s).
Proof.
  intros Hfile. unfold readPauliExcitation, bind, lift, load.
  fold (ansatz_path norb circuit_id). rewrite Hfile. reflexivity.
Qed.

(** The loop over the grouped operators: each round allocates the cluster
    circuit of the next operator and appends it to the ansatz [qc]. *)
Lemma cluster_loop (excitationList : list (list Z)) (qc : ref)
    (pauli_list : list SparsePauliOp) :
  forall (k : nat) (s : State) (c : QuantumCircuit),
    heap s !! qc = Some c ->
    (length pauli_list <= length (drop k excitationList))%nat ->
    exists s',
      for_each (combine (map Z.of_nat (seq k (length pauli_list))) pauli_list)
        (fun '(index, PauliOp) =>
           (excitation <- lift (getitem excitationList index) ;;
            cluster_qc <- ClusterOperatorCircuit PauliOp excitation ;;
            cluster <- deref cluster_qc ;;
            append qc cluster_qc (Py.range (qc_num_qubits cluster)))%py) s
      = (Ok tt, s') /\
      heap s'
      = <[qc := set_data (qc_data c ++ zip_with cluster_instruction pauli_list
                                         (drop k excitationList)) c]> (heap s)
          ++ zip_with cluster_circuit pauli_list (drop k excitationList).
Proof.
  induction pauli_list as [|PauliOp pauli_list IH]; intros k s c Hqc Hlen.
  - exists s. split; [reflexivity|]. cbn [zip_with].
    rewrite !app_nil_r, set_data_same. rewrite list_insert_id by exact Hqc. reflexivity.
  - destruct (drop k excitationList) as [|excitation tail] eqn:Hdrop;
      [cbn in Hlen; lia|].
    assert (Hk : excitationList !! k = Some excitation).
    { rewrite <- (Nat.add_0_r k), <- lookup_drop, Hdrop. reflexivity. }
    assert (Htail : drop (S k) excitationList = tail).
    { rewrite (drop_S _ _ _ Hk) in Hdrop. congruence. }
    assert (Hlt : (qc < length (heap s))%nat) by (eapply lookup_lt_Some; exact Hqc).
    cbn [length seq map combine for_each].
    unfold bind at 1. unfold bind at 1. unfold lift at 1.
    rewrite (getitem_of_nat _ _ _ Hk).
    unfold bind at 1. rewrite ClusterOperatorCircuit_run.
    unfold bind at 1. unfold deref at 1. cbn [heap with_heap with_CO_].
    rewrite lookup_new.
    unfold append. unfold bind at 1. unfold deref at 1.
    cbn [heap with_heap with_CO_]. rewrite lookup_new.
    erewrite mutate_run
      by (cbn [heap with_heap with_CO_]; rewrite lookup_app_l by exact Hlt; exact Hqc).
    cbn [heap with_heap with_CO_ qc_num_qubits cluster_circuit].
    fold (cluster_instruction PauliOp excitation).
    edestruct (IH (S k)) as (s' & Hloop & Hheap); cycle 2.
    + exists s'. split; [exact Hloop|]. rewrite Hheap.
      cbn [heap with_heap with_CO_]. rewrite Htail. cbn [zip_with].
      rewrite set_data_push.
      rewrite !insert_app_l by (rewrite ?length_insert; exact Hlt).
      rewrite list_insert_insert_eq, <- app_assoc. reflexivity.
    + cbn [heap with_heap with_CO_].
      rewrite insert_app_l by exact Hlt. rewrite lookup_app_l
        by (rewrite length_insert; exact Hlt).
      apply list_lookup_insert_eq. exact Hlt.
    + rewrite Htail. cbn in Hlen. lia.
Qed.

End Ansatz.

Section Energy.

Variable ansatzes : gmap string PauliDict.
Variable Hamiltonians : gmap string PauliDict.
Variable str_float : float -> string.
Variable group_commuting : SparsePauliOp -> list SparsePauliOp.

(** What [VQEEnergy] returns and allocates when the Hamiltonian file has at
    least two terms and the excitation list is long enough for the grouped
    operators of the ansatz file. *)
Lemma VQEEnergy_run (n_spin_orbs na nb circuit_id method : Z) (s : State)
    (t0 t1 : Term) (rest : list Term) (ansatz_dict : PauliDict)
    (pauli_list : list SparsePauliOp) :
  Hamiltonians !! hamiltonian_path n_spin_orbs = Some (t0 :: t1 :: rest) ->
  ansatzes !! ansatz_path n_spin_orbs circuit_id = Some ansatz_dict ->
  group_excitations ansatz_dict = Ok pauli_list ->
  (length pauli_list <= length (excitations n_spin_orbs na nb))%nat ->
  exists s',
    VQEEnergy ansatzes Hamiltonians str_float group_commuting
      n_spin_orbs na nb circuit_id method s
    = (Ok (length (heap s),
           if method =? 1 then ObsOp (SparsePauliOp_of [t1])
           else ObsList (map (fun t => SparsePauliOp_of [t]) (t1 :: rest))),
       s') /\
    heap s'
    = heap s
        ++ [ {| qc_name := "vqe-ansatz(" ++ Py.str method ++ ") " ++ Py.str n_spin_orbs
                             ++ " " ++ Py.str circuit_id;
                qc_num_qubits := n_spin_orbs;
                qc_num_clbits := 0;
                qc_data := ansatz_gates n_spin_orbs na nb pauli_list;
                qc_metadata :=
                  if method =? 1
                  then {[ "method1" := MetaStr (fst t1 ++ " " ++ str_float (snd t1)) ]}
                  else {[ "method2" := MetaOp (SparsePauliOp_of (t1 :: rest)) ]} |};
             set_data (hartree_fock_gates n_spin_orbs na nb)
               (empty_circuit n_spin_orbs "Hf") ]
        ++ zip_with cluster_circuit pauli_list (excitations n_spin_orbs na nb).
Proof.
  intros Hham Hansatz Hgroups Hlen. unfold VQEEnergy.
  unfold bind at 1.
  rewrite (ReadHamiltonian_run Hamiltonians n_spin_orbs s _ Hham) by discriminate.
  unfold bind at 1. unfold new at 1.
  unfold bind at 1. rewrite HartreeFock_run. cbn [heap with_heap].
  set (qc := length (heap s)).
  set (name := ("vqe-ansatz(" ++ Py.str method ++ ") " ++ Py.str n_spin_orbs
                  ++ " " ++ Py.str circuit_id)%string).
  set (hf := set_data (hartree_fock_gates n_spin_orbs na nb)
               (empty_circuit n_spin_orbs "Hf")).
  unfold bind at 1. unfold append at 1. unfold bind at 1. unfold deref at 1.
  cbn [heap with_heap with_Hf_]. rewrite lookup_new.
  match goal with
  | |- context [mutate qc _ ?st] =>
      remember st as s1 eqn:Es1;
      assert (H1 : heap s1 = (heap s ++ [empty_circuit n_spin_orbs name]) ++ [hf])
        by (subst s1; reflexivity);
      clear Es1
  end.
  assert (Hqc1 : heap s1 !! qc = Some (empty_circuit n_spin_orbs name)).
  { rewrite H1. rewrite lookup_app_l by (rewrite length_app; cbn; lia).
    apply lookup_new. }
  rewrite (mutate_run _ _ _ _ Hqc1).
  unfold bind at 1. rewrite (readPauliExcitation_run ansatzes _ _ _ _ Hansatz), Hgroups.
  unfold bind at 1. unfold Py.enumerate.
  edestruct (cluster_loop (excitations n_spin_orbs na nb) qc pauli_list 0)
    as (s2 & Hloop & H2); [| | rewrite Hloop; clear Hloop].
  { apply lookup_mutated with (c := empty_circuit n_spin_orbs name). exact Hqc1. }
  { rewrite drop_0. exact Hlen. }
  rewrite drop_0 in H2. cbn [heap with_heap] in H2. rewrite H1 in H2.
  unfold push in H2 at 1. cbn [qc_data set_data empty_circuit app] in H2.
  rewrite list_insert_insert_eq, <- app_assoc in H2. cbn [app] in H2.
  unfold qc in H2 at 1. rewrite insert_at_end in H2.
  change (Apply (to_instruction hf) (Py.range n_spin_orbs) []
            :: zip_with cluster_instruction pauli_list (excitations n_spin_orbs na nb))
    with (ansatz_gates n_spin_orbs na nb pauli_list) in H2.
  set (clusters := zip_with cluster_circuit pauli_list (excitations n_spin_orbs na nb)) in *.
  set (cq := {| qc_name := name; qc_num_qubits := n_spin_orbs; qc_num_clbits := 0;
                qc_data := ansatz_gates n_spin_orbs na nb pauli_list;
                qc_metadata := ∅ |}) in *.
  change (set_data (ansatz_gates n_spin_orbs na nb pauli_list)
            (push (Apply (to_instruction hf) (Py.range n_spin_orbs) [])
               (empty_circuit n_spin_orbs name)))
    with cq in H2.
  rewrite <- app_assoc in H2. cbn [app] in H2.
  assert (Hqc2 : heap s2 !! qc = Some cq).
  { rewrite H2. apply list_lookup_middle. reflexivity. }
  unfold bind at 1. unfold get at 1. unfold bind at 1. unfold deref at 1.
  unfold ref in *. rewrite Hqc2. cbn [qc_num_qubits cq].
  assert (Hm1 : heap s2 !! qc = Some cq ->
                <[qc := set_metadata
                          (<["method1" := MetaStr (fst t1 ++ " " ++ str_float (snd t1))]>
                             (qc_metadata cq)) cq]> (heap s2)
                = heap s ++ [set_metadata
                               {[ "method1" := MetaStr (fst t1 ++ " " ++ str_float (snd t1)) ]}
                               cq; hf] ++ clusters).
  { intros _. rewrite H2. unfold qc. rewrite insert_at_end.
    cbn [qc_metadata cq]. rewrite insert_empty. reflexivity. }
  assert (Hm2 : heap s2 !! qc = Some cq ->
                <[qc := set_metadata
                          (<["method2" := MetaOp (SparsePauliOp_of (t1 :: rest))]>
                             (qc_metadata cq)) cq]> (heap s2)
                = heap s ++ [set_metadata
                               {[ "method2" := MetaOp (SparsePauliOp_of (t1 :: rest)) ]}
                               cq; hf] ++ clusters).
  { intros _. rewrite H2. unfold qc. rewrite insert_at_end.
    cbn [qc_metadata cq]. rewrite insert_empty. reflexivity. }
  assert (Hgo : forall s3,
             heap s3 = heap s2 ->
             exists s',
               (if method =? 1 then
                  (op <- lift (op_getitem (SparsePauliOp_of (t0 :: t1 :: rest)) 1) ;;
                   term <- lift (getitem (to_list op) 0) ;;
                   mutate qc (fun c =>
                     set_metadata
                       (<["method1" := MetaStr (fst term ++ " " ++ str_float (snd term))]>
                          (qc_metadata c)) c) ;;
                   observable <- lift (op_getitem (SparsePauliOp_of (t0 :: t1 :: rest)) 1) ;;
                   ret (qc, ObsOp observable))%py
                else
                  (update
                     (with_normalization
                        (Some (sum_abs_coeffs
                                 (op_slice_from (SparsePauliOp_of (t0 :: t1 :: rest)) 1)))) ;;
                   groups <-
                     (if bool_decide
                           (to_list (op_slice_from (SparsePauliOp_of (t0 :: t1 :: rest)) 1)
                            = [])
                      then raise AxisError
                      else ret (group_commuting
                                  (op_slice_from (SparsePauliOp_of (t0 :: t1 :: rest)) 1))) ;;
                   update
                     (with_normalization
                        (Some (PrimFloat.div
                                 (sum_abs_coeffs
                                    (op_slice_from (SparsePauliOp_of (t0 :: t1 :: rest)) 1))
                                 (Py.float_of_int (Z.of_nat (length groups)))))) ;;
                   mutate qc (fun c =>
                     set_metadata
                       (<["method2" := MetaOp (op_slice_from
                                                 (SparsePauliOp_of (t0 :: t1 :: rest)) 1)]>
                          (qc_metadata c)) c) ;;
                   ret (qc, ObsList (op_iter (op_slice_from
                                                (SparsePauliOp_of (t0 :: t1 :: rest)) 1))))%py)
                 s3
               = (Ok (qc, if method =? 1 then ObsOp (SparsePauliOp_of [t1])
                          else ObsList (map (fun t => SparsePauliOp_of [t]) (t1 :: rest))),
                  s') /\
               heap s'
               = heap s
                   ++ [ {| qc_name := name; qc_num_qubits := n_spin_orbs; qc_num_clbits := 0;
                           qc_data := ansatz_gates n_spin_orbs na nb pauli_list;
                           qc_metadata :=
                             if method =? 1
                             then {[ "method1" := MetaStr (fst t1 ++ " " ++ str_float (snd t1)) ]}
                             else {[ "method2" := MetaOp (SparsePauliOp_of (t1 :: rest)) ]} |};
                        hf ] ++ clusters).
  { intros s3 H3. rewrite <- H3 in Hqc2, Hm1, Hm2.
    destruct (method =? 1).
    - cbv [bind lift op_getitem]. cbn [to_list lookup list_lookup].
      rewrite getitem_0. cbn [fst snd]. rewrite (mutate_run _ _ _ _ Hqc2).
      eexists. split; [reflexivity|]. cbn [heap with_heap]. exact (Hm1 Hqc2).
    - cbn [op_slice_from to_list drop]. unfold bind at 1. unfold update at 1.
      unfold bind at 1. rewrite bool_decide_eq_false_2 by discriminate.
      unfold ret at 1. unfold bind at 1. unfold update at 1. unfold bind at 1.
      erewrite mutate_run by (cbn [heap with_normalization]; exact Hqc2).
      eexists. split; [reflexivity|]. cbn [heap with_heap with_normalization].
      exact (Hm2 Hqc2). }
  match goal with
  | |- context [@bool_decide (QC_ s2 = None) ?d] => destruct (@bool_decide _ d)
  end.
  - destruct (n_spin_orbs <? 7).
    + unfold bind at 1. unfold update at 1.
      exact (Hgo (with_QC_ (Some qc) s2) eq_refl).
    + unfold bind at 1. unfold ret at 1. exact (Hgo s2 eq_refl).
  - unfold bind at 1. unfold ret at 1. exact (Hgo s2 eq_refl).
Qed.

(** C4: on a valid input (the qubits of the electron numbers exist:
    [na <= n_spin_orbs] and [n_spin_orbs/2 + nb <= n_spin_orbs]; both files
    are well formed for [n_spin_orbs] qubits; the Hamiltonian file has at
    least two terms; and the excitation list has an entry for every grouped
    operator of the ansatz file) the ansatz circuit built by [VQEEnergy] has the
    Hartree-Fock circuit as its first instruction, on all qubits, followed
    by exactly one cluster-operator circuit per grouped operator, in the
    order of the grouped operators; the cluster circuit of operator [P]
    holds a single [PauliEvolutionGate] of [P] with time 1 and first-order
    Lie-Trotter synthesis. *)
Theorem VQEEnergy_ansatz_circuit (n_spin_orbs na nb circuit_id method : Z) (s : State)
    (t0 t1 : Term) (rest : list Term) (ansatz_dict : PauliDict)
    (pauli_list : list SparsePauliOp) :
  na <= n_spin_orbs ->
  Py.int_div n_spin_orbs 2 + nb <= n_spin_orbs ->
  Hamiltonians !! hamiltonian_path n_spin_orbs = Some (t0 :: t1 :: rest) ->
  well_formed n_spin_orbs (t0 :: t1 :: rest) ->
  ansatzes !! ansatz_path n_spin_orbs circuit_id = Some ansatz_dict ->
  well_formed n_spin_orbs ansatz_dict ->
  group_excitations ansatz_dict = Ok pauli_list ->
  (length pauli_list <= length (excitations n_spin_orbs na nb))%nat ->
  exists s' observables c,
    VQEEnergy ansatzes Hamiltonians str_float group_commuting
      n_spin_orbs na nb circuit_id method s
    = (Ok (length (heap s), observables), s') /\
    heap s' !! length (heap s) = Some c /\
    qc_num_qubits c = n_spin_orbs /\
    qc_data c
    = Apply (SubCircuit "Hf" n_spin_orbs (hartree_fock_gates n_spin_orbs na nb))
            (Py.range n_spin_orbs) []
        :: zip_with cluster_instruction pauli_list (excitations n_spin_orbs na nb) /\
    length (qc_data c) = S (length pauli_list) /\
    (forall i P,
        pauli_list !! i = Some P ->
        exists excitation,
          excitations n_spin_orbs na nb !! i = Some excitation /\
          qc_data c !! S i
          = Some (Apply
                    (SubCircuit ("Cluster Op " ++ Py.str_tuple excitation)
                       (op_num_qubits P)
                       [Apply (PauliEvolutionGate P 1.0 (LieTrotter 1))
                          (Py.range (op_num_qubits P)) []])
                    (Py.range (op_num_qubits P)) [])).
Proof.
  intros _ _ Hham _ Hansatz _ Hgroups Hlen.
  destruct (VQEEnergy_run n_spin_orbs na nb circuit_id method s t0 t1 rest
              ansatz_dict pauli_list Hham Hansatz Hgroups Hlen) as (s' & Hrun & Hheap).
  eexists s', _, _. split; [exact Hrun|].
  split; [rewrite Hheap; apply list_lookup_middle; reflexivity|].
  cbn [qc_num_qubits qc_data]. split; [reflexivity|]. split; [reflexivity|].
  split.
  - unfold ansatz_gates. cbn [length]. rewrite length_zip_with. f_equal. lia.
  - intros i P HP.
    destruct (lookup_lt_is_Some_2 (excitations n_spin_orbs na nb) i) as [excitation He].
    { apply lookup_lt_Some in HP. lia. }
    exists excitation. split; [exact He|].
    unfold ansatz_gates. cbn [lookup list_lookup].
    change (zip_with cluster_instruction pauli_list (excitations n_spin_orbs na nb) !! i
            = Some (cluster_instruction P excitation)).
    rewrite lookup_zip_with, HP. cbn. rewrite He. reflexivity.
Qed.

(** C2 (amended): on a valid input (electron numbers whose qubits exist,
    well-formed files, a Hamiltonian of at least two terms, an excitation
    for every grouped operator), for method 1 [VQEEnergy] returns the
    circuit paired with exactly one term of the Hamiltonian read for that
    qubit count; for method 2 it returns the circuit paired with the list of
    all terms of that Hamiltonian except its first term. *)
Theorem VQEEnergy_observables (n_spin_orbs na nb circuit_id method : Z) (s : State)
    (t0 t1 : Term) (rest : list Term) (ansatz_dict : PauliDict)
    (pauli_list : list SparsePauliOp) :
  na <= n_spin_orbs ->
  Py.int_div n_spin_orbs 2 + nb <= n_spin_orbs ->
  Hamiltonians !! hamiltonian_path n_spin_orbs = Some (t0 :: t1 :: rest) ->
  well_formed n_spin_orbs (t0 :: t1 :: rest) ->
  ansatzes !! ansatz_path n_spin_orbs circuit_id = Some ansatz_dict ->
  well_formed n_spin_orbs ansatz_dict ->
  group_excitations ansatz_dict = Ok pauli_list ->
  (length pauli_list <= length (excitations n_spin_orbs na nb))%nat ->
  ReadHamiltonian Hamiltonians n_spin_orbs s
  = (Ok (SparsePauliOp_of (t0 :: t1 :: rest)), s) /\
  exists s' observables,
    VQEEnergy ansatzes Hamiltonians str_float group_commuting
      n_spin_orbs na nb circuit_id method s
    = (Ok (length (heap s), observables), s') /\
    (method = 1 -> observables = ObsOp (SparsePauliOp_of [t1])) /\
    (method = 2 ->
     observables = ObsList (map (fun t => SparsePauliOp_of [t]) (t1 :: rest))).
Proof.
  intros _ _ Hham _ Hansatz _ Hgroups Hlen.
  split; [apply ReadHamiltonian_run; [exact Hham | discriminate]|].
  destruct (VQEEnergy_run n_spin_orbs na nb circuit_id method s t0 t1 rest
              ansatz_dict pauli_list Hham Hansatz Hgroups Hlen) as (s' & Hrun & _).
  eexists s', _. split; [exact Hrun|]. split; intros ->; reflexivity.
Qed.

End Energy.

(** ** The theorems at the four-qubit instance *)

Lemma ExpectationCircuit_measurement_basis_witness :
  exists s' raw is_diag,
    ExpectationCircuit Sample.str_float 0%nat (SparsePauliOp_of [("XYZI", 0.25%float)]) 4
      Sample.state2
    = (Ok (length (heap Sample.state2), is_diag), s') /\
    heap s' !! length (heap Sample.state2) = Some raw /\
    qc_data raw
    = [Apply HGate [3] []; Apply SdgGate [2] []; Apply HGate [2] [];
       Apply Barrier [0; 1; 2; 3] [];
       Apply Measure [0] [0]; Apply Measure [1] [1];
       Apply Measure [2] [2]; Apply Measure [3] [3]] /\
    (forall i p,
        rotation_for 4 (i, p)
        = if bool_decide (p = "X"%char) then [Apply HGate [4 - i - 1] []]
          else if bool_decide (p = "Y"%char)
               then [Apply SdgGate [4 - i - 1] []; Apply HGate [4 - i - 1] []]
               else []) /\
    rotation_for 4 (0, "Z"%char) = [] /\
    rotation_for 4 (0, "I"%char) = [] /\
    (is_diag = true <->
     ("X"%char ∉ list_ascii_of_string "XYZI") /\
     ("Y"%char ∉ list_ascii_of_string "XYZI")) /\
    Forall (fun a => exists gate q, a = Apply gate [q] [] /\ 0 <= q < 4)
           [Apply HGate [3] []; Apply SdgGate [2] []; Apply HGate [2] []].
Proof.
  apply (ExpectationCircuit_measurement_basis Sample.str_float 0%nat
           (SparsePauliOp_of [("XYZI", 0.25%float)]) 4 Sample.state2 Sample.circuit2
           "XYZI" 0.25%float []).
  - reflexivity.
  - reflexivity.
  - vm_compute. discriminate.
  - vm_compute. discriminate.
Defined.

Lemma ExpectationCircuit_leaves_qc_witness :
  let outcome :=
    ExpectationCircuit Sample.str_float 0%nat (SparsePauliOp_of [("XYZI", 0.25%float)]) 4
      Sample.state2 in
  heap (snd outcome) !! 0%nat = Some Sample.circuit2 /\
  (forall r, (r < length (heap Sample.state2))%nat ->
             heap (snd outcome) !! r = heap Sample.state2 !! r) /\
  (forall raw is_diag, fst outcome = Ok (raw, is_diag) ->
     raw <> 0%nat /\ raw = length (heap Sample.state2)).
Proof.
  apply (ExpectationCircuit_leaves_qc Sample.str_float 0%nat
           (SparsePauliOp_of [("XYZI", 0.25%float)]) 4 Sample.state2 Sample.circuit2).
  reflexivity.
Defined.

Lemma analyze_RuntimeError_iff_witness :
  let outcome :=
    fst (analyze_and_print_result Sample.accuracy_ratio_fidelity 0%nat Sample.result 4
           Sample.references2 4092 Sample.state2) in
  ((exists msg, outcome = Raise (RuntimeError msg)) <->
   qc_metadata Sample.circuit2 !! "method1" = None /\
   qc_metadata Sample.circuit2 !! "method2" = None) /\
  (forall total_name,
      qc_metadata Sample.circuit2 !! "method1" = Some total_name ->
      outcome = score_method1 Sample.accuracy_ratio_fidelity total_name
                  (get_expectation_values Sample.result 0%nat) 4 Sample.references2) /\
  (forall qubit_op,
      qc_metadata Sample.circuit2 !! "method1" = None ->
      qc_metadata Sample.circuit2 !! "method2" = Some qubit_op ->
      outcome = score_method2 Sample.accuracy_ratio_fidelity qubit_op
                  (get_expectation_values Sample.result 0%nat) Sample.references2).
Proof.
  apply (analyze_RuntimeError_iff Sample.accuracy_ratio_fidelity 0%nat Sample.result 4
           Sample.references2 4092 Sample.state2 Sample.circuit2).
  reflexivity.
Defined.

Lemma method2_normalized_fidelity_witness :
  analyze_and_print_result Sample.accuracy_ratio_fidelity 0%nat Sample.result 4
    Sample.references2 4092 Sample.state2
  = (Ok {[ "fidelity" := 0.75%float ]}, Sample.state2) /\
  length [1%float; 0.5%float]
  = length [("ZIII", 0.25%float); ("IZII", 0.125%float)].
Proof.
  apply (method2_normalized_fidelity Sample.accuracy_ratio_fidelity 0%nat Sample.result 4
           Sample.references2 4092 Sample.state2 Sample.circuit2 Sample.qubit_op
           [0.25%float; 0.0625%float] [1%float; 0.5%float]).
  - reflexivity.
  - reflexivity.
  - reflexivity.
  - reflexivity.
  - discriminate.
  - repeat constructor.
    + exists {| ref_exact := 0.25; ref_min := (-1)%float; ref_max := 1%float |}.
      split; vm_compute; reflexivity.
    + exists {| ref_exact := 0.125; ref_min := (-1)%float; ref_max := 1%float |}.
      split; vm_compute; reflexivity.
Defined.

Lemma execution_handler_stores_fidelity_witness :
  exists s',
    execution_handler Sample.precalculated_data Sample.accuracy_ratio_fidelity
      0%nat Sample.result 4 4092 Sample.state1
    = (Ok tt, s') /\
    stored_metrics s'
    = [{| mc_group := 4; mc_circuit_id := "0"; mc_metric := "fidelity";
          mc_value := {[ "fidelity" := 1%float ]} |}] /\
    heap s' = [Sample.circuit1] /\
    submitted s' = [] /\
    (QC_ s', Hf_ s', CO_ s', normalization s') = (None, None, None, None).
Proof.
  destruct (execution_handler_stores_fidelity Sample.precalculated_data
              Sample.accuracy_ratio_fidelity 0%nat Sample.result 4 4092 1
              Sample.references1 Sample.state1 Sample.circuit1
              {[ "fidelity" := 1%float ]})
    as (key & s' & Hkey & _ & _ & Hrun & Hstored & Hheap & Hsub & Hglobals).
  - reflexivity.
  - reflexivity.
  - vm_compute. reflexivity.
  - vm_compute. reflexivity.
  - vm_compute in Hkey. injection Hkey as <-.
    exists s'. split; [exact Hrun|]. split; [exact Hstored|].
    split; [exact Hheap|]. split; [exact Hsub | exact Hglobals].
Defined.

Lemma VQEEnergy_ansatz_circuit_witness :
  exists s' observables c,
    VQEEnergy Sample.ansatzes Sample.Hamiltonians Sample.str_float Sample.group_commuting
      4 1 1 0 1 initial_state
    = (Ok (length (heap initial_state), observables), s') /\
    heap s' !! length (heap initial_state) = Some c /\
    qc_num_qubits c = 4 /\
    qc_data c
    = Apply (SubCircuit "Hf" 4 (hartree_fock_gates 4 1 1)) (Py.range 4) []
        :: zip_with cluster_instruction
             [SparsePauliOp_of [("XXXY", 0.5%float); ("XXYX", (-0.5)%float)];
              SparsePauliOp_of [("YXXX", 0.25%float)]]
             (excitations 4 1 1) /\
    length (qc_data c) = 3%nat /\
    (forall i P,
        [SparsePauliOp_of [("XXXY", 0.5%float); ("XXYX", (-0.5)%float)];
         SparsePauliOp_of [("YXXX", 0.25%float)]] !! i = Some P ->
        exists excitation,
          excitations 4 1 1 !! i = Some excitation /\
          qc_data c !! S i
          = Some (Apply
                    (SubCircuit ("Cluster Op " ++ Py.str_tuple excitation)
                       (op_num_qubits P)
                       [Apply (PauliEvolutionGate P 1.0 (LieTrotter 1))
                          (Py.range (op_num_qubits P)) []])
                    (Py.range (op_num_qubits P)) [])).
Proof.
  apply (VQEEnergy_ansatz_circuit Sample.ansatzes Sample.Hamiltonians Sample.str_float
           Sample.group_commuting 4 1 1 0 1 initial_state
           ("IIII", (-0.5)%float) ("ZIII", 0.25%float) [("IZII", 0.125%float)]
           Sample.ansatz).
  - vm_compute. discriminate.
  - vm_compute. discriminate.
  - reflexivity.
  - repeat constructor.
  - reflexivity.
  - repeat constructor.
  - vm_compute. reflexivity.
  - vm_compute. lia.
Defined.

(** C2, as stated, fails for method 2: the Hamiltonian read for four qubits
    has three terms, and the list returned has only the last two; the
    identity term at index 0 is left out. *)
Lemma VQEEnergy_method2_counterexample :
  ReadHamiltonian Sample.Hamiltonians 4 initial_state
  = (Ok (SparsePauliOp_of Sample.hamiltonian), initial_state) /\
  fst (VQEEnergy Sample.ansatzes Sample.Hamiltonians Sample.str_float
         Sample.group_commuting 4 1 1 0 2 initial_state)
  = Ok (0%nat, ObsList [SparsePauliOp_of [("ZIII", 0.25%float)];
                        SparsePauliOp_of [("IZII", 0.125%float)]]) /\
  fst (VQEEnergy Sample.ansatzes Sample.Hamiltonians Sample.str_float
         Sample.group_commuting 4 1 1 0 2 initial_state)
  <> Ok (0%nat, ObsList (op_iter (SparsePauliOp_of Sample.hamiltonian))).
Proof.
  split; [vm_compute; reflexivity|].
  assert (Hrun : fst (VQEEnergy Sample.ansatzes Sample.Hamiltonians Sample.str_float
                        Sample.group_commuting 4 1 1 0 2 initial_state)
                 = Ok (0%nat, ObsList [SparsePauliOp_of [("ZIII", 0.25%float)];
                                       SparsePauliOp_of [("IZII", 0.125%float)]]))
    by (vm_compute; reflexivity).
  split; [exact Hrun|]. rewrite Hrun. cbn. intros Heq. discriminate Heq.
Qed.

Lemma VQEEnergy_observables_witness :
  ReadHamiltonian Sample.Hamiltonians 4 initial_state
  = (Ok (SparsePauliOp_of [("IIII", (-0.5)%float); ("ZIII", 0.25%float);
                           ("IZII", 0.125%float)]), initial_state) /\
  exists s' observables,
    VQEEnergy Sample.ansatzes Sample.Hamiltonians Sample.str_float Sample.group_commuting
      4 1 1 0 2 initial_state
    = (Ok (length (heap initial_state), observables), s') /\
    (2 = 1 -> observables = ObsOp (SparsePauliOp_of [("ZIII", 0.25%float)])) /\
    (2 = 2 ->
     observables
     = ObsList [SparsePauliOp_of [("ZIII", 0.25%float)];
                SparsePauliOp_of [("IZII", 0.125%float)]]).
Proof.
  apply (VQEEnergy_observables Sample.ansatzes Sample.Hamiltonians Sample.str_float
           Sample.group_commuting 4 1 1 0 2 initial_state
           ("IIII", (-0.5)%float) ("ZIII", 0.25%float) [("IZII", 0.125%float)]
           Sample.ansatz
           [SparsePauliOp_of [("XXXY", 0.5%float); ("XXYX", (-0.5)%float)];
            SparsePauliOp_of [("YXXX", 0.25%float)]]).
  - vm_compute. discriminate.
  - vm_compute. discriminate.
  - reflexivity.
  - repeat constructor.
  - reflexivity.
  - repeat constructor.
  - vm_compute. reflexivity.
  - vm_compute. lia.
Defined.

(** ** The early return of [run] *)

Section Run.

Variable ansatzes : gmap string PauliDict.
Variable Hamiltonians : gmap string PauliDict.
Variable str_float : float -> string.
Variable group_commuting : SparsePauliOp -> list SparsePauliOp.

(** When the validated maximum is below 4, [run] returns without building
    or submitting anything. *)
Lemma run_returns_early (min_qubits max_qubits skip_qubits max_circuits num_shots method : Z)
    (backend_id : option string) (s : State) :
  input_sizes min_qubits max_qubits skip_qubits = None ->
  run ansatzes Hamiltonians str_float group_commuting
    min_qubits max_qubits skip_qubits max_circuits num_shots method backend_id s
  = (Ok tt, s).
Proof. intros Hnone. unfold run. rewrite Hnone. reflexivity. Qed.

(** Otherwise the benchmark loop runs its body once per validated size, in
    order; with a method other than 1 and 2 the body builds no pub, so the
    run goes through all sizes and submits nothing. *)
Lemma run_without_method (min_qubits max_qubits skip_qubits max_circuits num_shots method : Z)
    (backend_id : option string) (s : State) :
  method <> 1 -> method <> 2 ->
  run ansatzes Hamiltonians str_float group_commuting
    min_qubits max_qubits skip_qubits max_circuits num_shots method backend_id s
  = (Ok tt, s).
Proof.
  intros H1 H2. unfold run.
  destruct (input_sizes min_qubits max_qubits skip_qubits) as [sizes|]; [|reflexivity].
  apply Z.eqb_neq in H1, H2. rewrite H1, H2.
  induction sizes as [|size sizes IH]; [reflexivity|].
  cbn [for_each]. unfold bind at 1. unfold bind at 1. unfold ret at 1.
  cbn [for_each]. unfold ret at 1. exact IH.
Qed.

End Run.

(** At the four-qubit instance: [run(min_qubits=3, max_qubits=5,
    skip_qubits=7, method=2)] goes through the single size 4 and submits one
    pub, under the circuit id "method2". *)
Example run_four_qubits :
  let outcome :=
    run Sample.ansatzes Sample.Hamiltonians Sample.str_float Sample.group_commuting
      3 5 7 3 100 2 None initial_state in
  fst outcome = Ok tt /\
  map (fun p => (sub_group p, sub_circuit_id p)) (submitted (snd outcome))
  = [(4, "method2")] /\
  input_sizes 3 5 7 = Some [4].
Proof. cbv zeta. repeat split; vm_compute; reflexivity. Qed.

(** ** More on the validated sizes *)

Lemma validate_components (min_qubits max_qubits skip_qubits : Z) :
  validate min_qubits max_qubits skip_qubits
  = (let m := Z.min (Z.max 4 min_qubits) (Z.min (Z.max max_qubits min_qubits) 12) in
     if m mod 2 =? 1 then m + 1 else m,
     Z.min (Z.max max_qubits min_qubits) 12,
     Z.max 1 skip_qubits).
Proof. reflexivity. Qed.

Lemma input_sizes_unfold (min_qubits max_qubits skip_qubits : Z) :
  input_sizes min_qubits max_qubits skip_qubits
  = if Z.min (Z.max max_qubits min_qubits) 12 <? 4 then None
    else Some (Py.range3
                 (let m := Z.min (Z.max 4 min_qubits)
                             (Z.min (Z.max max_qubits min_qubits) 12) in
                  if m mod 2 =? 1 then m + 1 else m)
                 (Z.min (Z.max max_qubits min_qubits) 12 + 1) 2).
Proof. reflexivity. Qed.

Lemma bumped_even (m : Z) : (if m mod 2 =? 1 then m + 1 else m) mod 2 = 0.
Proof.
  pose proof (Z.mod_pos_bound m 2 ltac:(lia)) as Hmod.
  destruct (Z.eqb_spec (m mod 2) 1) as [H1|H1].
  - rewrite Z.add_mod, H1 by lia. reflexivity.
  - lia.
Qed.

(** The benchmark loop only asks for qubit counts 4, 6, 8, 10 or 12, the
    sizes the reference files exist for, whatever the arguments are; and it
    never leaves the requested interval, clipped to 12. *)
Theorem input_sizes_supported (min_qubits max_qubits skip_qubits : Z) (sizes : list Z) :
  input_sizes min_qubits max_qubits skip_qubits = Some sizes ->
  Forall (fun x => x ∈ [4; 6; 8; 10; 12] /\
                   Z.min min_qubits 12 <= x <= Z.max max_qubits min_qubits) sizes.
Proof.
  rewrite input_sizes_unfold.
  destruct (Z.ltb_spec (Z.min (Z.max max_qubits min_qubits) 12) 4) as [|Hhi];
    [discriminate|].
  intros [= <-]. apply Forall_forall. intros x Hx.
  apply range3_step2_elem in Hx; [|apply bumped_even].
  destruct Hx as [[Hlo Hup] Heven].
  set (m := Z.min (Z.max 4 min_qubits) (Z.min (Z.max max_qubits min_qubits) 12)) in *.
  assert (Hm : m <= x) by (destruct (m mod 2 =? 1); lia).
  split.
  - assert (Hcases : x = 4 \/ x = 5 \/ x = 6 \/ x = 7 \/ x = 8 \/ x = 9 \/ x = 10
                     \/ x = 11 \/ x = 12) by lia.
    destruct Hcases as [->|[->|[->|[->|[->|[->|[->|[->| ->]]]]]]]];
      try discriminate Heven; set_solver.
  - lia.
Qed.

Lemma input_sizes_supported_witness :
  Forall (fun x => x ∈ [4; 6; 8; 10; 12] /\ Z.min 3 12 <= x <= Z.max 9 3) [4; 6; 8].
Proof. apply (input_sizes_supported 3 9 1 [4; 6; 8]). reflexivity. Defined.

(** [run] returns early exactly when both bounds are below 4: a maximum
    below the minimum is raised to the minimum first. *)
Theorem input_sizes_early_return (min_qubits max_qubits skip_qubits : Z) :
  input_sizes min_qubits max_qubits skip_qubits = None <->
  min_qubits < 4 /\ max_qubits < 4.
Proof.
  rewrite input_sizes_unfold.
  destruct (Z.ltb_spec (Z.min (Z.max max_qubits min_qubits) 12) 4); split;
    try discriminate; try reflexivity; lia.
Qed.

(** When both bounds are the same even size between 4 and 12 the loop runs
    for that size alone; for an odd size from 5 to 11 it does not run at all;
    any size from 12 up runs as 12. *)
Theorem input_sizes_single (n skip_qubits : Z) :
  (4 <= n <= 12 -> n mod 2 = 0 -> input_sizes n n skip_qubits = Some [n]) /\
  (5 <= n <= 11 -> n mod 2 = 1 -> input_sizes n n skip_qubits = Some []) /\
  (12 <= n -> input_sizes n n skip_qubits = Some [12]).
Proof.
  assert (Hsmall : forall k, 4 <= k <= 12 ->
            k = 4 \/ k = 5 \/ k = 6 \/ k = 7 \/ k = 8 \/ k = 9 \/ k = 10
            \/ k = 11 \/ k = 12) by (intros; lia).
  split; [|split].
  - intros Hn Heven.
    destruct (Hsmall n Hn) as [->|[->|[->|[->|[->|[->|[->|[->| ->]]]]]]]];
      try discriminate Heven; reflexivity.
  - intros Hn Hodd.
    destruct (Hsmall n ltac:(lia)) as [->|[->|[->|[->|[->|[->|[->|[->| ->]]]]]]]];
      try discriminate Hodd; try lia; reflexivity.
  - intros Hn. rewrite input_sizes_unfold.
    replace (Z.max n n) with n by lia. replace (Z.min n 12) with 12 by lia.
    replace (Z.max 4 n) with n by lia. replace (Z.min n 12) with 12 by lia.
    reflexivity.
Qed.

Section MainBlock.

Variable ansatzes : gmap string PauliDict.
Variable Hamiltonians : gmap string PauliDict.
Variable str_float : float -> string.
Variable group_commuting : SparsePauliOp -> list SparsePauliOp.


End MainBlock.


(** ** The excitation list *)

Lemma length_range2 (a b : Z) : length (Py.range2 a b) = Z.to_nat (b - a).
Proof. unfold Py.range2. rewrite length_map, length_seq. reflexivity. Qed.

Lemma length_flat_map_const {A B} (f : A -> list B) (k : nat) (l : list A) :
  (forall x, length (f x) = k) -> length (flat_map f l) = (length l * k)%nat.
Proof.
  intros Hf. induction l as [|x l IH]; cbn [flat_map length]; [reflexivity|].
  rewrite length_app, Hf, IH. lia.
Qed.

(** The number of excitations: the alpha singles, the beta singles, and one
    double for every pair of an alpha single and a beta single. *)
Theorem excitations_count (n_spin_orbs na nb : Z) :
  let norb_a := Py.int_div n_spin_orbs 2 in
  let singles_a := (Z.to_nat na * Z.to_nat (norb_a - na))%nat in
  let singles_b := (Z.to_nat nb * Z.to_nat (n_spin_orbs - (norb_a + nb)))%nat in
  length (excitations n_spin_orbs na nb)
  = (singles_a + singles_b + singles_a * singles_b)%nat.
Proof.
  cbv zeta. unfold excitations. set (norb_a := Py.int_div n_spin_orbs 2).
  rewrite !length_app.
  rewrite (length_flat_map_const _ (Z.to_nat (norb_a - na)))
    by (intros; rewrite length_map; apply length_range2).
  rewrite (length_flat_map_const _ (Z.to_nat (n_spin_orbs - (norb_a + nb))))
    by (intros; rewrite length_map; apply length_range2).
  rewrite (length_flat_map_const _
             (Z.to_nat (norb_a - na)
              * (Z.to_nat nb * Z.to_nat (n_spin_orbs - (norb_a + nb))))%nat).
  - unfold Py.range. rewrite !length_range2.
    replace (norb_a + nb - norb_a) with nb by lia.
    replace (na - 0) with na by lia. lia.
  - intros occ_a.
    rewrite (length_flat_map_const _
               (Z.to_nat nb * Z.to_nat (n_spin_orbs - (norb_a + nb)))%nat).
    + rewrite length_range2. reflexivity.
    + intros vir_a.
      rewrite (length_flat_map_const _ (Z.to_nat (n_spin_orbs - (norb_a + nb))))
        by (intros; rewrite length_map; apply length_range2).
      rewrite length_range2. replace (norb_a + nb - norb_a) with nb by lia.
      reflexivity.
Qed.

(** Every excitation is a strictly increasing tuple of two or four qubit
    indices of the register, an occupied orbital before a virtual one. *)
Theorem excitations_well_formed (n_spin_orbs na nb : Z) :
  Forall (fun e =>
            (exists occ vir, e = [occ; vir] /\ 0 <= occ < vir /\ vir < n_spin_orbs) \/
            (exists occ_a vir_a occ_b vir_b,
                e = [occ_a; vir_a; occ_b; vir_b] /\
                0 <= occ_a < vir_a /\ vir_a < occ_b /\ occ_b < vir_b /\
                vir_b < n_spin_orbs))
         (excitations n_spin_orbs na nb).
Proof.
  unfold excitations, Py.range, Py.int_div.
  assert (Hquot : 0 <= n_spin_orbs -> 0 <= Z.quot n_spin_orbs 2 <= n_spin_orbs).
  { intros Hn. rewrite Z.quot_div_nonneg by lia.
    split; [apply Z.div_pos; lia|]. apply Z.div_le_upper_bound; lia. }
  assert (Hneg : n_spin_orbs < 0 -> n_spin_orbs <= Z.quot n_spin_orbs 2 <= 0).
  { intros Hn. pose proof (Z.quot_opp_l n_spin_orbs 2 ltac:(lia)) as Hopp.
    assert (Hb : 0 <= Z.quot (- n_spin_orbs) 2 <= - n_spin_orbs).
    { rewrite Z.quot_div_nonneg by lia.
      split; [apply Z.div_pos; lia|]. apply Z.div_le_upper_bound; lia. }
    lia. }
  set (h := Z.quot n_spin_orbs 2) in *.
  apply Forall_forall. intros e He.
  rewrite !elem_of_app in He. destruct He as [He|[He|He]].
  - apply list_elem_of_In, in_flat_map in He as (occ & Hocc & He).
    apply list_elem_of_In, list_elem_of_fmap in He as (vir & -> & Hvir).
    apply list_elem_of_In, elem_of_range2 in Hocc. apply elem_of_range2 in Hvir.
    left. exists occ, vir. split; [reflexivity|].
    destruct (Z_lt_ge_dec n_spin_orbs 0); [specialize (Hneg ltac:(lia))
                                          |specialize (Hquot ltac:(lia))]; lia.
  - apply list_elem_of_In, in_flat_map in He as (occ & Hocc & He).
    apply list_elem_of_In, list_elem_of_fmap in He as (vir & -> & Hvir).
    apply list_elem_of_In, elem_of_range2 in Hocc. apply elem_of_range2 in Hvir.
    left. exists occ, vir. split; [reflexivity|].
    destruct (Z_lt_ge_dec n_spin_orbs 0); [specialize (Hneg ltac:(lia))
                                          |specialize (Hquot ltac:(lia))]; lia.
  - apply list_elem_of_In, in_flat_map in He as (occ_a & Hocc_a & He).
    apply in_flat_map in He as (vir_a & Hvir_a & He).
    apply in_flat_map in He as (occ_b & Hocc_b & He).
    apply list_elem_of_In, list_elem_of_fmap in He as (vir_b & -> & Hvir_b).
    apply list_elem_of_In, elem_of_range2 in Hocc_a, Hvir_a, Hocc_b.
    apply elem_of_range2 in Hvir_b.
    right. exists occ_a, vir_a, occ_b, vir_b. split; [reflexivity|]. lia.
Qed.

(** ** The grouping loop on any dictionary *)

Lemma sublist_app_prefix {A} (l1 l2 l : list A) :
  sublist (l1 ++ l2) l -> sublist l1 l.
Proof.
  intros H. etransitivity; [|exact H]. apply sublist_inserts_r. reflexivity.
Qed.

Lemma homogeneous_snoc (group : list Term) (ext : string) (coeff first : float) (e : string)
    (others : list Term) :
  group = (e, first) :: others ->
  homogeneous group ->
  far_apart coeff first = false ->
  above_sentinel first = false ->
  homogeneous (group ++ [(ext, coeff)]).
Proof.
  intros -> [Hall _] Hnear Hbelow. cbn. split.
  - apply Forall_app. split; [exact Hall|]. constructor; [exact Hnear | constructor].
  - intros _. exact Hbelow.
Qed.

Lemma group_step_invariant (g : Grouping) (seen : PauliDict) (item : string * float) :
  grouping_invariant g seen ->
  exists g', group_step g item = Ok g' /\ grouping_invariant g' (seen ++ [item]).
Proof.
  intros (Hsub & Hdone & Hcur & Hfirst). destruct item as [ext coeff].
  unfold group_step.
  change (PrimFloat.ltb 1e4 (cur_coeff g)) with (above_sentinel (cur_coeff g)).
  change (PrimFloat.ltb _ (PrimFloat.abs (PrimFloat.sub (PrimFloat.abs coeff)
                                            (PrimFloat.abs (cur_coeff g)))))
    with (far_apart coeff (cur_coeff g)).
  destruct (above_sentinel (cur_coeff g)) eqn:Habove.
  - eexists. split; [reflexivity|]. unfold grouping_invariant.
    cbn [pauli_list cur_list cur_coeff]. split; [|split; [|split; [|split]]].
    + apply sublist_app; [|reflexivity]. eapply sublist_app_prefix. exact Hsub.
    + exact Hdone.
    + split; [constructor|]. intros Habs. exfalso. apply Habs. reflexivity.
    + reflexivity.
    + rewrite last_snoc. reflexivity.
  - destruct (cur_list g) as [|[e first] others] eqn:Ecur.
    { destruct Hfirst as [Htrue _]. congruence. }
    destruct Hfirst as [-> Hlast].
    destruct (far_apart coeff (cur_coeff g)) eqn:Hfar.
    + cbn [from_list]. eexists. split; [reflexivity|]. unfold grouping_invariant.
      cbn [pauli_list cur_list cur_coeff]. split; [|split; [|split; [|split]]].
      * rewrite map_app, concat_app. cbn [map concat to_list].
        rewrite (app_nil_r (_ :: _)). apply sublist_app; [exact Hsub | reflexivity].
      * apply Forall_app. split; [exact Hdone|].
        constructor; [|constructor]. cbn [to_list]. split; [discriminate | exact Hcur].
      * split; [constructor|]. intros Habs. exfalso. apply Habs. reflexivity.
      * reflexivity.
      * rewrite last_snoc. reflexivity.
    + eexists. split; [reflexivity|]. unfold grouping_invariant.
      cbn [pauli_list cur_list cur_coeff]. split; [|split; [|split; [|split]]].
      * rewrite app_assoc. apply sublist_app; [exact Hsub | reflexivity].
      * exact Hdone.
      * eapply homogeneous_snoc; [reflexivity | exact Hcur | exact Hfar | exact Habove].
      * reflexivity.
      * change (((e, cur_coeff g) :: others) ++ [(ext, coeff)])
          with ((e, cur_coeff g) :: others ++ [(ext, coeff)]).
        change (last ((e, cur_coeff g) :: others ++ [(ext, coeff)]))
          with (last (((e, cur_coeff g) :: others) ++ [(ext, coeff)])).
        rewrite !last_snoc. reflexivity.
Qed.

Lemma group_loop_invariant (items : PauliDict) :
  forall (g : Grouping) (seen : PauliDict),
    grouping_invariant g seen ->
    exists g', fold_result group_step items g = Ok g' /\
               grouping_invariant g' (seen ++ items).
Proof.
  induction items as [|item items IH]; intros g seen Hinv.
  - exists g. split; [reflexivity|]. rewrite app_nil_r. exact Hinv.
  - destruct (group_step_invariant g seen item Hinv) as (g1 & Hstep & Hinv1).
    destruct (IH g1 (seen ++ [item]) Hinv1) as (g' & Hfold & Hinv').
    exists g'. cbn [fold_result]. rewrite Hstep. split; [exact Hfold|].
    rewrite <- app_assoc in Hinv'. exact Hinv'.
Qed.

Lemma initial_grouping_invariant :
  grouping_invariant {| pauli_list := []; cur_coeff := 1e5; cur_list := [] |} [].
Proof.
  unfold grouping_invariant. cbn [pauli_list cur_list cur_coeff map concat app].
  repeat split; try constructor.
Qed.

(** The whole of [group_excitations] on a non-empty dictionary: it never
    fails, and its groups are non-empty, homogeneous, drawn from the
    dictionary in order, and end with the dictionary's last entry. *)
Lemma group_excitations_sound (ansatz_dict : PauliDict) :
  ansatz_dict <> [] ->
  exists groups,
    group_excitations ansatz_dict = Ok groups /\
    groups <> [] /\
    Forall (fun op => to_list op <> [] /\ homogeneous (to_list op)) groups /\
    sublist (concat (map to_list groups)) ansatz_dict /\
    last (concat (map to_list groups)) = last ansatz_dict.
Proof.
  intros Hne. unfold group_excitations.
  destruct (group_loop_invariant ansatz_dict _ [] initial_grouping_invariant)
    as (g & Hfold & Hsub & Hdone & Hcur & Hfirst).
  cbn [app] in *. rewrite Hfold.
  destruct (cur_list g) as [|[e first] others] eqn:Ecur.
  { destruct Hfirst as [_ Hnil]. congruence. }
  cbn [from_list]. eexists. split; [reflexivity|]. split; [|split; [|split]].
  - intros Habs. apply app_eq_nil in Habs as [_ Habs]. discriminate.
  - apply Forall_app. split; [exact Hdone|].
    constructor; [|constructor]. cbn [to_list]. split; [discriminate | exact Hcur].
  - rewrite map_app, concat_app. cbn [map concat to_list].
    rewrite (app_nil_r (_ :: _)). exact Hsub.
  - rewrite map_app, concat_app. cbn [map concat to_list].
    rewrite (app_nil_r (_ :: _)).
    destruct Hfirst as [_ Hlast]. rewrite <- Hlast.
    apply last_app_cons.
Qed.

Lemma groups_from_boundaries (rest : PauliDict) :
  forall (first : float) (cur : list Term) (e0 : string) (cur' : list Term),
    cur = (e0, first) :: cur' ->
    boundaries_far (groups_from first cur rest) /\
    exists r gs, groups_from first cur rest = ((e0, first) :: r) :: gs.
Proof.
  induction rest as [|[ext coeff] rest IH]; intros first cur e0 cur' ->; cbn [groups_from].
  - split; [|eexists _, _; reflexivity].
    intros i g1 g2 _ H2. destruct i; discriminate H2.
  - destruct (far_apart coeff first) eqn:Hfar.
    + destruct (IH coeff [(ext, coeff)] ext [] eq_refl) as (Hb & r & gs & Hgs).
      split; [|eexists _, _; reflexivity].
      intros i g1 g2 H1 H2. destruct i as [|i].
      * cbn in H1, H2. injection H1 as <-. rewrite Hgs in H2. cbn in H2.
        injection H2 as <-. eexists _, _, _, _.
        split; [reflexivity|]. split; [reflexivity|]. exact Hfar.
      * cbn in H1, H2. exact (Hb i g1 g2 H1 H2).
    + exact (IH first (((e0, first) :: cur') ++ [(ext, coeff)]) e0
               (cur' ++ [(ext, coeff)]) eq_refl).
Qed.

Lemma groups_by_magnitude_boundaries (ansatz_dict : PauliDict) :
  boundaries_far (groups_by_magnitude ansatz_dict).
Proof.
  destruct ansatz_dict as [|[ext coeff] rest]; cbn [groups_by_magnitude].
  - intros i g1 g2 H1 _. destruct i; discriminate H1.
  - exact (proj1 (groups_from_boundaries rest coeff [(ext, coeff)] ext [] eq_refl)).
Qed.

Section Reading.

Variable ansatzes : gmap string PauliDict.
Variable Hamiltonians : gmap string PauliDict.

(** On a file that is well formed if it is there, [readPauliExcitation]
    fails in exactly two cases, a missing file and an empty dictionary, and
    it never changes the interpreter state. *)
Theorem readPauliExcitation_failures (norb circuit_id : Z) (s : State) :
  (forall ansatz_dict,
      ansatzes !! ansatz_path norb circuit_id = Some ansatz_dict ->
      well_formed norb ansatz_dict) ->
  let outcome := readPauliExcitation ansatzes norb circuit_id s in
  snd outcome = s /\
  (ansatzes !! ansatz_path norb circuit_id = None <->
   fst outcome = Raise (FileNotFoundError (ansatz_path norb circuit_id))) /\
  (ansatzes !! ansatz_path norb circuit_id = Some [] <->
   fst outcome = Raise QiskitError) /\
  ((exists e, fst outcome = Raise e) <->
   ansatzes !! ansatz_path norb circuit_id = None \/
   ansatzes !! ansatz_path norb circuit_id = Some []).
Proof.
  intros _. cbv zeta. unfold readPauliExcitation, bind, lift, load.
  fold (ansatz_path norb circuit_id).
  destruct (ansatzes !! ansatz_path norb circuit_id) as [d|] eqn:Hfile; cbn [fst snd].
  - split; [reflexivity|].
    destruct (decide (d = [])) as [->|Hne].
    + cbn. split; [split; discriminate|]. split; [split; reflexivity|].
      split; [intros _; right; reflexivity | intros _; eexists; reflexivity].
    + destruct (group_excitations_sound d Hne) as (groups & -> & _).
      split; [split; discriminate|]. split; [split; [congruence | discriminate]|].
      split; [intros [e He]; discriminate He | intros [H|H]; congruence].
  - split; [reflexivity|]. split; [split; reflexivity|].
    split; [split; discriminate|].
    split; [intros _; left; reflexivity | intros _; eexists; reflexivity].
Qed.

(** On any non-empty well-formed dictionary [readPauliExcitation] returns
    at least one group; no group is empty; inside a group every later coefficient is
    within 1e-4, in magnitude, of the first; the entries of the groups, read
    in order, are entries of the dictionary in file order, and the last entry
    of the dictionary is the last entry of the last group. *)
Theorem readPauliExcitation_groups_sound (norb circuit_id : Z) (s : State)
    (ansatz_dict : PauliDict) :
  ansatzes !! ansatz_path norb circuit_id = Some ansatz_dict ->
  ansatz_dict <> [] ->
  well_formed norb ansatz_dict ->
  exists groups,
    readPauliExcitation ansatzes norb circuit_id s = (Ok groups, s) /\
    groups <> [] /\
    Forall (fun op => to_list op <> [] /\ homogeneous (to_list op)) groups /\
    sublist (concat (map to_list groups)) ansatz_dict /\
    last (concat (map to_list groups)) = last ansatz_dict.
Proof.
  intros Hfile Hne _.
  destruct (group_excitations_sound ansatz_dict Hne) as (groups & Hrun & Hprops).
  exists groups. split; [|exact Hprops].
  rewrite (readPauliExcitation_run ansatzes norb circuit_id s ansatz_dict Hfile), Hrun.
  reflexivity.
Qed.

(** When, besides, no coefficient of the dictionary is above 1e4, the groups
    are a partition of the dictionary into consecutive runs: they
    concatenate to the dictionary, and the first coefficients of two
    consecutive groups are more than 1e-4 apart in magnitude. *)
Theorem readPauliExcitation_partition (norb circuit_id : Z) (s : State)
    (ansatz_dict : PauliDict) :
  ansatzes !! ansatz_path norb circuit_id = Some ansatz_dict ->
  ansatz_dict <> [] ->
  well_formed norb ansatz_dict ->
  Forall (fun t => above_sentinel (snd t) = false) ansatz_dict ->
  exists groups,
    readPauliExcitation ansatzes norb circuit_id s = (Ok groups, s) /\
    concat (map to_list groups) = ansatz_dict /\
    Forall (fun op => to_list op <> []) groups /\
    boundaries_far (map to_list groups).
Proof.
  intros Hfile Hne _ Hbelow.
  destruct (group_excitations_below_sentinel ansatz_dict Hne Hbelow)
    as (Hrun & Hconcat & Hnonempty).
  exists (map SparsePauliOp_of (groups_by_magnitude ansatz_dict)).
  assert (Hmap : map to_list (map SparsePauliOp_of (groups_by_magnitude ansatz_dict))
                 = groups_by_magnitude ansatz_dict).
  { rewrite map_map. cbn [to_list]. apply map_id. }
  split; [|split; [|split]].
  - rewrite (readPauliExcitation_run ansatzes norb circuit_id s ansatz_dict Hfile), Hrun.
    reflexivity.
  - rewrite Hmap. exact Hconcat.
  - apply Forall_fmap. eapply Forall_impl; [exact Hnonempty|].
    intros g Hg. exact Hg.
  - rewrite Hmap. apply groups_by_magnitude_boundaries.
Qed.

(** On a file that is well formed if it is there, [ReadHamiltonian] returns
    the terms of the file in file order; it fails for a missing file and for
    an empty dictionary, and it never changes the interpreter state. *)
Theorem ReadHamiltonian_outcome (nqubit : Z) (s : State) :
  (forall ham_dict,
      Hamiltonians !! hamiltonian_path nqubit = Some ham_dict ->
      well_formed nqubit ham_dict) ->
  ReadHamiltonian Hamiltonians nqubit s
  = (match Hamiltonians !! hamiltonian_path nqubit with
     | None => Raise (FileNotFoundError (hamiltonian_path nqubit))
     | Some [] => Raise QiskitError
     | Some (t :: ham_dict) => Ok (SparsePauliOp_of (t :: ham_dict))
     end, s).
Proof.
  intros _. unfold ReadHamiltonian, bind, lift, load. fold (hamiltonian_path nqubit).
  destruct (Hamiltonians !! hamiltonian_path nqubit) as [d|]; [|reflexivity].
  rewrite (fold_left_snoc d []). cbn [app]. destruct d; reflexivity.
Qed.

End Reading.

Lemma readPauliExcitation_failures_witness :
  let outcome := readPauliExcitation Sample.ansatzes 4 1 initial_state in
  snd outcome = initial_state /\
  (Sample.ansatzes !! ansatz_path 4 1 = None <->
   fst outcome = Raise (FileNotFoundError (ansatz_path 4 1))) /\
  (Sample.ansatzes !! ansatz_path 4 1 = Some [] <->
   fst outcome = Raise QiskitError) /\
  ((exists e, fst outcome = Raise e) <->
   Sample.ansatzes !! ansatz_path 4 1 = None \/
   Sample.ansatzes !! ansatz_path 4 1 = Some []).
Proof.
  apply (readPauliExcitation_failures Sample.ansatzes 4 1 initial_state).
  intros ansatz_dict H. vm_compute in H. discriminate H.
Defined.

Lemma ReadHamiltonian_outcome_witness :
  ReadHamiltonian Sample.Hamiltonians 4 initial_state
  = (match Sample.Hamiltonians !! hamiltonian_path 4 with
     | None => Raise (FileNotFoundError (hamiltonian_path 4))
     | Some [] => Raise QiskitError
     | Some (t :: ham_dict) => Ok (SparsePauliOp_of (t :: ham_dict))
     end, initial_state).
Proof.
  apply (ReadHamiltonian_outcome Sample.Hamiltonians 4 initial_state).
  intros ham_dict H. vm_compute in H. injection H as <-. repeat constructor.
Defined.

Lemma readPauliExcitation_groups_sound_witness :
  exists groups,
    readPauliExcitation Sample.ansatzes 4 0 initial_state = (Ok groups, initial_state) /\
    groups <> [] /\
    Forall (fun op => to_list op <> [] /\ homogeneous (to_list op)) groups /\
    sublist (concat (map to_list groups)) Sample.ansatz /\
    last (concat (map to_list groups)) = last Sample.ansatz.
Proof.
  apply (readPauliExcitation_groups_sound Sample.ansatzes 4 0 initial_state Sample.ansatz).
  - reflexivity.
  - discriminate.
  - repeat constructor.
Defined.

Lemma readPauliExcitation_partition_witness :
  exists groups,
    readPauliExcitation Sample.ansatzes 4 0 initial_state = (Ok groups, initial_state) /\
    concat (map to_list groups) = Sample.ansatz /\
    Forall (fun op => to_list op <> []) groups /\
    boundaries_far (map to_list groups).
Proof.
  apply (readPauliExcitation_partition Sample.ansatzes 4 0 initial_state Sample.ansatz).
  - reflexivity.
  - discriminate.
  - repeat constructor.
  - repeat constructor.
Defined.

(** ** The Hartree-Fock circuit on any electron numbers *)

(** For electron numbers whose qubits exist ([na <= norb] and
    [norb/2 + nb <= norb]), [HartreeFock] puts [max(0, na)] plus
    [max(0, nb)] X gates on the new circuit: one on each of the qubits
    0 .. na-1 and one on each of the qubits norb/2 .. norb/2+nb-1.  A qubit
    in both ranges, which needs [na > norb/2], gets two X gates. *)
Theorem HartreeFock_gate_count (norb na nb : Z) (s : State) :
  0 <= norb -> na <= norb -> Py.int_div norb 2 + nb <= norb ->
  exists s' c,
    HartreeFock norb na nb s = (Ok (length (heap s)), s') /\
    heap s' = heap s ++ [c] /\
    length (qc_data c) = (Z.to_nat na + Z.to_nat nb)%nat /\
    forall q,
      x_gates_on q (qc_data c)
      = Nat.add
          (if (0 <=? q) && (q <? na) then 1%nat else 0%nat)
          (if (Py.int_div norb 2 <=? q) && (q <? Py.int_div norb 2 + nb)
           then 1%nat else 0%nat).
Proof.
  intros _ _ _.
  rewrite HartreeFock_run. eexists _, _. split; [reflexivity|].
  cbn [heap with_Hf_ with_heap]. split; [reflexivity|].
  cbn [set_data qc_data]. unfold hartree_fock_gates. split.
  - rewrite length_app, !length_map, !length_range2. lia.
  - intros q. rewrite x_gates_on_app, !x_gates_on_range2. reflexivity.
Qed.

Lemma HartreeFock_gate_count_witness :
  exists s' c,
    HartreeFock 4 3 1 initial_state = (Ok (length (heap initial_state)), s') /\
    heap s' = heap initial_state ++ [c] /\
    length (qc_data c) = (Z.to_nat 3 + Z.to_nat 1)%nat /\
    forall q,
      x_gates_on q (qc_data c)
      = Nat.add
          (if (0 <=? q) && (q <? 3) then 1%nat else 0%nat)
          (if (Py.int_div 4 2 <=? q) && (q <? Py.int_div 4 2 + 1)
           then 1%nat else 0%nat).
Proof.
  apply (HartreeFock_gate_count 4 3 1 initial_state); vm_compute; discriminate.
Defined.

(** ** More on the expectation circuit *)

Lemma rotation_nil_iff (nqubit : Z) (positions : list (Z * ascii)) :
  flat_map (rotation_for nqubit) positions = [] <->
  forallb is_diagonal (map snd positions) = true.
Proof.
  induction positions as [|[i p] positions IH]; cbn [flat_map map forallb snd].
  - split; reflexivity.
  - unfold rotation_for at 1, is_diagonal at 1.
    destruct (Ascii.eqb p "X"); [split; discriminate|].
    destruct (Ascii.eqb p "Y"); [split; discriminate|].
    cbn [app negb andb]. exact IH.
Qed.

Section MoreExpectation.

Variable str_float : float -> string.

(** When the qubits addressed exist (the Pauli string is no longer than
    [nqubit], which is at most the size of [qc]): for a diagonal term, and
    only then, the circuit returned is the copy of [qc] followed by the
    barrier and the measurements, with no gate in between. *)
Theorem ExpectationCircuit_diagonal (qc : ref) (pauli : SparsePauliOp) (nqubit : Z)
    (s : State) (c : QuantumCircuit) (PauliString : string) (coeff : float)
    (others : list Term) :
  heap s !! qc = Some c ->
  to_list pauli = (PauliString, coeff) :: others ->
  Z.of_nat (String.length PauliString) <= nqubit ->
  nqubit <= qc_num_qubits c ->
  exists s' raw is_diag,
    ExpectationCircuit str_float qc pauli nqubit s = (Ok (length (heap s), is_diag), s') /\
    heap s' !! length (heap s) = Some raw /\
    (is_diag = true <->
     qc_data raw = qc_data c ++ measurements (qc_num_qubits c) (qc_num_clbits c)).
Proof.
  intros Hqc Hterms _ _.
  rewrite (ExpectationCircuit_run str_float qc pauli nqubit s c PauliString coeff others
             Hqc Hterms).
  eexists _, _, _. split; [reflexivity|].
  cbn [heap with_QC_ with_heap]. split; [apply lookup_new|].
  unfold set_name, measure_all, set_data, basis_rotation, measurements.
  cbn [qc_data qc_num_qubits qc_num_clbits].
  rewrite <- (enumerate_snd (list_ascii_of_string PauliString)) at 1.
  rewrite <- rotation_nil_iff. split.
  - intros ->. rewrite app_nil_r. reflexivity.
  - intros Heq. rewrite <- app_assoc in Heq. apply app_inv_head in Heq.
    change (Apply Barrier ?qs [] :: ?ms) with ([] ++ Apply Barrier qs [] :: ms) in Heq at 2.
    apply app_inv_tail in Heq. exact Heq.
Qed.

(** When the Pauli string is no longer than [nqubit], and [nqubit] is at
    most the size of [qc], every basis-rotation gate is an H or an Sdg on a
    single qubit in the range 0 .. nqubit-1. *)
Theorem ExpectationCircuit_rotation_targets (qc : ref) (pauli : SparsePauliOp)
    (nqubit : Z) (s : State) (c : QuantumCircuit) (PauliString : string)
    (coeff : float) (others : list Term) :
  heap s !! qc = Some c ->
  to_list pauli = (PauliString, coeff) :: others ->
  Z.of_nat (String.length PauliString) <= nqubit ->
  nqubit <= qc_num_qubits c ->
  exists s' raw is_diag rotations,
    ExpectationCircuit str_float qc pauli nqubit s = (Ok (length (heap s), is_diag), s') /\
    heap s' !! length (heap s) = Some raw /\
    qc_data raw
    = qc_data c ++ rotations ++ measurements (qc_num_qubits c) (qc_num_clbits c) /\
    Forall (fun a => exists gate q,
                a = Apply gate [q] [] /\ (gate = HGate \/ gate = SdgGate) /\
                0 <= q < nqubit) rotations.
Proof.
  intros Hqc Hterms Hlen _.
  rewrite (ExpectationCircuit_run str_float qc pauli nqubit s c PauliString coeff others
             Hqc Hterms).
  eexists _, _, _, (basis_rotation nqubit PauliString). split; [reflexivity|].
  cbn [heap with_QC_ with_heap]. split; [apply lookup_new|]. split.
  - unfold set_name, measure_all, set_data, measurements.
    cbn [qc_data qc_num_qubits qc_num_clbits]. rewrite <- app_assoc. reflexivity.
  - unfold basis_rotation. apply Forall_forall. intros a Ha.
    apply list_elem_of_In, in_flat_map in Ha as ([i p] & Hpos & Ha).
    apply list_elem_of_In, elem_of_enumerate in Hpos.
    rewrite length_list_ascii_of_string in Hpos.
    unfold rotation_for in Ha.
    destruct (Ascii.eqb p "X").
    + apply list_elem_of_In, list_elem_of_singleton in Ha as ->.
      eexists _, _. split; [reflexivity|]. split; [left; reflexivity | lia].
    + destruct (Ascii.eqb p "Y"); [|destruct Ha].
      apply list_elem_of_In in Ha. rewrite !elem_of_cons in Ha.
      destruct Ha as [->|[->|Ha]]; [| |inversion Ha];
        eexists _, _; (split; [reflexivity|]); (split; [auto | lia]).
Qed.

(** With a valid circuit, and qubits that exist for the first term if
    there is one, [ExpectationCircuit] fails exactly when the operator has
    no term, with an [IndexError]; the copy of [qc] has been allocated by
    then, and [QC_] is left alone. *)
Theorem ExpectationCircuit_failure (qc : ref) (pauli : SparsePauliOp) (nqubit : Z)
    (s : State) (c : QuantumCircuit) :
  heap s !! qc = Some c ->
  (forall PauliString coeff others,
      to_list pauli = (PauliString, coeff) :: others ->
      Z.of_nat (String.length PauliString) <= nqubit <= qc_num_qubits c) ->
  let outcome := ExpectationCircuit str_float qc pauli nqubit s in
  ((exists e, fst outcome = Raise e) <-> to_list pauli = []) /\
  (to_list pauli = [] ->
   outcome = (Raise IndexError, with_heap (heap s ++ [c]) s)).
Proof.
  intros Hqc _ outcome. subst outcome.
  destruct (to_list pauli) as [|[PauliString coeff] others] eqn:Hterms.
  - assert (Hrun : ExpectationCircuit str_float qc pauli nqubit s
                   = (Raise IndexError, with_heap (heap s ++ [c]) s)).
    { unfold ExpectationCircuit, bind, deref, new, lift. rewrite Hqc, Hterms.
      reflexivity. }
    rewrite Hrun. split; [|reflexivity].
    split; [reflexivity | intros _; eexists; reflexivity].
  - rewrite (ExpectationCircuit_run str_float qc pauli nqubit s c PauliString coeff
               others Hqc Hterms).
    cbn [fst]. split; [|discriminate].
    split; [intros [e He]; discriminate He | discriminate].
Qed.

End MoreExpectation.

Lemma ExpectationCircuit_diagonal_witness :
  exists s' raw is_diag,
    ExpectationCircuit Sample.str_float 0%nat (SparsePauliOp_of [("ZIIZ", 0.25%float)]) 4
      Sample.state2
    = (Ok (length (heap Sample.state2), is_diag), s') /\
    heap s' !! length (heap Sample.state2) = Some raw /\
    (is_diag = true <->
     qc_data raw
     = qc_data Sample.circuit2
         ++ measurements (qc_num_qubits Sample.circuit2) (qc_num_clbits Sample.circuit2)).
Proof.
  apply (ExpectationCircuit_diagonal Sample.str_float 0%nat
           (SparsePauliOp_of [("ZIIZ", 0.25%float)]) 4 Sample.state2 Sample.circuit2
           "ZIIZ" 0.25%float []).
  - reflexivity.
  - reflexivity.
  - vm_compute. discriminate.
  - vm_compute. discriminate.
Defined.

Lemma ExpectationCircuit_rotation_targets_witness :
  exists s' raw is_diag rotations,
    ExpectationCircuit Sample.str_float 0%nat (SparsePauliOp_of [("XYZI", 0.25%float)]) 4
      Sample.state2
    = (Ok (length (heap Sample.state2), is_diag), s') /\
    heap s' !! length (heap Sample.state2) = Some raw /\
    qc_data raw
    = qc_data Sample.circuit2 ++ rotations
        ++ measurements (qc_num_qubits Sample.circuit2) (qc_num_clbits Sample.circuit2) /\
    Forall (fun a => exists gate q,
                a = Apply gate [q] [] /\ (gate = HGate \/ gate = SdgGate) /\
                0 <= q < 4) rotations.
Proof.
  apply (ExpectationCircuit_rotation_targets Sample.str_float 0%nat
           (SparsePauliOp_of [("XYZI", 0.25%float)]) 4 Sample.state2 Sample.circuit2
           "XYZI" 0.25%float []).
  - reflexivity.
  - reflexivity.
  - vm_compute. discriminate.
  - vm_compute. discriminate.
Defined.

Lemma ExpectationCircuit_failure_witness :
  let outcome :=
    ExpectationCircuit Sample.str_float 0%nat (SparsePauliOp_of []) 4 Sample.state2 in
  ((exists e, fst outcome = Raise e) <-> to_list (SparsePauliOp_of []) = []) /\
  (to_list (SparsePauliOp_of []) = [] ->
   outcome = (Raise IndexError,
              with_heap (heap Sample.state2 ++ [Sample.circuit2]) Sample.state2)).
Proof.
  apply (ExpectationCircuit_failure Sample.str_float 0%nat (SparsePauliOp_of []) 4
           Sample.state2 Sample.circuit2).
  - reflexivity.
  - intros PauliString coeff others H. discriminate H.
Defined.

(** ** More on the result analysis *)

Lemma fold_result_app {A B} (body : B -> A -> Result B) (l1 l2 : list A) (acc : B) :
  fold_result body (l1 ++ l2) acc
  = match fold_result body l1 acc with
    | Ok acc' => fold_result body l2 acc'
    | Raise e => Raise e
    end.
Proof.
  revert acc. induction l1 as [|x l1 IH]; intros acc; cbn [app fold_result].
  - reflexivity.
  - destruct (body acc x); [apply IH | reflexivity].
Qed.

Lemma combine_app_same_length {A B} (l1 l2 : list A) (k1 k2 : list B) :
  length l1 = length k1 ->
  combine (l1 ++ l2) (k1 ++ k2) = combine l1 k1 ++ combine l2 k2.
Proof.
  revert k1. induction l1 as [|x l1 IH]; intros [|y k1] Hlen; cbn in *;
    try discriminate; [reflexivity|].
  f_equal. apply IH. lia.
Qed.

Section MoreAnalysis.

Variable precalculated_data : gmap string (gmap string Reference).
Variable accuracy_ratio_fidelity : ExpVal -> float -> float -> float -> gmap string float.

(** The method-2 loop over the pairs [zip] yields. *)
Lemma add_term_fidelity_zip (references : gmap string Reference)
    (vals : list float) (terms : list Term) (fids : list float) :
  Forall2 (fun item f =>
             exists reference,
               references !! fst (snd item) = Some reference /\
               accuracy_ratio_fidelity (Scalar (fst item)) (ref_exact reference)
                 (ref_min reference) (ref_max reference) !! "fidelity" = Some f)
          (combine vals terms) fids ->
  forall total,
    fold_result (add_term_fidelity accuracy_ratio_fidelity references)
      (combine (map Scalar vals) terms) total
    = Ok (fold_left PrimFloat.add fids total).
Proof.
  revert terms fids. induction vals as [|val vals IH]; intros terms fids Hall total.
  - cbn in *. inversion Hall. reflexivity.
  - destruct terms as [|[pauli coeff] terms].
    + cbn in *. inversion Hall. reflexivity.
    + cbn [map combine] in *.
      inversion Hall as [|item f items fids' (reference & Href & Hf) Hrest]; subst.
      cbn [fold_result fold_left add_term_fidelity fst snd] in *.
      unfold dict_get. rewrite Href, Hf. apply IH. exact Hrest.
Qed.

(** The method-2 score when the numbers of expectation values and of terms
    differ: [zip] stops at the shorter of the two, so only the terms that
    have an expectation value contribute a fidelity, while the total is
    still divided by the number of terms of the operator. *)
Theorem method2_zip_truncates (qc : ref) (result : ExecutionResult)
    (num_qubits : Z) (references : gmap string Reference) (shots : Z)
    (s : State) (c : QuantumCircuit) (qubit_op : SparsePauliOp)
    (vals fids : list float) :
  heap s !! qc = Some c ->
  qc_metadata c !! "method1" = None ->
  qc_metadata c !! "method2" = Some (MetaOp qubit_op) ->
  get_expectation_values result qc = Array vals ->
  to_list qubit_op <> [] ->
  Forall2 (fun item f =>
             exists reference,
               references !! fst (snd item) = Some reference /\
               accuracy_ratio_fidelity (Scalar (fst item)) (ref_exact reference)
                 (ref_min reference) (ref_max reference) !! "fidelity" = Some f)
          (combine vals (to_list qubit_op)) fids ->
  analyze_and_print_result accuracy_ratio_fidelity qc result num_qubits references shots s
  = (Ok {[ "fidelity" := PrimFloat.div (fold_left PrimFloat.add fids 0%float)
                           (Py.float_of_int
                              (Z.of_nat (length (to_list qubit_op)))) ]}, s) /\
  length fids = Nat.min (length vals) (length (to_list qubit_op)).
Proof.
  intros Hqc Hm1 Hm2 Hvals Hne Hfids. split.
  - change (Z.of_nat (length (to_list qubit_op))) with (size qubit_op).
    rewrite (analyze_run accuracy_ratio_fidelity qc result num_qubits references shots
               s c Hqc).
    rewrite Hm1, Hm2, Hvals. unfold score_method2.
    cbn [meta_to_list iterate and_then meta_size].
    rewrite (add_term_fidelity_zip references vals (to_list qubit_op) fids Hfids).
    cbn [and_then].
    destruct (Z.eqb_spec (size qubit_op) 0) as [Hzero|_]; [|reflexivity].
    unfold size in Hzero. destruct (to_list qubit_op); [congruence | discriminate].
  - apply Forall2_length in Hfids. rewrite <- Hfids. apply length_combine.
Qed.

(** The method-2 loop stops at the first term whose Pauli label has no
    reference entry, with a [KeyError] for that label. *)
Theorem method2_missing_reference (qc : ref) (result : ExecutionResult)
    (num_qubits : Z) (references : gmap string Reference) (shots : Z)
    (s : State) (c : QuantumCircuit) (qubit_op : SparsePauliOp)
    (vals_before : list float) (val : float) (vals_after : list float)
    (terms_before : list Term) (pauli : string) (coeff : float)
    (terms_after : list Term) (fids : list float) :
  heap s !! qc = Some c ->
  qc_metadata c !! "method1" = None ->
  qc_metadata c !! "method2" = Some (MetaOp qubit_op) ->
  get_expectation_values result qc = Array (vals_before ++ val :: vals_after) ->
  to_list qubit_op = terms_before ++ (pauli, coeff) :: terms_after ->
  Forall3 (fun v term f =>
             exists reference,
               references !! fst term = Some reference /\
               accuracy_ratio_fidelity (Scalar v) (ref_exact reference)
                 (ref_min reference) (ref_max reference) !! "fidelity" = Some f)
          vals_before terms_before fids ->
  references !! pauli = None ->
  analyze_and_print_result accuracy_ratio_fidelity qc result num_qubits references shots s
  = (Raise (KeyError pauli), s).
Proof.
  intros Hqc Hm1 Hm2 Hvals Hterms Hbefore Hmissing.
  rewrite (analyze_run accuracy_ratio_fidelity qc result num_qubits references shots
             s c Hqc).
  rewrite Hm1, Hm2, Hvals. unfold score_method2.
  cbn [meta_to_list iterate and_then]. rewrite Hterms, map_app.
  rewrite combine_app_same_length
    by (rewrite length_map; eapply Forall3_length_lm; exact Hbefore).
  rewrite fold_result_app.
  rewrite (add_term_fidelity_sum accuracy_ratio_fidelity references
             vals_before terms_before fids Hbefore).
  cbn [map combine fold_result add_term_fidelity]. unfold dict_get.
  rewrite Hmissing. reflexivity.
Qed.

(** Three ways the method-2 path fails before any fidelity is computed: the
    stored value is not an operator ([AttributeError]), the expectation
    values are a single number instead of an array ([TypeError]), and, with
    an array, the operator has no term ([ZeroDivisionError]). *)
Theorem method2_edge_cases (qc : ref) (result : ExecutionResult)
    (num_qubits : Z) (references : gmap string Reference) (shots : Z)
    (s : State) (c : QuantumCircuit) :
  heap s !! qc = Some c ->
  qc_metadata c !! "method1" = None ->
  let outcome :=
    analyze_and_print_result accuracy_ratio_fidelity qc result num_qubits
      references shots s in
  (forall name,
      qc_metadata c !! "method2" = Some (MetaStr name) ->
      outcome = (Raise AttributeError, s)) /\
  (forall qubit_op x,
      qc_metadata c !! "method2" = Some (MetaOp qubit_op) ->
      get_expectation_values result qc = Scalar x ->
      outcome = (Raise TypeError, s)) /\
  (forall qubit_op vals,
      qc_metadata c !! "method2" = Some (MetaOp qubit_op) ->
      get_expectation_values result qc = Array vals ->
      to_list qubit_op = [] ->
      outcome = (Raise ZeroDivisionError, s)).
Proof.
  intros Hqc Hm1 outcome. subst outcome.
  rewrite (analyze_run accuracy_ratio_fidelity qc result num_qubits references shots
             s c Hqc).
  rewrite Hm1. split; [|split].
  - intros name ->. reflexivity.
  - intros qubit_op x -> ->. reflexivity.
  - intros qubit_op vals -> -> Hnil. unfold score_method2.
    cbn [meta_to_list iterate and_then meta_size]. unfold size. rewrite Hnil.
    destruct vals; reflexivity.
Qed.

End MoreAnalysis.

Lemma method2_zip_truncates_witness :
  analyze_and_print_result Sample.accuracy_ratio_fidelity 0%nat
    {| get_expectation_values := fun _ => Array [0.25%float] |} 4
    Sample.references2 4092 Sample.state2
  = (Ok {[ "fidelity" := 0.5%float ]}, Sample.state2) /\
  length [1%float]
  = Nat.min (length [0.25%float])
      (length [("ZIII", 0.25%float); ("IZII", 0.125%float)]).
Proof.
  apply (method2_zip_truncates Sample.accuracy_ratio_fidelity 0%nat
           {| get_expectation_values := fun _ => Array [0.25%float] |} 4
           Sample.references2 4092 Sample.state2 Sample.circuit2 Sample.qubit_op
           [0.25%float] [1%float]).
  - reflexivity.
  - reflexivity.
  - reflexivity.
  - reflexivity.
  - discriminate.
  - repeat constructor.
    exists {| ref_exact := 0.25; ref_min := (-1)%float; ref_max := 1%float |}.
    split; vm_compute; reflexivity.
Defined.

Lemma method2_missing_reference_witness :
  analyze_and_print_result Sample.accuracy_ratio_fidelity 0%nat Sample.result 4
    {[ "ZIII" := {| ref_exact := 0.25; ref_min := (-1)%float; ref_max := 1%float |} ]}
    4092 Sample.state2
  = (Raise (KeyError "IZII"), Sample.state2).
Proof.
  apply (method2_missing_reference Sample.accuracy_ratio_fidelity 0%nat Sample.result 4
           {[ "ZIII" := {| ref_exact := 0.25; ref_min := (-1)%float;
                           ref_max := 1%float |} ]}
           4092 Sample.state2 Sample.circuit2 Sample.qubit_op
           [0.25%float] 0.0625%float [] [("ZIII", 0.25%float)] "IZII" 0.125%float []
           [1%float]).
  - reflexivity.
  - reflexivity.
  - reflexivity.
  - reflexivity.
  - reflexivity.
  - repeat constructor.
    exists {| ref_exact := 0.25; ref_min := (-1)%float; ref_max := 1%float |}.
    split; vm_compute; reflexivity.
  - vm_compute. reflexivity.
Defined.

Lemma method2_edge_cases_witness :
  let outcome :=
    analyze_and_print_result Sample.accuracy_ratio_fidelity 0%nat
      {| get_expectation_values := fun _ => Scalar 0.25%float |} 4
      Sample.references2 4092 Sample.state2 in
  (forall name,
      qc_metadata Sample.circuit2 !! "method2" = Some (MetaStr name) ->
      outcome = (Raise AttributeError, Sample.state2)) /\
  (forall qubit_op x,
      qc_metadata Sample.circuit2 !! "method2" = Some (MetaOp qubit_op) ->
      get_expectation_values
        {| get_expectation_values := fun _ => Scalar 0.25%float |} 0%nat = Scalar x ->
      outcome = (Raise TypeError, Sample.state2)) /\
  (forall qubit_op vals,
      qc_metadata Sample.circuit2 !! "method2" = Some (MetaOp qubit_op) ->
      get_expectation_values
        {| get_expectation_values := fun _ => Scalar 0.25%float |} 0%nat = Array vals ->
      to_list qubit_op = [] ->
      outcome = (Raise ZeroDivisionError, Sample.state2)).
Proof.
  apply (method2_edge_cases Sample.accuracy_ratio_fidelity 0%nat
           {| get_expectation_values := fun _ => Scalar 0.25%float |} 4
           Sample.references2 4092 Sample.state2 Sample.circuit2).
  - reflexivity.
  - reflexivity.
Defined.

(** ** More on the execution handler *)

Section MoreHandler.

Variable precalculated_data : gmap string (gmap string Reference).
Variable accuracy_ratio_fidelity : ExpVal -> float -> float -> float -> gmap string float.

(** The whole of [execution_handler], case by case. *)
Lemma execution_handler_run (qc : ref) (result : ExecutionResult)
    (num_qubits shots : Z) (s : State) (c : QuantumCircuit) :
  heap s !! qc = Some c ->
  execution_handler precalculated_data accuracy_ratio_fidelity qc result num_qubits shots s
  = match metadata_method c with
    | None => (Raise (RuntimeError "Either method 1 or 2 should be chosen"), s)
    | Some m =>
        match precalculated_data !! reference_path num_qubits m with
        | None => (Raise (FileNotFoundError (reference_path num_qubits m)), s)
        | Some references =>
            match fst (analyze_and_print_result accuracy_ratio_fidelity qc result
                         num_qubits references shots s) with
            | Raise e => (Raise e, s)
            | Ok fidelity =>
                (Ok tt,
                 with_stored_metrics
                   (stored_metrics s ++
                      [{| mc_group := num_qubits;
                          mc_circuit_id := default "" (metric_key c);
                          mc_metric := "fidelity"; mc_value := fidelity |}]) s)
            end
        end
    end.
Proof.
  intros Hqc. unfold execution_handler. unfold bind at 1. unfold deref at 1. rewrite Hqc.
  unfold metadata_method, metric_key.
  destruct (qc_metadata c !! "method1") as [total_name|] eqn:H1.
  - rewrite bool_decide_eq_true_2 by (eexists; reflexivity).
    unfold bind at 1, lift at 1, load.
    change ("../_common/precalculated_data_" ++ Py.str num_qubits
              ++ "_qubit_method1.json")%string
      with (reference_path num_qubits 1).
    destruct (precalculated_data !! reference_path num_qubits 1) as [references|];
      [|reflexivity].
    unfold bind at 1.
    rewrite (analyze_run accuracy_ratio_fidelity qc result num_qubits references shots
               s c Hqc).
    rewrite H1. cbn [fst].
    destruct (score_method1 _ _ _ _ _) as [fidelity|e] eqn:Hscore; [|reflexivity].
    unfold bind at 1, deref at 1. rewrite Hqc, H1.
    unfold score_method1, and_then in Hscore.
    destruct total_name as [name|op]; cbn [meta_split] in *; [|discriminate].
    unfold bind, lift, store_metric, update, getitem in *.
    cbn [Z.ltb Z.compare] in *. change (Z.to_nat 2) with 2%nat in *.
    destruct (Py.split name !! 2%nat) as [token|]; [|discriminate].
    reflexivity.
  - rewrite bool_decide_eq_false_2 by (intros [x Hx]; discriminate).
    destruct (qc_metadata c !! "method2") as [v|] eqn:H2.
    + rewrite bool_decide_eq_true_2 by (eexists; reflexivity).
      unfold bind at 1, lift at 1, load.
      change ("../_common/precalculated_data_" ++ Py.str num_qubits
                ++ "_qubit_method2.json")%string
        with (reference_path num_qubits 2).
      destruct (precalculated_data !! reference_path num_qubits 2) as [references|];
        [|reflexivity].
      unfold bind at 1.
      rewrite (analyze_run accuracy_ratio_fidelity qc result num_qubits references shots
                 s c Hqc).
      rewrite H1, H2. cbn [fst].
      destruct (score_method2 _ _ _ _) as [fidelity|e]; [|reflexivity].
      unfold bind at 1, deref at 1. rewrite Hqc, H1, H2.
      rewrite bool_decide_eq_true_2 by (eexists; reflexivity).
      reflexivity.
    + rewrite bool_decide_eq_false_2 by (intros [x Hx]; discriminate).
      reflexivity.
Qed.

(** The handler stores a metric only when it succeeds, and then exactly
    one, a "fidelity" under the given qubit count; when it fails the state is
    as before.  In either case the circuits, the globals and the submitted
    pubs are untouched. *)
Theorem execution_handler_effect (qc : ref) (result : ExecutionResult)
    (num_qubits shots : Z) (s : State) (c : QuantumCircuit) :
  heap s !! qc = Some c ->
  let outcome :=
    execution_handler precalculated_data accuracy_ratio_fidelity qc result
      num_qubits shots s in
  (forall e, fst outcome = Raise e -> snd outcome = s) /\
  (fst outcome = Ok tt ->
   exists key fidelity,
     snd outcome
     = with_stored_metrics
         (stored_metrics s ++
            [{| mc_group := num_qubits; mc_circuit_id := key;
                mc_metric := "fidelity"; mc_value := fidelity |}]) s /\
     stored_metrics (snd outcome)
     = stored_metrics s ++
         [{| mc_group := num_qubits; mc_circuit_id := key;
             mc_metric := "fidelity"; mc_value := fidelity |}]) /\
  heap (snd outcome) = heap s /\
  submitted (snd outcome) = submitted s /\
  (QC_ (snd outcome), Hf_ (snd outcome), CO_ (snd outcome), normalization (snd outcome))
  = (QC_ s, Hf_ s, CO_ s, normalization s).
Proof.
  intros Hqc outcome. subst outcome.
  rewrite (execution_handler_run qc result num_qubits shots s c Hqc).
  destruct (metadata_method c) as [m|].
  - destruct (precalculated_data !! reference_path num_qubits m) as [references|].
    + destruct (fst (analyze_and_print_result _ _ _ _ _ _ _)) as [fidelity|e];
        cbn [fst snd].
      * split; [discriminate|].
        split; [intros _; eexists _, _; split; reflexivity|].
        repeat split.
      * split; [reflexivity|]. split; [discriminate|]. repeat split.
    + cbn [fst snd]. split; [reflexivity|]. split; [discriminate|]. repeat split.
  - cbn [fst snd]. split; [reflexivity|]. split; [discriminate|]. repeat split.
Qed.

(** The handler raises [RuntimeError] exactly when the metadata has neither
    key, and [FileNotFoundError] exactly when the metadata selects a method
    whose reference file for this qubit count is missing. *)
Theorem execution_handler_failures (qc : ref) (result : ExecutionResult)
    (num_qubits shots : Z) (s : State) (c : QuantumCircuit) :
  heap s !! qc = Some c ->
  let outcome :=
    fst (execution_handler precalculated_data accuracy_ratio_fidelity qc result
           num_qubits shots s) in
  ((exists msg, outcome = Raise (RuntimeError msg)) <-> metadata_method c = None) /\
  ((exists path, outcome = Raise (FileNotFoundError path)) <->
   exists m, metadata_method c = Some m /\
             precalculated_data !! reference_path num_qubits m = None).
Proof.
  intros Hqc outcome. subst outcome.
  rewrite (execution_handler_run qc result num_qubits shots s c Hqc).
  destruct (metadata_method c) as [m|] eqn:Hm.
  - destruct (precalculated_data !! reference_path num_qubits m) as [references|] eqn:Hfile.
    + pose proof (analyze_run accuracy_ratio_fidelity qc result num_qubits references
                    shots s c Hqc) as Hrun.
      assert (Hnot : forall e,
                 fst (analyze_and_print_result accuracy_ratio_fidelity qc result
                        num_qubits references shots s) = Raise e ->
                 (forall msg, e <> RuntimeError msg) /\
                 (forall path, e <> FileNotFoundError path)).
      { intros e He. rewrite Hrun in He. cbn [fst] in He.
        unfold metadata_method in Hm.
        destruct (qc_metadata c !! "method1") as [total_name|].
        - split; intros x ->.
          + exact (score_method1_not_RuntimeError _ _ _ _ _ _ He).
          + revert He. unfold score_method1, and_then, meta_split, getitem, py_int, dict_get.
            destruct total_name as [name|op]; [|discriminate].
            destruct (if 2 <? 0 then None else Py.split name !! Z.to_nat 2) as [token|];
              [|discriminate].
            destruct (Py.int token) as [circuit_id|]; [|discriminate].
            destruct (references !! _) as [reference|]; discriminate.
        - destruct (qc_metadata c !! "method2") as [qubit_op|]; [|discriminate].
          split; intros x ->.
          + exact (score_method2_not_RuntimeError _ _ _ _ _ He).
          + revert He. unfold score_method2, and_then, meta_to_list, meta_size, iterate.
            destruct qubit_op as [name|op]; [discriminate|].
            destruct (get_expectation_values result qc) as [y|ys]; [discriminate|].
            destruct (fold_result _ _ _) as [total|e] eqn:Hfold.
            * destruct (size op =? 0); discriminate.
            * intros [= ->]. revert Hfold. generalize 0%float.
              generalize (combine (map Scalar ys) (to_list op)).
              intros items. induction items as [|[val [pauli coeff]] items IH];
                intros total; cbn [fold_result]; [discriminate|].
              unfold add_term_fidelity, dict_get.
              destruct (references !! pauli) as [reference|]; [|discriminate].
              destruct (_ !! "fidelity") as [f|]; [apply IH | discriminate]. }
      destruct (fst (analyze_and_print_result _ _ _ _ _ _ _)) as [fidelity|e] eqn:Hout;
        cbn [fst].
      * split; split; try discriminate.
        -- intros [msg Hmsg]. discriminate.
        -- intros [path Hpath]. discriminate.
        -- intros (m' & [= <-] & Hnone). congruence.
      * destruct (Hnot e eq_refl) as [Hrt Hfn]. split; split; try discriminate.
        -- intros [msg [= Hmsg]]. destruct (Hrt _ Hmsg).
        -- intros [path [= Hpath]]. destruct (Hfn _ Hpath).
        -- intros (m' & [= <-] & Hnone). congruence.
    + cbn [fst]. split; split; try discriminate.
      * intros [msg Hmsg]. discriminate.
      * intros _. exists m. split; [reflexivity | exact Hfile].
      * intros _. eexists. reflexivity.
  - cbn [fst]. split; split; try discriminate.
    + reflexivity.
    + intros _. eexists. reflexivity.
    + intros [path Hpath]. discriminate.
    + intros (m & Hm' & _). discriminate.
Qed.

End MoreHandler.

(** ** Writing and reading the circuit id *)

Lemma string_app_cons (x : ascii) (a b : string) :
  (String x a ++ b = String x (a ++ b))%string.
Proof. reflexivity. Qed.

Lemma string_app_nil_l (a : string) : ("" ++ a = a)%string.
Proof. reflexivity. Qed.

Lemma string_app_assoc (a b c : string) : ((a ++ b) ++ c = a ++ (b ++ c))%string.
Proof.
  induction a as [|x a IH]; [reflexivity|].
  rewrite !string_app_cons. f_equal. exact IH.
Qed.

Lemma string_app_nil_r (a : string) : (a ++ "" = a)%string.
Proof.
  induction a as [|x a IH]; [reflexivity|].
  rewrite string_app_cons. f_equal. exact IH.
Qed.

Lemma rev_app_rev_app (s t u : string) :
  String.rev_app (String.rev_app s t) u = String.rev_app t (s ++ u)%string.
Proof.
  revert t u. induction s as [|a s IH]; intros t u; [reflexivity|].
  cbn [String.rev_app]. rewrite IH, string_app_cons. reflexivity.
Qed.

Lemma string_rev_involutive (s : string) : String.rev (String.rev s) = s.
Proof.
  unfold String.rev. rewrite rev_app_rev_app. cbn [String.rev_app].
  apply string_app_nil_r.
Qed.

Lemma no_space_rev_app (s t : string) :
  no_space s = true -> no_space t = true -> no_space (String.rev_app s t) = true.
Proof.
  revert t. induction s as [|a s IH]; intros t Hs Ht; cbn in *; [exact Ht|].
  apply andb_prop in Hs as [Ha Hs]. apply IH; [exact Hs|]. cbn. rewrite Ha, Ht.
  reflexivity.
Qed.

Lemma lstrip_no_space (s : string) : no_space s = true -> Py.lstrip s = s.
Proof.
  destruct s as [|a s]; [reflexivity|]. cbn. intros H.
  apply andb_prop in H as [Ha _]. apply negb_true_iff in Ha. rewrite Ha. reflexivity.
Qed.

Lemma strip_no_space (s : string) : no_space s = true -> Py.strip s = s.
Proof.
  intros Hs. unfold Py.strip. rewrite (lstrip_no_space s Hs).
  rewrite lstrip_no_space by (apply no_space_rev_app; [exact Hs | reflexivity]).
  apply string_rev_involutive.
Qed.

Lemma no_space_app (s t : string) :
  no_space (s ++ t) = no_space s && no_space t.
Proof.
  induction s as [|a s IH]; [reflexivity|].
  rewrite string_app_cons. cbn [no_space]. rewrite IH, andb_assoc. reflexivity.
Qed.

Lemma no_space_uint (d : Decimal.uint) : no_space (NilEmpty.string_of_uint d) = true.
Proof. induction d; cbn; try reflexivity; exact IHd. Qed.

Lemma no_space_str (n : Z) : no_space (Py.str n) = true /\ Py.str n <> "".
Proof.
  unfold Py.str, NilZero.string_of_int, NilZero.string_of_uint.
  destruct (Z.to_int n) as [d|d]; destruct d; cbn; split;
    try reflexivity; try discriminate; apply no_space_uint.
Qed.

Lemma digits_uint (d : Decimal.uint) :
  forall (acc : Z) (rest : bool),
    (d <> Decimal.Nil \/ rest = true) ->
    Py.digits acc rest (NilEmpty.string_of_uint d) = Some (uint_value acc d).
Proof.
  induction d; intros acc rest Hne;
    try (cbn [NilEmpty.string_of_uint Py.digits uint_value];
         change (Py.digit _) with (Some 0) || change (Py.digit _) with (Some 1)
         || change (Py.digit _) with (Some 2) || change (Py.digit _) with (Some 3)
         || change (Py.digit _) with (Some 4) || change (Py.digit _) with (Some 5)
         || change (Py.digit _) with (Some 6) || change (Py.digit _) with (Some 7)
         || change (Py.digit _) with (Some 8) || change (Py.digit _) with (Some 9);
         cbv iota beta; apply IHd; right; reflexivity).
  cbn. destruct Hne as [Hne| ->]; [congruence | reflexivity].
Qed.

Lemma uint_value_acc (d : Decimal.uint) :
  forall acc : positive, uint_value (Zpos acc) d = Zpos (Pos.of_uint_acc d acc).
Proof.
  induction d; intros acc; cbn [uint_value Pos.of_uint_acc]; try reflexivity;
    rewrite <- IHd; f_equal; lia.
Qed.

Lemma uint_value_of_uint (d : Decimal.uint) : uint_value 0 d = Z.of_N (Pos.of_uint d).
Proof.
  induction d; cbn [uint_value Pos.of_uint]; try reflexivity;
    try exact IHd;
    change (10 * 0 + _) with (Zpos 1) || change (10 * 0 + _) with (Zpos 2)
    || change (10 * 0 + _) with (Zpos 3) || change (10 * 0 + _) with (Zpos 4)
    || change (10 * 0 + _) with (Zpos 5) || change (10 * 0 + _) with (Zpos 6)
    || change (10 * 0 + _) with (Zpos 7) || change (10 * 0 + _) with (Zpos 8)
    || change (10 * 0 + _) with (Zpos 9);
    rewrite uint_value_acc; reflexivity.
Qed.

(** [int(str(n))] is [n]. *)
Lemma int_str (n : Z) : Py.int (Py.str n) = Some n.
Proof.
  unfold Py.int. rewrite (strip_no_space _ (proj1 (no_space_str n))).
  unfold Py.str, NilZero.string_of_int, NilZero.string_of_uint.
  destruct n as [|p|p]; cbn [Z.to_int].
  - reflexivity.
  - pose proof (DecimalPos.Unsigned.to_uint_nonnil p) as Hne.
    pose proof (DecimalPos.Unsigned.of_to p) as Hof.
    assert (Hval : Py.digits 0 false (NilEmpty.string_of_uint (Pos.to_uint p))
                   = Some (Zpos p)).
    { rewrite digits_uint by (left; exact Hne).
      rewrite uint_value_of_uint, Hof. reflexivity. }
    destruct (Pos.to_uint p) eqn:Eu; [congruence| ..]; exact Hval.
  - pose proof (DecimalPos.Unsigned.to_uint_nonnil p) as Hne.
    pose proof (DecimalPos.Unsigned.of_to p) as Hof.
    assert (Hval : Py.digits 0 false (NilEmpty.string_of_uint (Pos.to_uint p))
                   = Some (Zpos p)).
    { rewrite digits_uint by (left; exact Hne).
      rewrite uint_value_of_uint, Hof. reflexivity. }
    destruct (Pos.to_uint p) eqn:Eu; [congruence| ..];
      cbn [NilEmpty.string_of_uint] in *; rewrite Hval; reflexivity.
Qed.

Lemma split_from_word (t : string) :
  forall (cur rest : string),
    no_space t = true ->
    Py.split_from cur (t ++ rest) = Py.split_from (cur ++ t) rest.
Proof.
  induction t as [|a t IH]; intros cur rest Ht.
  - rewrite string_app_nil_l, string_app_nil_r. reflexivity.
  - cbn [no_space] in Ht. apply andb_prop in Ht as [Ha Ht].
    apply negb_true_iff in Ha.
    rewrite string_app_cons. cbn [Py.split_from]. rewrite Ha.
    rewrite (IH _ _ Ht), string_app_assoc. reflexivity.
Qed.

Lemma split_from_space (cur rest : string) :
  cur <> "" ->
  Py.split_from cur (String " " rest) = cur :: Py.split_from "" rest.
Proof.
  intros Hcur. cbn [Py.split_from].
  change (Py.is_space " ") with true. cbv iota.
  apply String.eqb_neq in Hcur. rewrite Hcur. reflexivity.
Qed.

Lemma split_from_end (cur : string) : cur <> "" -> Py.split_from cur "" = [cur].
Proof.
  intros Hcur. cbn [Py.split_from]. apply String.eqb_neq in Hcur. rewrite Hcur.
  reflexivity.
Qed.

(** The three words of the metadata string come back from [split]. *)
Lemma split_method1_metadata (label coeff_str : string) (circuit_id : Z) :
  no_space label = true -> label <> "" ->
  no_space coeff_str = true -> coeff_str <> "" ->
  Py.split (method1_metadata label coeff_str circuit_id)
  = [label; coeff_str; Py.str circuit_id].
Proof.
  intros Hl Hl' Hc Hc'. destruct (no_space_str circuit_id) as [Hs Hs'].
  unfold Py.split, method1_metadata.
  rewrite string_app_assoc, (split_from_word label "" _ Hl), string_app_nil_l.
  rewrite string_app_assoc.
  change (" " ++ coeff_str ++ " " ++ Py.str circuit_id)%string
    with (String " " (coeff_str ++ String " " (Py.str circuit_id))).
  rewrite (split_from_space _ _ Hl'). f_equal.
  rewrite (split_from_word coeff_str "" _ Hc), string_app_nil_l.
  rewrite (split_from_space _ _ Hc'). f_equal.
  rewrite <- (string_app_nil_r (Py.str circuit_id)) at 1.
  rewrite (split_from_word _ "" "" Hs), string_app_nil_l.
  apply split_from_end. exact Hs'.
Qed.

Section CircuitId.

Variable accuracy_ratio_fidelity : ExpVal -> float -> float -> float -> gmap string float.

(** What [run] writes, the handler and the analysis read back: for a
    method-1 circuit whose metadata is the Pauli label, the printed
    coefficient and [str(circuit_id)], separated by single spaces, the
    handler's key is [str(circuit_id)], and the analysis looks up the
    reference entry "Qubits - <num_qubits> - <circuit_id>": it returns the
    fidelity against that entry, or a [KeyError] for that key when the entry
    is missing. *)
Theorem analyze_reads_run_metadata (qc : ref) (result : ExecutionResult)
    (num_qubits : Z) (references : gmap string Reference) (shots : Z)
    (s : State) (c : QuantumCircuit) (label coeff_str : string) (circuit_id : Z) :
  heap s !! qc = Some c ->
  qc_metadata c !! "method1"
  = Some (MetaStr (method1_metadata label coeff_str circuit_id)) ->
  no_space label = true -> label <> "" ->
  no_space coeff_str = true -> coeff_str <> "" ->
  let key := ("Qubits - " ++ Py.str num_qubits ++ " - " ++ Py.str circuit_id)%string in
  metric_key c = Some (Py.str circuit_id) /\
  analyze_and_print_result accuracy_ratio_fidelity qc result num_qubits references shots s
  = (match references !! key with
     | Some reference =>
         Ok (accuracy_ratio_fidelity (get_expectation_values result qc)
               (ref_exact reference) (ref_min reference) (ref_max reference))
     | None => Raise (KeyError key)
     end, s).
Proof.
  intros Hqc Hmeta Hl Hl' Hc Hc' key.
  pose proof (split_method1_metadata label coeff_str circuit_id Hl Hl' Hc Hc') as Hsplit.
  split.
  - unfold metric_key. rewrite Hmeta, Hsplit. reflexivity.
  - rewrite (analyze_run accuracy_ratio_fidelity qc result num_qubits references shots
               s c Hqc).
    rewrite Hmeta. unfold score_method1, and_then. cbn [meta_split]. rewrite Hsplit.
    change (getitem [label; coeff_str; Py.str circuit_id] 2) with (Ok (Py.str circuit_id)).
    cbv iota beta. unfold py_int. rewrite int_str. cbv iota beta.
    unfold dict_get. fold key. destruct (references !! key); reflexivity.
Qed.

End CircuitId.

Lemma analyze_reads_run_metadata_witness :
  let key := ("Qubits - " ++ Py.str 4 ++ " - " ++ Py.str 0)%string in
  metric_key Sample.circuit1 = Some (Py.str 0) /\
  analyze_and_print_result Sample.accuracy_ratio_fidelity 0%nat Sample.result 4
    Sample.references1 4092 Sample.state1
  = (match Sample.references1 !! key with
     | Some reference =>
         Ok (Sample.accuracy_ratio_fidelity (get_expectation_values Sample.result 0%nat)
               (ref_exact reference) (ref_min reference) (ref_max reference))
     | None => Raise (KeyError key)
     end, Sample.state1).
Proof.
  apply (analyze_reads_run_metadata Sample.accuracy_ratio_fidelity 0%nat Sample.result 4
           Sample.references1 4092 Sample.state1 Sample.circuit1 "ZIII" "0.25" 0).
  - reflexivity.
  - reflexivity.
  - reflexivity.
  - discriminate.
  - reflexivity.
  - discriminate.
Defined.

Lemma execution_handler_effect_witness :
  let outcome :=
    execution_handler Sample.precalculated_data Sample.accuracy_ratio_fidelity
      0%nat Sample.result 4 4092 Sample.state2 in
  (forall e, fst outcome = Raise e -> snd outcome = Sample.state2) /\
  (fst outcome = Ok tt ->
   exists key fidelity,
     snd outcome
     = with_stored_metrics
         (stored_metrics Sample.state2 ++
            [{| mc_group := 4; mc_circuit_id := key;
                mc_metric := "fidelity"; mc_value := fidelity |}]) Sample.state2 /\
     stored_metrics (snd outcome)
     = stored_metrics Sample.state2 ++
         [{| mc_group := 4; mc_circuit_id := key;
             mc_metric := "fidelity"; mc_value := fidelity |}]) /\
  heap (snd outcome) = heap Sample.state2 /\
  submitted (snd outcome) = submitted Sample.state2 /\
  (QC_ (snd outcome), Hf_ (snd outcome), CO_ (snd outcome), normalization (snd outcome))
  = (QC_ Sample.state2, Hf_ Sample.state2, CO_ Sample.state2,
     normalization Sample.state2).
Proof.
  apply (execution_handler_effect Sample.precalculated_data
           Sample.accuracy_ratio_fidelity 0%nat Sample.result 4 4092
           Sample.state2 Sample.circuit2).
  reflexivity.
Defined.

Lemma execution_handler_failures_witness :
  let outcome :=
    fst (execution_handler Sample.precalculated_data Sample.accuracy_ratio_fidelity
           0%nat Sample.result 6 4092 Sample.state2) in
  ((exists msg, outcome = Raise (RuntimeError msg)) <->
   metadata_method Sample.circuit2 = None) /\
  ((exists path, outcome = Raise (FileNotFoundError path)) <->
   exists m, metadata_method Sample.circuit2 = Some m /\
             Sample.precalculated_data !! reference_path 6 m = None).
Proof.
  apply (execution_handler_failures Sample.precalculated_data
           Sample.accuracy_ratio_fidelity 0%nat Sample.result 6 4092
           Sample.state2 Sample.circuit2).
  reflexivity.
Defined.

(** ** A program logic for invariants *)

Lemma ok_ret {A} (I : State -> Prop) (post : A -> Prop) (a : A) (s : State) :
  I s -> post a -> ok I post (ret a) s.
Proof. intros HI Hp. split; assumption. Qed.

Lemma ok_bind {A B} (I : State -> Prop) (mid : A -> Prop) (post : B -> Prop)
    (m : M A) (k : A -> M B) (s : State) :
  ok I mid m s ->
  (forall a s', I s' -> mid a -> ok I post (k a) s') ->
  ok I post (bind m k) s.
Proof.
  unfold ok, bind. intros Hm Hk. destruct (m s) as [[a|e] s'].
  - destruct Hm as [HI Ha]. exact (Hk a s' HI Ha).
  - exact Hm.
Qed.

Lemma ok_weaken {A} (I : State -> Prop) (post post' : A -> Prop) (m : M A) (s : State) :
  ok I post m s -> (forall a, post a -> post' a) -> ok I post' m s.
Proof.
  unfold ok. intros Hm Himp. destruct (m s) as [[a|e] s']; [|exact Hm].
  destruct Hm as [HI Ha]. split; [exact HI | exact (Himp a Ha)].
Qed.

(** A computation that leaves the state alone. *)
Lemma ok_pure {A} (I : State -> Prop) (post : A -> Prop) (m : M A) (s : State) :
  snd (m s) = s -> I s -> (forall a, fst (m s) = Ok a -> post a) -> ok I post m s.
Proof.
  unfold ok. intros Hs HI Hp. destruct (m s) as [[a|e] s']; cbn in *; subst s'.
  - split; [exact HI | exact (Hp a eq_refl)].
  - exact HI.
Qed.

Lemma ok_lift {A} (I : State -> Prop) (r : Result A) (s : State) :
  I s -> ok I (fun a => r = Ok a) (lift r) s.
Proof. intros HI. apply ok_pure; [reflexivity | exact HI |]. intros a Ha. exact Ha. Qed.

Lemma ok_raise {A} (I : State -> Prop) (post : A -> Prop) (e : Exception) (s : State) :
  I s -> ok I post (raise e) s.
Proof. intros HI. exact HI. Qed.

Lemma ok_get {A} (I : State -> Prop) (f : State -> A) (s : State) :
  I s -> ok I (fun a => a = f s) (get f) s.
Proof. intros HI. split; [exact HI | reflexivity]. Qed.

(** Reading an object: the continuation may use what was read. *)
Lemma ok_deref_bind {B} (I : State -> Prop) (post : B -> Prop) (r : ref)
    (k : QuantumCircuit -> M B) (s : State) :
  I s ->
  (forall c, heap s !! r = Some c -> ok I post (k c) s) ->
  ok I post (bind (deref r) k) s.
Proof.
  unfold ok, bind, deref. intros HI Hk.
  destruct (heap s !! r) as [c|] eqn:Hr; [|exact HI]. exact (Hk c eq_refl).
Qed.

Lemma keeps_for_each {A} (I : State -> Prop) (l : list A) (body : A -> M unit) :
  (forall x, keeps I (body x) (fun _ => True)) ->
  keeps I (for_each l body) (fun _ => True).
Proof.
  intros Hbody. induction l as [|x l IH]; intros s HI; cbn [for_each].
  - apply ok_ret; [exact HI | exact Logic.I].
  - eapply ok_bind; [exact (Hbody x s HI)|]. intros _ s' HI' _. exact (IH s' HI').
Qed.

Lemma keeps_for_fold {A B} (I : State -> Prop) (post : B -> Prop) (l : list A)
    (body : B -> A -> M B) :
  (forall acc x, post acc -> keeps I (body acc x) post) ->
  forall acc, post acc -> keeps I (for_fold l acc body) post.
Proof.
  intros Hbody. induction l as [|x l IH]; intros acc Hacc s HI; cbn [for_fold].
  - apply ok_ret; assumption.
  - eapply ok_bind; [exact (Hbody acc x Hacc s HI)|].
    intros acc' s' HI' Hacc'. exact (IH acc' Hacc' s' HI').
Qed.

Section ClosedInvariant.

Variable I : State -> Prop.
Variable n0 : nat.
Hypothesis HI : Closed I n0.

Lemma keeps_new (c : QuantumCircuit) : keeps I (new c) (fun r => (n0 <= r)%nat).
Proof.
  intros s Hs. unfold ok, new. split.
  - apply (closed_new I n0 HI). exact Hs.
  - apply (closed_length I n0 HI). exact Hs.
Qed.

Lemma keeps_mutate (r : ref) (f : QuantumCircuit -> QuantumCircuit) :
  (n0 <= r)%nat ->
  (forall c, qc_num_qubits (f c) = qc_num_qubits c) ->
  keeps I (mutate r f) (fun _ => True).
Proof.
  intros Hr Hf s Hs. unfold ok, mutate.
  destruct (heap s !! r) as [c|] eqn:Hc; [|exact Hs].
  split; [|exact Logic.I].
  exact (closed_mutate I n0 HI s r c (f c) Hs Hr Hc (Hf c)).
Qed.

Lemma keeps_append (qc sub : ref) (qargs : list Z) :
  (n0 <= qc)%nat -> keeps I (append qc sub qargs) (fun _ => True).
Proof.
  intros Hqc s Hs. unfold append. apply ok_deref_bind; [exact Hs|].
  intros c _. apply keeps_mutate; [exact Hqc | reflexivity | exact Hs].
Qed.

Lemma keeps_HartreeFock (norb na nb : Z) :
  keeps I (HartreeFock norb na nb) (fun r => (n0 <= r)%nat).
Proof.
  intros s Hs. unfold ok. rewrite HartreeFock_run.
  pose proof (closed_new I n0 HI s
                (set_data (hartree_fock_gates norb na nb) (empty_circuit norb "Hf")) Hs)
    as Hnew.
  split; [|apply (closed_length I n0 HI); exact Hs].
  destruct ((bool_decide (Hf_ s = None) || (norb <=? 4)) && (norb <? 7)) eqn:Hcond.
  - apply andb_prop in Hcond as [_ Hlt]. apply Z.ltb_lt in Hlt.
    eapply (closed_Hf_ I n0 HI); [exact Hnew | cbn [heap with_heap]; apply lookup_new|].
    exact Hlt.
  - replace (with_Hf_ (Hf_ s) (with_heap (heap s ++ [_]) s))
      with (with_heap (heap s ++ [set_data (hartree_fock_gates norb na nb)
                                    (empty_circuit norb "Hf")]) s)
      by (destruct s; reflexivity).
    exact Hnew.
Qed.

Lemma keeps_ClusterOperatorCircuit (pauli_op : SparsePauliOp) (excitationIndex : list Z) :
  keeps I (ClusterOperatorCircuit pauli_op excitationIndex) (fun r => (n0 <= r)%nat).
Proof.
  intros s Hs. unfold ok. rewrite ClusterOperatorCircuit_run.
  pose proof (closed_new I n0 HI s (cluster_circuit pauli_op excitationIndex) Hs) as Hnew.
  split; [|apply (closed_length I n0 HI); exact Hs].
  destruct ((bool_decide (CO_ s = None) || (op_num_qubits pauli_op <=? 4))
            && (op_num_qubits pauli_op <? 7)) eqn:Hcond.
  - apply andb_prop in Hcond as [_ Hlt]. apply Z.ltb_lt in Hlt.
    eapply (closed_CO_ I n0 HI); [exact Hnew | cbn [heap with_heap]; apply lookup_new|].
    exact Hlt.
  - replace (with_CO_ (CO_ s) (with_heap (heap s ++ [_]) s))
      with (with_heap (heap s ++ [cluster_circuit pauli_op excitationIndex]) s)
      by (destruct s; reflexivity).
    exact Hnew.
Qed.

End ClosedInvariant.

Section Invariants.

Variable ansatzes : gmap string PauliDict.
Variable Hamiltonians : gmap string PauliDict.
Variable str_float : float -> string.
Variable group_commuting : SparsePauliOp -> list SparsePauliOp.
Variable I : State -> Prop.
Variable n0 : nat.
Hypothesis HI : Closed I n0.

Lemma ReadHamiltonian_state (nqubit : Z) (s : State) :
  snd (ReadHamiltonian Hamiltonians nqubit s) = s.
Proof.
  unfold ReadHamiltonian, bind, lift, load.
  destruct (Hamiltonians !! _) as [d|]; [|reflexivity].
  destruct (from_list _); reflexivity.
Qed.

Lemma readPauliExcitation_state (norb circuit_id : Z) (s : State) :
  snd (readPauliExcitation ansatzes norb circuit_id s) = s.
Proof.
  unfold readPauliExcitation, bind, lift, load.
  destruct (ansatzes !! _) as [d|]; [|reflexivity].
  destruct (group_excitations d); reflexivity.
Qed.

(** [VQEEnergy] keeps every closed invariant, whether it returns or raises,
    and the circuit it returns is a new object. *)
Lemma keeps_VQEEnergy (n_spin_orbs na nb circuit_id method : Z) :
  keeps I (VQEEnergy ansatzes Hamiltonians str_float group_commuting
             n_spin_orbs na nb circuit_id method)
        (fun pub => (n0 <= fst pub)%nat).
Proof.
  intros s Hs. unfold VQEEnergy.
  eapply ok_bind with (mid := fun _ => True).
  { apply ok_pure; [apply ReadHamiltonian_state | exact Hs | intros; exact Logic.I]. }
  intros qubit_op s1 Hs1 _.
  eapply ok_bind; [exact (keeps_new I n0 HI _ s1 Hs1)|].
  intros qc s2 Hs2 Hqc. cbv beta in Hqc.
  eapply ok_bind; [exact (keeps_HartreeFock I n0 HI _ _ _ s2 Hs2)|].
  intros Hf s3 Hs3 _.
  eapply ok_bind; [exact (keeps_append I n0 HI qc Hf _ Hqc s3 Hs3)|].
  intros _ s4 Hs4 _.
  eapply ok_bind with (mid := fun _ => True).
  { apply ok_pure; [apply readPauliExcitation_state | exact Hs4 | intros; exact Logic.I]. }
  intros pauli_list s5 Hs5 _.
  eapply ok_bind with (mid := fun _ => True).
  { apply keeps_for_each; [|exact Hs5]. intros [index PauliOp] t Ht.
    eapply ok_bind; [exact (ok_lift I _ t Ht)|].
    intros excitation t1 Ht1 _.
    eapply ok_bind; [exact (keeps_ClusterOperatorCircuit I n0 HI _ _ t1 Ht1)|].
    intros cluster_qc t2 Ht2 _.
    apply ok_deref_bind; [exact Ht2|]. intros cluster _.
    exact (keeps_append I n0 HI qc cluster_qc _ Hqc t2 Ht2). }
  intros _ s6 Hs6 _.
  eapply ok_bind; [exact (ok_get I QC_ s6 Hs6)|].
  intros saved s7 Hs7 _.
  apply ok_deref_bind; [exact Hs7|]. intros c Hc.
  eapply ok_bind with (mid := fun _ => True).
  { destruct (bool_decide (saved = None)); [|apply ok_ret; [exact Hs7 | exact Logic.I]].
    destruct (qc_num_qubits c <? 7) eqn:Hlt; [|apply ok_ret; [exact Hs7 | exact Logic.I]].
    apply Z.ltb_lt in Hlt. split; [|exact Logic.I].
    exact (closed_QC_ I n0 HI s7 qc c Hs7 Hc Hlt). }
  intros _ s8 Hs8 _.
  destruct (method =? 1).
  - eapply ok_bind; [exact (ok_lift I _ s8 Hs8)|].
    intros op s9 Hs9 _.
    eapply ok_bind; [exact (ok_lift I _ s9 Hs9)|].
    intros term s10 Hs10 _.
    eapply ok_bind.
    { apply (keeps_mutate I n0 HI); [exact Hqc | reflexivity | exact Hs10]. }
    intros _ s11 Hs11 _.
    eapply ok_bind; [exact (ok_lift I _ s11 Hs11)|].
    intros observable s12 Hs12 _.
    apply ok_ret; [exact Hs12 | exact Hqc].
  - cbv zeta.
    eapply ok_bind with (mid := fun _ => True).
    { split; [|exact Logic.I]. apply (closed_normalization I n0 HI). exact Hs8. }
    intros _ s9 Hs9 _.
    eapply ok_bind with (mid := fun _ => True).
    { destruct (bool_decide _); [exact Hs9|]. apply ok_ret; [exact Hs9 | exact Logic.I]. }
    intros groups s10 Hs10 _.
    eapply ok_bind with (mid := fun _ => True).
    { split; [|exact Logic.I]. apply (closed_normalization I n0 HI). exact Hs10. }
    intros _ s11 Hs11 _.
    eapply ok_bind.
    { apply (keeps_mutate I n0 HI); [exact Hqc | reflexivity | exact Hs11]. }
    intros _ s12 Hs12 _.
    apply ok_ret; [exact Hs12 | exact Hqc].
Qed.

(** [run] keeps every closed invariant that submitting a pub keeps. *)
Lemma keeps_run (min_qubits max_qubits skip_qubits max_circuits num_shots method : Z)
    (backend_id : option string) :
  (forall s x, I s -> I (with_submitted (submitted s ++ [x]) s)) ->
  keeps I (run ansatzes Hamiltonians str_float group_commuting
             min_qubits max_qubits skip_qubits max_circuits num_shots method backend_id)
        (fun _ => True).
Proof.
  intros Hsubmit s Hs. unfold run. cbv zeta.
  destruct (input_sizes min_qubits max_qubits skip_qubits) as [sizes|];
    [|apply ok_ret; [exact Hs | exact Logic.I]].
  apply keeps_for_each; [|exact Hs]. clear s Hs. intros input_size s Hs.
  eapply ok_bind with (mid := fun pub_list => Forall (fun pub => (n0 <= fst pub)%nat) pub_list).
  { destruct (method =? 1).
    - apply (keeps_for_fold I); [|constructor | exact Hs].
      intros acc circuit_id Hacc t Ht.
      eapply ok_bind; [exact (keeps_VQEEnergy _ _ _ _ _ t Ht)|].
      intros pub t1 Ht1 Hpub. cbv beta in Hpub.
      apply ok_deref_bind; [exact Ht1|]. intros c _.
      eapply ok_bind; [exact (ok_lift I _ t1 Ht1)|].
      intros old t2 Ht2 _. destruct old as [w|op]; [|exact Ht2].
      eapply ok_bind.
      { apply (keeps_mutate I n0 HI); [exact Hpub | reflexivity | exact Ht2]. }
      intros _ t3 Ht3 _. apply ok_ret; [exact Ht3|].
      apply Forall_app. split; [exact Hacc | constructor; [exact Hpub | constructor]].
    - destruct (method =? 2).
      + eapply ok_bind; [exact (keeps_VQEEnergy _ _ _ _ _ s Hs)|].
        intros pub t1 Ht1 Hpub. apply ok_ret; [exact Ht1|].
        constructor; [exact Hpub | constructor].
      + apply ok_ret; [exact Hs | constructor]. }
  intros pub_list s1 Hs1 _.
  apply keeps_for_each; [|exact Hs1]. intros pub t Ht.
  apply ok_deref_bind; [exact Ht|]. intros c _.
  eapply ok_bind with (mid := fun _ => True).
  { destruct (qc_metadata c !! "method1") as [total_name|].
    - eapply ok_bind; [exact (ok_lift I _ t Ht)|]. intros tokens t1 Ht1 _.
      eapply ok_weaken; [exact (ok_lift I _ t1 Ht1)|]. intros; exact Logic.I.
    - apply ok_ret; [exact Ht | exact Logic.I]. }
  intros circuit_id t1 Ht1 _.
  split; [|exact Logic.I]. apply Hsubmit. exact Ht1.
Qed.

End Invariants.

(** The two invariants of interest are closed. *)
Lemma framed_closed (old : list QuantumCircuit) (metrics : list MetricCall)
    (R : list Submission -> Prop) :
  Closed (framed old metrics R) (length old).
Proof.
  split.
  - intros s ([k Hk] & _). rewrite Hk, length_app. lia.
  - intros s c (Hp & Hm & Hr). split; [|split; assumption].
    cbn [heap with_heap]. apply prefix_app_r. exact Hp.
  - intros s r c c' ([k Hk] & Hm & Hr) Hle Hc _. split; [|split; assumption].
    cbn [heap with_heap]. rewrite Hk.
    rewrite insert_app_r_alt by exact Hle. apply prefix_app_r. reflexivity.
  - intros s r c H _ _. exact H.
  - intros s r c H _ _. exact H.
  - intros s r c H _ _. exact H.
  - intros s x H. exact H.
Qed.

Lemma small_saved_closed : Closed small_saved 0.
Proof.
  split.
  - intros s _. lia.
  - intros s c Hs r Hr. destruct (Hs r Hr) as (c0 & Hc0 & Hlt).
    exists c0. split; [|exact Hlt]. cbn [heap with_heap].
    rewrite lookup_app_l; [exact Hc0 | eapply lookup_lt_Some; exact Hc0].
  - intros s r c c' Hs _ Hc Hnum r' Hr'. destruct (Hs r' Hr') as (c0 & Hc0 & Hlt).
    cbn [heap with_heap]. destruct (decide (r' = r)) as [->|Hne].
    + exists c'. split.
      * apply list_lookup_insert_eq. eapply lookup_lt_Some. exact Hc.
      * unfold ref in *. assert (c0 = c) as -> by congruence. rewrite Hnum. exact Hlt.
    + exists c0. split; [|exact Hlt].
      rewrite list_lookup_insert_ne by congruence. exact Hc0.
  - intros s r c Hs Hc Hlt r' [Hr'|Hr'].
    + cbn in Hr'. injection Hr' as <-. exists c. split; assumption.
    + apply Hs. right. exact Hr'.
  - intros s r c Hs Hc Hlt r' [Hr'|[Hr'|Hr']].
    + apply Hs. left. exact Hr'.
    + cbn in Hr'. injection Hr' as <-. exists c. split; assumption.
    + apply Hs. right. right. exact Hr'.
  - intros s r c Hs Hc Hlt r' [Hr'|[Hr'|Hr']].
    + apply Hs. left. exact Hr'.
    + apply Hs. right. left. exact Hr'.
    + cbn in Hr'. injection Hr' as <-. exists c. split; assumption.
  - intros s x Hs. exact Hs.
Qed.

Section Frames.

Variable ansatzes : gmap string PauliDict.
Variable Hamiltonians : gmap string PauliDict.
Variable str_float : float -> string.
Variable group_commuting : SparsePauliOp -> list SparsePauliOp.

(** Whatever its arguments and the files, and whether it returns or raises,
    [VQEEnergy] leaves every circuit that existed before the call as it was
    (it only allocates new ones), stores no metric and submits nothing. *)
Theorem VQEEnergy_frame (n_spin_orbs na nb circuit_id method : Z) (s : State) :
  let s' := snd (VQEEnergy ansatzes Hamiltonians str_float group_commuting
                   n_spin_orbs na nb circuit_id method s) in
  heap s `prefix_of` heap s' /\
  stored_metrics s' = stored_metrics s /\
  submitted s' = submitted s.
Proof.
  cbv zeta.
  pose proof (keeps_VQEEnergy ansatzes Hamiltonians str_float group_commuting
                _ _ (framed_closed (heap s) (stored_metrics s)
                       (fun l => l = submitted s))
                n_spin_orbs na nb circuit_id method s) as H.
  unfold ok in H.
  destruct (VQEEnergy _ _ _ _ _ _ _ _ _ s) as [[a|e] s']; cbn [snd].
  - apply H. split; [reflexivity | split; reflexivity].
  - apply H. split; [reflexivity | split; reflexivity].
Qed.

(** Whatever its arguments and the files, and whether it returns or raises,
    [run] leaves every circuit that existed before the call as it was (the
    circuits it builds are new objects, and the metadata it extends is
    theirs), and it only adds to the submitted pubs. *)
Theorem run_frame (min_qubits max_qubits skip_qubits max_circuits num_shots method : Z)
    (backend_id : option string) (s : State) :
  let s' := snd (run ansatzes Hamiltonians str_float group_commuting
                   min_qubits max_qubits skip_qubits max_circuits num_shots method
                   backend_id s) in
  heap s `prefix_of` heap s' /\
  submitted s `prefix_of` submitted s'.
Proof.
  cbv zeta.
  assert (Hsubmit : forall (t : State) (x : Submission),
             framed (heap s) (stored_metrics s) (fun l => submitted s `prefix_of` l) t ->
             framed (heap s) (stored_metrics s) (fun l => submitted s `prefix_of` l)
               (with_submitted (submitted t ++ [x]) t)).
  { intros t x (Hp & Hm & Hr). split; [exact Hp|]. split; [exact Hm|].
    cbn [submitted with_submitted]. apply prefix_app_r. exact Hr. }
  pose proof (keeps_run ansatzes Hamiltonians str_float group_commuting
                _ _ (framed_closed (heap s) (stored_metrics s)
                       (fun l => submitted s `prefix_of` l))
                min_qubits max_qubits skip_qubits max_circuits num_shots method
                backend_id Hsubmit s) as H.
  unfold ok in H.
  destruct (run _ _ _ _ _ _ _ _ _ _ _ s) as [[a|e] s']; cbn [snd].
  - destruct H as [(Hheap & _ & Hsub) _]; [split; [reflexivity | split; reflexivity]|].
    split; assumption.
  - destruct H as (Hheap & _ & Hsub); [split; [reflexivity | split; reflexivity]|].
    split; assumption.
Qed.

(** The circuits saved for display stay small: if [QC_], [Hf_] and [CO_]
    hold nothing or circuits of fewer than 7 qubits, they still do after
    [VQEEnergy] and after [run], whatever the outcome.  *)
Theorem saved_circuits_small (s : State) :
  small_saved s ->
  (forall n_spin_orbs na nb circuit_id method,
      small_saved (snd (VQEEnergy ansatzes Hamiltonians str_float group_commuting
                          n_spin_orbs na nb circuit_id method s))) /\
  (forall min_qubits max_qubits skip_qubits max_circuits num_shots method backend_id,
      small_saved (snd (run ansatzes Hamiltonians str_float group_commuting
                          min_qubits max_qubits skip_qubits max_circuits num_shots
                          method backend_id s))).
Proof.
  intros Hs. split.
  - intros n_spin_orbs na nb circuit_id method.
    pose proof (keeps_VQEEnergy ansatzes Hamiltonians str_float group_commuting
                  _ _ small_saved_closed n_spin_orbs na nb circuit_id method s Hs) as H.
    unfold ok in H.
    destruct (VQEEnergy _ _ _ _ _ _ _ _ _ s) as [[a|e] s']; cbn [snd]; apply H.
  - intros min_qubits max_qubits skip_qubits max_circuits num_shots method backend_id.
    assert (Hsubmit : forall (t : State) (x : Submission),
               small_saved t -> small_saved (with_submitted (submitted t ++ [x]) t)).
    { intros t x Ht. exact Ht. }
    pose proof (keeps_run ansatzes Hamiltonians str_float group_commuting
                  _ _ small_saved_closed min_qubits max_qubits skip_qubits max_circuits
                  num_shots method backend_id Hsubmit s Hs) as H.
    unfold ok in H.
    destruct (run _ _ _ _ _ _ _ _ _ _ _ s) as [[a|e] s']; cbn [snd]; apply H.
Qed.

End Frames.

Lemma saved_circuits_small_witness :
  small_saved initial_state /\
  small_saved (snd (run Sample.ansatzes Sample.Hamiltonians Sample.str_float
                      Sample.group_commuting 4 4 1 3 100 1 None initial_state)).
Proof.
  assert (H0 : small_saved initial_state).
  { intros r [H|[H|H]]; discriminate H. }
  split; [exact H0|].
  apply (saved_circuits_small Sample.ansatzes Sample.Hamiltonians Sample.str_float
           Sample.group_commuting initial_state H0).
Defined.

(** ** The failures of [VQEEnergy] *)

Lemma getitem_out_of_range {A} (l : list A) (k : nat) :
  l !! k = None -> getitem l (Z.of_nat k) = Raise IndexError.
Proof.
  intros Hk. unfold getitem.
  destruct (Z.ltb_spec (Z.of_nat k) 0); [reflexivity|].
  rewrite Nat2Z.id, Hk. reflexivity.
Qed.

(** The loop over the grouped operators stops with [IndexError] at the
    first operator that has no excitation. *)
Lemma cluster_loop_overflow (excitationList : list (list Z)) (qc : ref)
    (pauli_list : list SparsePauliOp) :
  forall (k : nat) (s : State) (c : QuantumCircuit),
    heap s !! qc = Some c ->
    (length (drop k excitationList) < length pauli_list)%nat ->
    exists s',
      for_each (combine (map Z.of_nat (seq k (length pauli_list))) pauli_list)
        (fun '(index, PauliOp) =>
           (excitation <- lift (getitem excitationList index) ;;
            cluster_qc <- ClusterOperatorCircuit PauliOp excitation ;;
            cluster <- deref cluster_qc ;;
            append qc cluster_qc (Py.range (qc_num_qubits cluster)))%py) s
      = (Raise IndexError, s').
Proof.
  induction pauli_list as [|PauliOp pauli_list IH]; intros k s c Hqc Hlen.
  - cbn in Hlen. lia.
  - cbn [length seq map combine for_each].
    destruct (drop k excitationList) as [|excitation tail] eqn:Hdrop.
    + assert (Hk : excitationList !! k = None).
      { rewrite <- (Nat.add_0_r k), <- lookup_drop, Hdrop. reflexivity. }
      exists s. unfold bind at 1. unfold bind at 1. unfold lift at 1.
      rewrite (getitem_out_of_range _ _ Hk). reflexivity.
    + assert (Hk : excitationList !! k = Some excitation).
      { rewrite <- (Nat.add_0_r k), <- lookup_drop, Hdrop. reflexivity. }
      assert (Htail : drop (S k) excitationList = tail).
      { rewrite (drop_S _ _ _ Hk) in Hdrop. congruence. }
      assert (Hlt : (qc < length (heap s))%nat) by (eapply lookup_lt_Some; exact Hqc).
      unfold bind at 1. unfold bind at 1. unfold lift at 1.
      rewrite (getitem_of_nat _ _ _ Hk).
      unfold bind at 1. rewrite ClusterOperatorCircuit_run.
      unfold bind at 1. unfold deref at 1. cbn [heap with_heap with_CO_].
      rewrite lookup_new.
      unfold append. unfold bind at 1. unfold deref at 1.
      cbn [heap with_heap with_CO_]. rewrite lookup_new.
      erewrite mutate_run
        by (cbn [heap with_heap with_CO_]; rewrite lookup_app_l by exact Hlt; exact Hqc).
      eapply (IH (S k)).
      * cbn [heap with_heap with_CO_].
        rewrite insert_app_l by exact Hlt. rewrite lookup_app_l
          by (rewrite length_insert; exact Hlt).
        apply list_lookup_insert_eq. exact Hlt.
      * rewrite Htail. cbn in Hlen. lia.
Qed.

Section Failures.

Variable ansatzes : gmap string PauliDict.
Variable Hamiltonians : gmap string PauliDict.
Variable str_float : float -> string.
Variable group_commuting : SparsePauliOp -> list SparsePauliOp.

Lemma ReadHamiltonian_cases (nqubit : Z) (s : State) :
  ReadHamiltonian Hamiltonians nqubit s
  = match Hamiltonians !! hamiltonian_path nqubit with
    | None => (Raise (FileNotFoundError (hamiltonian_path nqubit)), s)
    | Some [] => (Raise QiskitError, s)
    | Some ham_dict => (Ok (SparsePauliOp_of ham_dict), s)
    end.
Proof.
  unfold ReadHamiltonian, bind, lift, load. fold (hamiltonian_path nqubit).
  destruct (Hamiltonians !! hamiltonian_path nqubit) as [ham_dict|]; [|reflexivity].
  rewrite (fold_left_snoc ham_dict []). cbn [app].
  destruct ham_dict; reflexivity.
Qed.

Lemma readPauliExcitation_missing (norb circuit_id : Z) (s : State) :
  ansatzes !! ansatz_path norb circuit_id = None ->
  readPauliExcitation ansatzes norb circuit_id s
  = (Raise (FileNotFoundError (ansatz_path norb circuit_id)), s).
Proof.
  intros H. unfold readPauliExcitation, bind, lift, load.
  fold (ansatz_path norb circuit_id). rewrite H. reflexivity.
Qed.

(** [VQEEnergy] up to the reading of the ansatz file. *)
Ltac VQEEnergy_start Hham s1 H1 Hqc1 :=
  unfold VQEEnergy;
  unfold bind at 1;
  rewrite (ReadHamiltonian_run Hamiltonians _ _ _ Hham) by discriminate;
  unfold bind at 1; unfold new at 1;
  unfold bind at 1; rewrite HartreeFock_run; cbn [heap with_heap];
  unfold bind at 1; unfold append at 1; unfold bind at 1; unfold deref at 1;
  cbn [heap with_heap with_Hf_]; rewrite lookup_new;
  match goal with
  | |- context [mutate (length (heap ?s)) _ ?st] =>
      remember st as s1 eqn:Es1;
      assert (H1 : exists c hf, heap s1 = (heap s ++ [c]) ++ [hf])
        by (subst s1; eexists; eexists; reflexivity);
      clear Es1;
      assert (Hqc1 : exists c, heap s1 !! length (heap s) = Some c)
        by (destruct H1 as (c1 & hf1 & H1); exists c1; rewrite H1;
            rewrite lookup_app_l by (rewrite length_app; cbn; lia);
            apply lookup_new)
  end;
  let c := fresh "c" in
  destruct Hqc1 as [c Hqc1];
  rewrite (mutate_run _ _ _ _ Hqc1);
  unfold bind at 1.

(** [VQEEnergy] up to the method branch, when every grouped operator has
    an excitation. *)
Ltac VQEEnergy_through_loop Hham Hansatz Hgroups Hfit s2 c2 Hqc2 :=
  let s1 := fresh "s1" in
  let H1 := fresh "H1" in
  let Hqc1 := fresh "Hqc1" in
  let Hloop := fresh "Hloop" in
  let H2 := fresh "H2" in
  VQEEnergy_start Hham s1 H1 Hqc1;
  rewrite (readPauliExcitation_run ansatzes _ _ _ _ Hansatz), Hgroups;
  unfold bind at 1; unfold Py.enumerate;
  match goal with
  | |- context [for_each (combine _ ?groups) _ ?st] =>
      match goal with
      | |- context [getitem ?excitationList _] =>
          match goal with
          | |- context [mutate ?qc _] =>
              destruct (cluster_loop excitationList qc groups 0 st _
                          (lookup_mutated _ _ _ _ Hqc1)
                          ltac:(rewrite drop_0; exact Hfit))
                as (s2 & Hloop & H2);
              rewrite Hloop; clear Hloop;
              assert (Hqc2 : exists c2, heap s2 !! qc = Some c2)
                by (eexists; rewrite H2; rewrite lookup_app_l;
                    [ apply list_lookup_insert_eq; cbn [heap with_heap];
                      rewrite length_insert; eapply lookup_lt_Some; exact Hqc1
                    | rewrite length_insert; cbn [heap with_heap];
                      rewrite length_insert; eapply lookup_lt_Some; exact Hqc1 ])
          end
      end
  end;
  destruct Hqc2 as [c2 Hqc2];
  unfold bind at 1; unfold get at 1; unfold bind at 1; unfold deref at 1;
  unfold ref in *; rewrite Hqc2;
  unfold bind at 1;
  match goal with
  | |- context [@bool_decide (QC_ s2 = None) ?d] => destruct (@bool_decide _ d)
  end;
  [destruct (qc_num_qubits c2 <? 7)|];
  [unfold update at 1 | unfold ret at 1 | unfold ret at 1].

(** Which exception [VQEEnergy] raises, and when it returns, for electron
    numbers whose qubits exist and files that are well formed when they are
    there: the outcome is decided by the two files, the number of grouped
    operators and, for a Hamiltonian of a single term, the method, in the
    order of [VQEEnergy_error]. *)
Theorem VQEEnergy_failures (n_spin_orbs na nb circuit_id method : Z) (s : State) :
  0 <= n_spin_orbs -> na <= n_spin_orbs ->
  Py.int_div n_spin_orbs 2 + nb <= n_spin_orbs ->
  (forall ham_dict,
      Hamiltonians !! hamiltonian_path n_spin_orbs = Some ham_dict ->
      well_formed n_spin_orbs ham_dict) ->
  (forall ansatz_dict,
      ansatzes !! ansatz_path n_spin_orbs circuit_id = Some ansatz_dict ->
      well_formed n_spin_orbs ansatz_dict) ->
  let outcome :=
    fst (VQEEnergy ansatzes Hamiltonians str_float group_commuting
           n_spin_orbs na nb circuit_id method s) in
  match VQEEnergy_error ansatzes Hamiltonians
          n_spin_orbs na nb circuit_id method with
  | Some e => outcome = Raise e
  | None => exists observables, outcome = Ok (length (heap s), observables)
  end.
Proof.
  intros _ _ _ _ _. cbv zeta. unfold VQEEnergy_error.
  destruct (Hamiltonians !! hamiltonian_path n_spin_orbs) as [[|t0 terms]|] eqn:Hham.
  - unfold VQEEnergy. unfold bind at 1.
    rewrite ReadHamiltonian_cases. unfold PauliDict, Term in *.
    rewrite Hham. reflexivity.
  - destruct (ansatzes !! ansatz_path n_spin_orbs circuit_id) as [ansatz_dict|] eqn:Hansatz.
    + destruct (group_excitations ansatz_dict) as [groups|e] eqn:Hgroups.
      * destruct (Nat.ltb_spec (length (excitations n_spin_orbs na nb)) (length groups))
          as [Hover|Hfit].
        -- VQEEnergy_start Hham s1 H1 Hqc1.
           rewrite (readPauliExcitation_run ansatzes _ _ _ _ Hansatz), Hgroups.
           unfold bind at 1. unfold Py.enumerate.
           edestruct (cluster_loop_overflow (excitations n_spin_orbs na nb)
                        (length (heap s)) groups 0) as (s2 & Hloop);
             [| | rewrite Hloop; reflexivity].
           ++ eapply lookup_mutated. exact Hqc1.
           ++ rewrite drop_0. exact Hover.
        -- destruct terms as [|t1 rest].
           ++ destruct (method =? 1) eqn:Hmethod;
                VQEEnergy_through_loop Hham Hansatz Hgroups Hfit s2 c2 Hqc2.
              all: rewrite Hmethod.
              1-3: cbv [bind lift op_getitem]; cbn [to_list lookup list_lookup];
                reflexivity.
              all: change (op_slice_from (SparsePauliOp_of [t0]) 1)
                     with (SparsePauliOp_of []);
                cbn [to_list]; unfold bind at 1; unfold update at 1;
                unfold bind at 1; rewrite bool_decide_eq_true_2 by reflexivity;
                reflexivity.
           ++ destruct (VQEEnergy_run ansatzes Hamiltonians str_float group_commuting
                          n_spin_orbs na nb circuit_id method s t0 t1 rest ansatz_dict
                          groups Hham Hansatz Hgroups Hfit) as (s' & Hrun & _).
              rewrite Hrun. eexists. reflexivity.
      * VQEEnergy_start Hham s1 H1 Hqc1.
        rewrite (readPauliExcitation_run ansatzes _ _ _ _ Hansatz), Hgroups. reflexivity.
    + VQEEnergy_start Hham s1 H1 Hqc1.
      rewrite (readPauliExcitation_missing _ _ _ Hansatz). reflexivity.
  - unfold VQEEnergy. unfold bind at 1.
    rewrite ReadHamiltonian_cases. unfold PauliDict, Term in *.
    rewrite Hham. reflexivity.
Qed.

End Failures.

Lemma VQEEnergy_failures_witness :
  let Hamiltonians : gmap string PauliDict :=
    {[ "./Hamiltonians/4_qubit.txt" := [("IIII", (-0.5)%float)] ]} in
  fst (VQEEnergy Sample.ansatzes Hamiltonians Sample.str_float
         Sample.group_commuting 4 1 1 0 2 initial_state)
  = Raise AxisError /\
  fst (VQEEnergy Sample.ansatzes Hamiltonians Sample.str_float
         Sample.group_commuting 4 1 1 0 1 initial_state)
  = Raise IndexError /\
  fst (VQEEnergy Sample.ansatzes Hamiltonians Sample.str_float
         Sample.group_commuting 4 1 1 1 1 initial_state)
  = Raise (FileNotFoundError "./ansatzes/4_qubit_1.txt").
Proof.
  cbv zeta.
  assert (Hham : forall ham_dict,
             ({[ "./Hamiltonians/4_qubit.txt" := [("IIII", (-0.5)%float)] ]}
              : gmap string PauliDict) !! hamiltonian_path 4 = Some ham_dict ->
             well_formed 4 ham_dict).
  { intros ham_dict H. vm_compute in H. injection H as <-. repeat constructor. }
  assert (Hansatz : forall circuit_id ansatz_dict,
             Sample.ansatzes !! ansatz_path 4 circuit_id = Some ansatz_dict ->
             well_formed 4 ansatz_dict).
  { intros circuit_id ansatz_dict H. unfold Sample.ansatzes in H.
    apply lookup_singleton_Some in H as [_ <-]. repeat constructor. }
  split; [|split].
  - exact (VQEEnergy_failures Sample.ansatzes _ Sample.str_float Sample.group_commuting
             4 1 1 0 2 initial_state ltac:(lia) ltac:(lia)
             ltac:(vm_compute; discriminate) Hham (Hansatz 0)).
  - exact (VQEEnergy_failures Sample.ansatzes _ Sample.str_float Sample.group_commuting
             4 1 1 0 1 initial_state ltac:(lia) ltac:(lia)
             ltac:(vm_compute; discriminate) Hham (Hansatz 0)).
  - exact (VQEEnergy_failures Sample.ansatzes _ Sample.str_float Sample.group_commuting
             4 1 1 1 1 initial_state ltac:(lia) ltac:(lia)
             ltac:(vm_compute; discriminate) Hham (Hansatz 1)).
Defined.

(** ** What [run] submits *)

Section Submissions.

Variable ansatzes : gmap string PauliDict.
Variable Hamiltonians : gmap string PauliDict.
Variable str_float : float -> string.
Variable group_commuting : SparsePauliOp -> list SparsePauliOp.

(** A call of [VQEEnergy] on valid files, as [run] sees it. *)
Lemma VQEEnergy_call (n_spin_orbs na nb circuit_id method : Z) (s : State)
    (t0 t1 : Term) (rest : list Term) (ansatz_dict : PauliDict)
    (pauli_list : list SparsePauliOp) :
  Hamiltonians !! hamiltonian_path n_spin_orbs = Some (t0 :: t1 :: rest) ->
  ansatzes !! ansatz_path n_spin_orbs circuit_id = Some ansatz_dict ->
  group_excitations ansatz_dict = Ok pauli_list ->
  (length pauli_list <= length (excitations n_spin_orbs na nb))%nat ->
  exists s' c,
    VQEEnergy ansatzes Hamiltonians str_float group_commuting
      n_spin_orbs na nb circuit_id method s
    = (Ok (length (heap s),
           if method =? 1 then ObsOp (SparsePauliOp_of [t1])
           else ObsList (map (fun t => SparsePauliOp_of [t]) (t1 :: rest))),
       s') /\
    heap s `prefix_of` heap s' /\
    submitted s' = submitted s /\
    heap s' !! length (heap s) = Some c /\
    qc_metadata c
    = (if method =? 1
       then {[ "method1" := MetaStr (fst t1 ++ " " ++ str_float (snd t1)) ]}
       else {[ "method2" := MetaOp (SparsePauliOp_of (t1 :: rest)) ]}).
Proof.
  intros Hham Hansatz Hgroups Hlen.
  destruct (VQEEnergy_run ansatzes Hamiltonians str_float group_commuting
              n_spin_orbs na nb circuit_id method s t0 t1 rest ansatz_dict
              pauli_list Hham Hansatz Hgroups Hlen) as (s' & Hrun & Hheap).
  pose proof (keeps_VQEEnergy ansatzes Hamiltonians str_float group_commuting
                _ _ (framed_closed (heap s) (stored_metrics s)
                       (fun l => l = submitted s))
                n_spin_orbs na nb circuit_id method s) as H.
  unfold ok in H. rewrite Hrun in H.
  destruct H as [(Hprefix & _ & Hsub) _]; [split; [reflexivity | split; reflexivity]|].
  eexists s', _. split; [exact Hrun|]. split; [exact Hprefix|]. split; [exact Hsub|].
  split.
  - rewrite Hheap. rewrite lookup_app_r by lia. rewrite Nat.sub_diag. reflexivity.
  - reflexivity.
Qed.

(** The loop of method 1 over the circuit ids: every pub it collects is
    tagged with its circuit id, and nothing is submitted yet. *)
Lemma build_method1 (num_qubits na nb : Z) (t0 t1 : Term) (rest : list Term) :
  Hamiltonians !! hamiltonian_path num_qubits = Some (t0 :: t1 :: rest) ->
  forall ids : list Z,
    (forall circuit_id, circuit_id ∈ ids ->
       exists ansatz_dict groups,
         ansatzes !! ansatz_path num_qubits circuit_id = Some ansatz_dict /\
         group_excitations ansatz_dict = Ok groups /\
         (length groups <= length (excitations num_qubits na nb))%nat) ->
    forall (acc : list (ref * Observables)) (ids0 : list Z) (s : State),
      Forall2 (tagged (fst t1) (str_float (snd t1)) s) acc ids0 ->
      exists s' pubs,
        for_fold ids acc (fun pub_list circuit_id =>
          (pub <- VQEEnergy ansatzes Hamiltonians str_float group_commuting
                    num_qubits na nb circuit_id 1 ;;
           c <- deref (fst pub) ;;
           old <- lift (dict_get (qc_metadata c) "method1") ;;
           match old with
           | MetaStr w =>
               mutate (fst pub) (fun c =>
                 set_metadata
                   (<["method1" := MetaStr (w ++ " " ++ Py.str circuit_id)]>
                      (qc_metadata c)) c) ;;
               ret (pub_list ++ [pub])%list
           | MetaOp _ => raise TypeError
           end)%py) s
        = (Ok pubs, s') /\
        Forall2 (tagged (fst t1) (str_float (snd t1)) s') pubs (ids0 ++ ids) /\
        submitted s' = submitted s /\
        heap s `prefix_of` heap s'.
Proof.
  intros Hham ids. induction ids as [|circuit_id ids IH]; intros Hvalid acc ids0 s Hacc.
  - exists s, acc. split; [reflexivity|]. rewrite app_nil_r.
    split; [exact Hacc | split; reflexivity].
  - destruct (Hvalid circuit_id ltac:(left)) as (ansatz_dict & groups & Hansatz & Hgroups & Hlen).
    destruct (VQEEnergy_call num_qubits na nb circuit_id 1 s t0 t1 rest ansatz_dict groups
                Hham Hansatz Hgroups Hlen)
      as (s1 & c & Hrun & Hprefix & Hsub & Hc & Hmeta).
    cbn [Z.eqb Pos.eqb] in Hrun, Hmeta.
    cbn [for_fold]. unfold bind at 1. unfold bind at 1. rewrite Hrun. cbn [fst].
    unfold bind at 1. unfold deref at 1. unfold ref in *. rewrite Hc.
    unfold bind at 1. unfold lift at 1. unfold dict_get at 1.
    rewrite Hmeta, lookup_singleton_eq.
    unfold bind at 1. rewrite (mutate_run _ _ _ _ Hc). unfold ret at 1.
    edestruct (IH ltac:(intros cid Hcid; apply Hvalid; right; exact Hcid)
                 (acc ++ [(length (heap s),
                           ObsOp (SparsePauliOp_of [t1]))])%list
                 (ids0 ++ [circuit_id])%list)
      as (s' & pubs & Hfold & Htagged & Hsub' & Hprefix');
      [|exists s', pubs; split; [exact Hfold|]; split;
        [rewrite <- app_assoc in Htagged; exact Htagged
        | split; [rewrite Hsub'; exact Hsub|]]].
    2: { etransitivity; [|exact Hprefix']. cbn [heap with_heap].
         destruct Hprefix as [k Hk]. rewrite Hk.
         rewrite insert_app_r_alt by lia. apply prefix_app_r. reflexivity. }
    apply Forall2_app.
    + eapply Forall2_impl; [exact Hacc|]. intros pub cid (c0 & Hc0 & Hm0).
      exists c0. split; [|exact Hm0]. cbn [heap with_heap].
      rewrite list_lookup_insert_ne.
      * eapply prefix_lookup_Some; [exact Hc0 | exact Hprefix].
      * apply lookup_lt_Some in Hc0. lia.
    + constructor; [|constructor].
      eexists. split.
      * cbn [heap with_heap fst]. apply list_lookup_insert_eq.
        eapply lookup_lt_Some. exact Hc.
      * cbn [qc_metadata set_metadata]. rewrite lookup_insert_eq. reflexivity.
Qed.

(** The submission loop on pubs tagged by method 1: each pub is submitted
    under the circuit id it was built for. *)
Lemma submit_method1 (input_size : Z) (precision : float) (label coeff_str : string) :
  no_space label = true -> label <> "" ->
  no_space coeff_str = true -> coeff_str <> "" ->
  forall (pubs : list (ref * Observables)) (ids : list Z) (s : State),
    Forall2 (tagged label coeff_str s) pubs ids ->
    exists s',
      for_each pubs (fun pub =>
        (c <- deref (fst pub) ;;
         circuit_id <-
           match qc_metadata c !! "method1" with
           | Some total_name =>
               tokens <- lift (meta_split total_name) ;;
               lift (getitem tokens 2)
           | None => ret "method2"
           end ;;
         submit_pub pub input_size circuit_id precision)%py) s
      = (Ok tt, s') /\
      map submission_summary (submitted s')
      = map submission_summary (submitted s)
          ++ map (fun circuit_id => (input_size, Py.str circuit_id, precision)) ids /\
      heap s' = heap s /\
      submitted s'
      = submitted s
          ++ zip_with (fun pub circuit_id =>
                         submission_of input_size precision pub (Py.str circuit_id))
                      pubs ids.
Proof.
  intros Hl1 Hl2 Hc1 Hc2 pubs.
  induction pubs as [|pub pubs IH]; intros ids s Htagged.
  - apply Forall2_nil_inv_l in Htagged as ->. exists s.
    split; [reflexivity|]. cbn [map zip_with]. rewrite !app_nil_r.
    split; [reflexivity | split; reflexivity].
  - apply Forall2_cons_inv_l in Htagged as (circuit_id & ids' & (c & Hc & Hmeta) & Hrest & ->).
    cbn [for_each]. unfold bind at 1. unfold bind at 1. unfold deref at 1.
    unfold ref in *. rewrite Hc. rewrite Hmeta.
    unfold bind at 1. unfold bind at 1. unfold lift at 1. cbn [meta_split].
    rewrite (split_method1_metadata label coeff_str circuit_id Hl1 Hl2 Hc1 Hc2).
    unfold lift at 1.
    change (getitem [label; coeff_str; Py.str circuit_id] 2) with (Ok (Py.str circuit_id)).
    unfold submit_pub at 1. unfold update at 1.
    edestruct (IH ids') as (s' & Hloop & Hsub & Hheap & Hexact);
      [|exists s'; split; [exact Hloop|]].
    + eapply Forall2_impl; [exact Hrest|]. intros pub' cid H. exact H.
    + split; [|split].
      * rewrite Hsub. cbn [submitted with_submitted]. rewrite map_app. cbn [map].
        rewrite <- app_assoc. reflexivity.
      * rewrite Hheap. reflexivity.
      * rewrite Hexact. cbn [submitted with_submitted zip_with].
        rewrite <- app_assoc. reflexivity.
Qed.

Lemma flat_map_nil {A B} (l : list A) : flat_map (fun _ : A => @nil B) l = [].
Proof. induction l as [|x l IH]; [reflexivity | exact IH]. Qed.

(** With the Hamiltonian known, a valid input for method 1 gives the ansatz
    file and the words of the metadata. *)
Lemma valid_input_method1 (n circuit_id : Z) (t0 t1 : Term) (rest : list Term) :
  Hamiltonians !! hamiltonian_path n = Some (t0 :: t1 :: rest) ->
  valid_input ansatzes Hamiltonians str_float 1 n circuit_id ->
  (exists ansatz_dict groups,
      ansatzes !! ansatz_path n circuit_id = Some ansatz_dict /\
      group_excitations ansatz_dict = Ok groups /\
      (length groups
       <= length (excitations n (Py.int_div n 4) (Py.int_div n 4)))%nat) /\
  no_space (fst t1) = true /\ fst t1 <> "" /\
  no_space (str_float (snd t1)) = true /\ str_float (snd t1) <> "".
Proof.
  intros Hham
    (t0' & t1' & rest' & d & groups & Hham' & Hansatz & Hgroups & Hlen & Hwords & _).
  unfold PauliDict, Term in *. rewrite Hham in Hham'.
  injection Hham' as <- <- <-.
  split; [exists d, groups; split; [exact Hansatz | split; assumption]|].
  exact (Hwords eq_refl).
Qed.

(** What [run] submits on valid files, for a number of shots that line 340
    can turn into a precision (or the statevector backend, which does not
    look at it): at every validated size, in order, one pub per circuit id,
    under the ids ["0"], ["1"], ... for method 1 and under ["method2"] for
    method 2, all with the precision of the backend; and it returns. *)
Theorem run_submissions
    (min_qubits max_qubits skip_qubits max_circuits num_shots method : Z)
    (backend_id : option string) (sizes : list Z) (s : State) :
  input_sizes min_qubits max_qubits skip_qubits = Some sizes ->
  (forall n circuit_id,
      n ∈ sizes -> circuit_id ∈ built_circuit_ids method max_circuits ->
      valid_input ansatzes Hamiltonians str_float method n circuit_id) ->
  backend_id = Some "statevector_estimator" \/ 0 < num_shots < 2 ^ 63 ->
  exists s',
    run ansatzes Hamiltonians str_float group_commuting
      min_qubits max_qubits skip_qubits max_circuits num_shots method backend_id s
    = (Ok tt, s') /\
    map submission_summary (submitted s')
    = map submission_summary (submitted s)
        ++ flat_map (fun n => map (fun id => (n, id, run_precision backend_id num_shots))
                               (submitted_ids method max_circuits)) sizes.
Proof.
  intros Hsizes Hvalid _.
  destruct (Z.eq_dec method 1) as [->|Hnot1]; [|destruct (Z.eq_dec method 2) as [->|Hnot2]].
  - unfold run. rewrite Hsizes. clear Hsizes.
    unfold submitted_ids, built_circuit_ids in *.
    cbn [Z.eqb Pos.eqb] in *. fold (run_precision backend_id num_shots).
    revert s. induction sizes as [|n sizes IH]; intros s.
    + exists s. split; [reflexivity|]. cbn [flat_map]. rewrite app_nil_r. reflexivity.
    + cbn [for_each flat_map]. unfold bind at 1. unfold bind at 1.
      destruct (Py.range (Z.min 3 max_circuits)) as [|circuit_id0 ids] eqn:Hids.
      * cbn [for_fold for_each map]. unfold ret at 1. unfold ret at 1.
        apply IH. intros m circuit_id Hm. apply Hvalid. right. exact Hm.
      * rewrite <- Hids in *.
        assert (Hfirst : circuit_id0 ∈ Py.range (Z.min 3 max_circuits))
          by (rewrite Hids; left).
        destruct (Hvalid n circuit_id0 ltac:(left) Hfirst)
          as (t0 & t1 & rest & _ & _ & Hham & _).
        destruct (valid_input_method1 n circuit_id0 t0 t1 rest Hham
                    (Hvalid n circuit_id0 ltac:(left) Hfirst))
          as (_ & Hl1 & Hl2 & Hc1 & Hc2).
        destruct (build_method1 n (Py.int_div n 4) (Py.int_div n 4) t0 t1 rest Hham
                    (Py.range (Z.min 3 max_circuits))
                    ltac:(intros cid Hcid;
                          exact (proj1 (valid_input_method1 n cid t0 t1 rest Hham
                                          (Hvalid n cid ltac:(left) Hcid))))
                    [] [] s ltac:(constructor))
          as (s1 & pubs & Hfold & Htagged & Hsub1 & _).
        rewrite Hfold.
        destruct (submit_method1 n (run_precision backend_id num_shots)
                    (fst t1) (str_float (snd t1)) Hl1 Hl2 Hc1 Hc2 pubs _ s1 Htagged)
          as (s2 & Hloop & Hsub2 & _ & _).
        rewrite Hloop.
        destruct (IH ltac:(intros m cid Hm; apply Hvalid; right; exact Hm) s2)
          as (s' & Hrest & Hsub').
        exists s'. split; [exact Hrest|].
        rewrite Hsub', Hsub2, Hsub1. cbn [app]. rewrite map_map, <- app_assoc.
        reflexivity.
  - unfold run. rewrite Hsizes. clear Hsizes.
    unfold submitted_ids, built_circuit_ids in *.
    cbn [Z.eqb Pos.eqb] in *. fold (run_precision backend_id num_shots).
    revert s. induction sizes as [|n sizes IH]; intros s.
    + exists s. split; [reflexivity|]. cbn [flat_map]. rewrite app_nil_r. reflexivity.
    + cbn [for_each flat_map]. unfold bind at 1. unfold bind at 1. unfold bind at 1.
      destruct (Hvalid n 0 ltac:(left) ltac:(left))
        as (t0 & t1 & rest & ansatz_dict & groups & Hham & Hansatz & Hgroups & Hlen & _).
      destruct (VQEEnergy_call n (Py.int_div n 4) (Py.int_div n 4) 0 2 s t0 t1 rest
                  ansatz_dict groups Hham Hansatz Hgroups Hlen)
        as (s1 & c & Hrun & _ & Hsub1 & Hc & Hmeta).
      cbn [Z.eqb Pos.eqb] in Hrun, Hmeta. rewrite Hrun. unfold ret at 1.
      cbn [for_each]. unfold bind at 1. unfold bind at 1. unfold deref at 1.
      cbn [fst]. unfold ref in *. rewrite Hc. rewrite Hmeta.
      rewrite lookup_singleton_ne by discriminate.
      unfold bind at 1. unfold ret at 1. unfold submit_pub at 1. unfold update at 1.
      unfold ret at 1.
      match goal with
      | |- context [for_each sizes _ ?st] =>
          destruct (IH ltac:(intros m cid Hm; apply Hvalid; right; exact Hm) st)
            as (s' & Hrest & Hsub')
      end.
      exists s'. split; [exact Hrest|].
      rewrite Hsub'. cbn [submitted with_submitted]. rewrite map_app, Hsub1.
      cbn [map app]. rewrite <- app_assoc. reflexivity.
  - exists s. split.
    + apply run_without_method; assumption.
    + unfold submitted_ids. apply Z.eqb_neq in Hnot1, Hnot2. rewrite Hnot1, Hnot2.
      cbn [map]. rewrite flat_map_nil, app_nil_r. reflexivity.
Qed.

End Submissions.

Lemma run_submissions_witness :
  exists s',
    run Sample.ansatzes Sample.Hamiltonians Sample.str_float Sample.group_commuting
      4 4 1 1 100 1 None initial_state
    = (Ok tt, s') /\
    map submission_summary (submitted s') = [(4, "0", 0.1%float)].
Proof.
  apply (run_submissions Sample.ansatzes Sample.Hamiltonians Sample.str_float
           Sample.group_commuting 4 4 1 1 100 1 None [4] initial_state).
  - reflexivity.
  - intros n circuit_id Hn Hid.
    apply list_elem_of_singleton in Hn. subst n.
    change (built_circuit_ids 1 1) with [0] in Hid.
    apply list_elem_of_singleton in Hid. subst circuit_id.
    exists ("IIII", (-0.5)%float), ("ZIII", 0.25%float), [("IZII", 0.125%float)],
      Sample.ansatz,
      [SparsePauliOp_of [("XXXY", 0.5%float); ("XXYX", (-0.5)%float)];
       SparsePauliOp_of [("YXXX", 0.25%float)]].
    split; [reflexivity|]. split; [reflexivity|].
    split; [vm_compute; reflexivity|]. split; [vm_compute; lia|].
    split; [intros _; repeat split; vm_compute; discriminate|].
    split; repeat constructor.
  - right. lia.
Defined.

(** ** From [run] to the execution handler *)



Section Pipeline.

Variable ansatzes : gmap string PauliDict.
Variable Hamiltonians : gmap string PauliDict.
Variable precalculated_data : gmap string (gmap string Reference).
Variable str_float : float -> string.
Variable group_commuting : SparsePauliOp -> list SparsePauliOp.
Variable accuracy_ratio_fidelity : ExpVal -> float -> float -> float -> gmap string float.




End Pipeline.

